(** * Keychain Studio: the 2D-polygon-to-3D-solid pipeline

    A shallow embedding of the geometry core of the four designer
    components (outline, name tag, initial, flower) and of the shared
    helpers of [lib/utils], followed by the properties the design
    document states about them.

    Conventions of the embedding:
    - a JavaScript [number] that stays finite is an exact rational ([Q]);
      a coordinate that went through [Math.round] is an integer ([Z]);
      the bounding box of a tree without points holds [Infinity] and
      [-Infinity], so the numbers of the keyring anchor are [JS.num];
    - arrays are lists in push order, [null] and [undefined] are [None];
    - module-level mutable state (font cache, scene group, form fields)
      is threaded explicitly;
    - the libraries the code calls (glyph outliner, polygon clipper,
      geometry merge and STL serializer, trigonometry) are the fields of
      the class [Collaborators];
    - a mesh records its geometry, its depth and its [position.z];
      materials, shadows, camera framing and the placement in x and y
      (which never touches z) are left out.

    Part I holds the definitions, Part II the theorems. *)

From Stdlib Require Import QArith Qround Qabs Lqa ZArith List Bool Lia.
From Stdlib Require Import String Ascii.
From stdpp Require Import gmap strings.
Import ListNotations.

#[local] Open Scope Q_scope.
#[local] Set Warnings "-register-all,-clear-no-such-hyp".

(* ===================================================================== *)
(** * Part I. Definitions *)
(* ===================================================================== *)

(** ** JavaScript values used by the pipeline *)

Module JS.

(** [Math.max(a, b)] and [Math.min(a, b)] on finite numbers. *)
Definition Math_max (a b : Q) : Q := if Qlt_le_dec a b then b else a.
Definition Math_min (a b : Q) : Q := if Qlt_le_dec b a then b else a.

(** [Math.round(x)]: the nearest integer, halves go up. *)
Definition Math_round (x : Q) : Z := Qfloor (x + (1 # 2)).

(** A number that may have left the finite range. *)
Inductive num : Type :=
| Fin (q : Q)
| PosInf
| NegInf
| NaN.

Definition num_min (a b : num) : num :=
  match a, b with
  | NaN, _ | _, NaN => NaN
  | NegInf, _ | _, NegInf => NegInf
  | PosInf, x | x, PosInf => x
  | Fin x, Fin y => Fin (Math_min x y)
  end.

Definition num_max (a b : num) : num :=
  match a, b with
  | NaN, _ | _, NaN => NaN
  | PosInf, _ | _, PosInf => PosInf
  | NegInf, x | x, NegInf => x
  | Fin x, Fin y => Fin (Math_max x y)
  end.

Definition num_add (a b : num) : num :=
  match a, b with
  | NaN, _ | _, NaN => NaN
  | PosInf, NegInf | NegInf, PosInf => NaN
  | PosInf, _ | _, PosInf => PosInf
  | NegInf, _ | _, NegInf => NegInf
  | Fin x, Fin y => Fin (x + y)
  end.

(** [a * k] for a finite [k]. *)
Definition num_mul (a : num) (k : Q) : num :=
  match a with
  | Fin x => Fin (x * k)
  | NaN => NaN
  | PosInf =>
      if Qlt_le_dec 0 k then PosInf
      else if Qlt_le_dec k 0 then NegInf else NaN
  | NegInf =>
      if Qlt_le_dec 0 k then NegInf
      else if Qlt_le_dec k 0 then PosInf else NaN
  end.

(** [a / k] for a finite, non-zero [k] (the code divides by 2 and by
    [SCALE] only). *)
Definition num_div (a : num) (k : Q) : num := num_mul a (/ k).

(** [Math.round] keeps a non-finite argument. *)
Definition num_round (a : num) : num :=
  match a with
  | Fin x => Fin (inject_Z (Math_round x))
  | other => other
  end.

(** [s || dflt] on strings: the empty string is the only falsy one. *)
Definition or_else (s dflt : string) : string :=
  match s with
  | EmptyString => dflt
  | _ => s
  end.

(** [s.charAt(0)]: the empty string when [s] is empty. *)
Definition charAt0 (s : string) : string :=
  match s with
  | EmptyString => EmptyString
  | String c _ => String c EmptyString
  end.

(** [toUpperCase] on the ASCII letters; other characters are kept. *)
Definition upper_ascii (c : ascii) : ascii :=
  let n := nat_of_ascii c in
  if (97 <=? n)%nat && (n <=? 122)%nat then ascii_of_nat (n - 32) else c.

Fixpoint toUpperCase (s : string) : string :=
  match s with
  | EmptyString => EmptyString
  | String c r => String (upper_ascii c) (toUpperCase r)
  end.

(** [trim] for the ASCII white space (tab, LF, VT, FF, CR, space). *)
Definition is_space (c : ascii) : bool :=
  let n := nat_of_ascii c in
  ((9 <=? n)%nat && (n <=? 13)%nat) || (n =? 32)%nat.

Fixpoint trimStart (s : string) : string :=
  match s with
  | EmptyString => EmptyString
  | String c r => if is_space c then trimStart r else s
  end.

Fixpoint trimEnd (s : string) : string :=
  match s with
  | EmptyString => EmptyString
  | String c r =>
      match trimEnd r with
      | EmptyString => if is_space c then EmptyString else String c EmptyString
      | r' => String c r'
      end
  end.

Definition trim (s : string) : string := trimEnd (trimStart s).

End JS.

(** ** Points, paths and the scale *)

(** [{X, Y}] of the clipper after rounding: integer coordinates. *)
Record IntPoint := mkIntPoint { X : Z; Y : Z }.

(** [THREE.Vector2]. *)
Record Vector2 := mkVector2 { vx : Q; vy : Q }.

Definition Path := list IntPoint.

(** A point handed to the clipper; its coordinates are finite except
    for a keyring circle anchored on an empty bounding box. *)
Record EPoint := mkEPoint { EX : JS.num; EY : JS.num }.

Definition EPath := list EPoint.

Definition embedPoint (p : IntPoint) : EPoint :=
  {| EX := JS.Fin (inject_Z (X p)); EY := JS.Fin (inject_Z (Y p)) |}.

Definition embedPath (p : Path) : EPath := map embedPoint p.

(** The scale of every variant: [const SCALE = 1000]. *)
Definition SCALE : Q := 1000.

(** One step of the [toPath] loop:
    [{ X: Math.round(p.x * SCALE), Y: Math.round(p.y * SCALE) }]. *)
Definition scalePoint (p : Vector2) : IntPoint :=
  {| X := JS.Math_round (vx p * SCALE); Y := JS.Math_round (vy p * SCALE) |}.

(** [toVec2 = (pt) => new THREE.Vector2(pt.X / SCALE, pt.Y / SCALE)]. *)
Definition toVec2 (pt : IntPoint) : Vector2 :=
  {| vx := inject_Z (X pt) / SCALE; vy := inject_Z (Y pt) / SCALE |}.

Definition IntPoint_eqb (a b : IntPoint) : bool :=
  (X a =? X b)%Z && (Y a =? Y b)%Z.

(** [toPath] of [shapeToPaths]: scale and round every point, then drop
    the last point when it repeats the first one (only when more than two
    points were produced). *)
Definition toPath (pts : list Vector2) : Path :=
  let out := map scalePoint pts in
  if (2 <? length out)%nat then
    match head out, last out with
    | Some a, Some b => if IntPoint_eqb a b then removelast out else out
    | _, _ => out
    end
  else out.

(** ** The polygon tree and the reconstructed shapes *)

(** A [PolyNode] of the clipper. The source reads every node through the
    pairs [IsHole?.() ?? m_IsHole], [Contour?.() ?? m_polygon ?? []] and
    [Childs?.() ?? m_Childs ?? []]; each pair is one field here. *)
Inductive PolyNode : Type :=
  Node (m_IsHole : bool) (m_polygon : Path) (m_Childs : list PolyNode).

Definition IsHole (n : PolyNode) : bool := let 'Node h _ _ := n in h.
Definition Contour (n : PolyNode) : Path := let 'Node _ c _ := n in c.
Definition Childs (n : PolyNode) : list PolyNode := let 'Node _ _ k := n in k.

(** A [PolyTree] is given by its roots, [tree.Childs()]. *)
Definition PolyTree := list PolyNode.

(** [THREE.Shape]: the outer boundary and [shape.holes]. *)
Record Shape := mkShape { points : list Vector2; holes : list (list Vector2) }.

(** ** Winding: [THREE.ShapeUtils.area] and [isClockWise] *)

(** The two functions of three.js the reconstruction calls, as that
    library defines them. *)

Module ShapeUtils.

Definition cross (p q : Vector2) : Q := vx p * vy q - vx q * vy p.

(** The loop [for (p = n - 1, q = 0; q < n; p = q++) a += ...]:
    [p] is the previous point, the list holds the points still to visit. *)
Fixpoint area_loop (p : Vector2) (rest : list Vector2) (a : Q) : Q :=
  match rest with
  | [] => a
  | q :: r => area_loop q r (a + cross p q)
  end.

Definition origin : Vector2 := mkVector2 0 0.

(** [ShapeUtils.area(contour)]: the signed shoelace area. *)
Definition area (contour : list Vector2) : Q :=
  area_loop (List.last contour origin) contour 0 * (1 # 2).

(** [ShapeUtils.isClockWise(pts)]: [area(pts) < 0]. *)
Definition isClockWise (pts : list Vector2) : bool :=
  if Qlt_le_dec (area pts) 0 then true else false.

(** Sum of the cross products along an open chain (used in proofs). *)
Fixpoint chain (p : Vector2) (l : list Vector2) : Q :=
  match l with
  | [] => 0
  | q :: r => cross p q + chain q r
  end.

Definition pathsum (l : list Vector2) : Q :=
  match l with
  | [] => 0
  | x :: r => chain x r
  end.

End ShapeUtils.

(** ** Shape reconstruction: [polyTreeToThreeShapes] *)

(** The outline and the initial designer carry the same
    [polyTreeToThreeShapes]; they differ only in what is done to the
    points of a boundary before it is stored in the shape. That step is
    the parameter [windOuter] / [windHole] of this section. *)
Section Reconstruct.

Variable windOuter : list Vector2 -> list Vector2.
Variable windHole : list Vector2 -> list Vector2.

Definition Builder :=
  PolyNode -> list (option Shape) -> option Shape * list (option Shape).

(** [for (const hk of holeKids) { if (!hkIsHole)
    shapesOut.push(buildFromOuter(hk)); }] *)
Definition forHoleKids (build : Builder) :=
  fix go (holeKids : list PolyNode) (shapesOut : list (option Shape))
    : list (option Shape) :=
    match holeKids with
    | [] => shapesOut
    | hk :: rest =>
        if negb (IsHole hk) then
          let '(s, out) := build hk shapesOut in go rest (out ++ [s])
        else go rest shapesOut
    end.

(** [for (const ch of children) { if (!isHole) continue; ... }]:
    collects [shape.holes] and runs the loop over the hole's children. *)
Definition forChildren (build : Builder) :=
  fix go (children : list PolyNode) (holes : list (list Vector2))
    (shapesOut : list (option Shape))
    : list (list Vector2) * list (option Shape) :=
    match children with
    | [] => (holes, shapesOut)
    | ch :: rest =>
        if negb (IsHole ch) then go rest holes shapesOut
        else
          let holeContour := Contour ch in
          let holes' :=
            if (3 <=? length holeContour)%nat
            then holes ++ [windHole (map toVec2 holeContour)]
            else holes in
          go rest holes' (forHoleKids build (Childs ch) shapesOut)
    end.

(** [buildFromOuter(outerNode)]; [shapesOut] is the array of the
    enclosing [polyTreeToThreeShapes], threaded through. [None] is the
    [null] (outline) or [undefined] (initial) returned for a contour with
    fewer than three points. *)
Fixpoint buildFromOuter (outerNode : PolyNode)
  (shapesOut : list (option Shape)) {struct outerNode}
  : option Shape * list (option Shape) :=
  match outerNode with
  | Node _ contour children =>
      if (length contour <? 3)%nat then (None, shapesOut)
      else
        let outerPts := windOuter (map toVec2 contour) in
        let '(holes, out) :=
          forChildren buildFromOuter children [] shapesOut in
        (Some (mkShape outerPts holes), out)
  end.

(** The loop over the roots: [if (isHole) continue;
    const s = buildFromOuter(n); if (s) shapesOut.push(s);] *)
Fixpoint forRoots (roots : list PolyNode) (shapesOut : list (option Shape))
  : list (option Shape) :=
  match roots with
  | [] => shapesOut
  | n :: rest =>
      if IsHole n then forRoots rest shapesOut
      else
        match buildFromOuter n shapesOut with
        | (Some s, out) => forRoots rest (out ++ [Some s])
        | (None, out) => forRoots rest out
        end
  end.

Definition polyTreeToThreeShapes (tree : PolyTree) : list (option Shape) :=
  forRoots tree [].

(** The shape a node yields by itself: its boundary, and as holes the
    contours (of three points or more) of its direct hole children. *)
Definition holesOf (children : list PolyNode) : list (list Vector2) :=
  map (fun ch => windHole (map toVec2 (Contour ch)))
    (List.filter (fun ch => IsHole ch && (3 <=? length (Contour ch))%nat)
       children).

Definition regionOf (n : PolyNode) : Shape :=
  mkShape (windOuter (map toVec2 (Contour n))) (holesOf (Childs n)).

End Reconstruct.

(** The fill areas of a tree, as the design document describes them:
    the non-hole roots, and below a fill area every non-hole child of one
    of its hole children, and so on. [islandsBelow n] lists the islands
    nested in the holes of [n], innermost first. *)
Fixpoint islandsBelow (n : PolyNode) : list PolyNode :=
  match n with
  | Node _ _ children =>
      flat_map (fun ch =>
        if IsHole ch then
          flat_map (fun hk =>
            if IsHole hk then [] else islandsBelow hk ++ [hk]) (Childs ch)
        else []) children
  end.

Definition islands (tree : PolyTree) : list PolyNode :=
  flat_map (fun n => if IsHole n then [] else islandsBelow n ++ [n]) tree.

Inductive Island (tree : PolyTree) : PolyNode -> Prop :=
| Island_root n :
    In n tree -> IsHole n = false -> Island tree n
| Island_nested outer hole n :
    Island tree outer ->
    In hole (Childs outer) -> IsHole hole = true ->
    In n (Childs hole) -> IsHole n = false ->
    Island tree n.

(** ** Geometries, meshes and what is exported *)

(** A glyph shape of the font: the points [shape.getPoints(divisions)]
    returns for its boundary and for each of its holes. *)
Record FontShape :=
  mkFontShape { getPoints : list Vector2; glyphHoles : list (list Vector2) }.

(** The geometries the designers build. [ExtrudeGeometry] and
    [ExtrudeGlyphs] are [new THREE.ExtrudeGeometry(shapes, { depth,
    bevelEnabled: false })] over reconstructed shapes and over the shapes
    of the font; [ExtrudeRing] is the annulus of [makeKeyringGeometry];
    [PlateGeometry] is a loaded flower plate scaled along z. *)
Inductive Geometry : Type :=
| ExtrudeGeometry (shapes : list (option Shape)) (depth : Q)
| ExtrudeGlyphs (shapes : list FontShape) (depth : Q)
| ExtrudeRing (outerRadius innerRadius : Q) (depth : Q)
| PlateGeometry (depth : Q).

(** The extent of a geometry along z. An extrusion without bevel is a
    straight prism from local z = 0 to z = depth (section 6 of the design
    document); a plate is moved to z = 0 when it is loaded. *)
Definition depthOf (g : Geometry) : Q :=
  match g with
  | ExtrudeGeometry _ d | ExtrudeGlyphs _ d | ExtrudeRing _ _ d
  | PlateGeometry d => d
  end.

(** Which variable of [rebuildMeshes] a mesh was bound to. *)
Inductive Layer : Type :=
| baseMesh | textMesh | initialMesh | initialBaseMesh | ringMesh
| topMesh | textMesh1 | textMesh2.

Record Mesh := mkMesh { layer : Layer; geometry : Geometry; position_z : Q }.

Definition bottomZ (m : Mesh) : Q := position_z m.
Definition topZ (m : Mesh) : Q := position_z m + depthOf (geometry m).

Record Vector3 := mkVector3 { x3 : Q; y3 : Q; z3 : Q }.

(** A [THREE.BufferGeometry] as a triangle soup. *)
Definition BufferGeometry := list (Vector3 * Vector3 * Vector3).

(** What [exporter.parse] is given: one mesh over a merged geometry, or
    the scene group with its children. *)
Inductive Object3D : Type :=
| SingleMesh (g : BufferGeometry)
| Group (children : list Mesh).

(** An [ArrayBuffer]. *)
Definition Buffer := list Init.Byte.byte.
Definition byteLength (b : Buffer) : nat := length b.

(** ** Accounts *)

Record User := mkUser { user_id : string }.

Inductive LicenseType : Type := trial | licensed | expired.

Record LicenseStatus := mkStatus { type : LicenseType; canExport : bool }.

Definition is_trial (s : LicenseStatus) : bool :=
  match type s with trial => true | _ => false end.

(** What an export does to the world outside the component, in order. *)
Inductive Effect : Type :=
| onRequestLogin
| checkLicenseStatus (u : User)
| licenseModal_open
| rebuildMeshes_run
| exporter_parse (obj : Object3D)
| downloadBlob (buffer : Buffer)
| onShowThankYou
| exportError_set (msg : string)
| uncaught_TypeError.

(** ** [lib/utils]: fonts and the keyring geometry *)

Module Utils.

(** The six imported font files. *)
Inductive FontJson : Type :=
| titanOneJson | showpopJson | retroDollyJson
| kindergoJson | beautifulHarmonyJson | milkywayJson.

Record FontOption := mkFontOption
  { key : string; label : string; json : FontJson; fontFamily : string }.

Definition FONT_OPTIONS : list FontOption :=
  [ mkFontOption "Titan One_Regular" "Titan One (Regular)"
      titanOneJson "Titan One";
    mkFontOption "Showpop_Regular" "Showpop (Regular)"
      showpopJson "Showpop";
    mkFontOption "Retro Dolly_Book" "Retro Dolly (Book)"
      retroDollyJson "Retro Dolly";
    mkFontOption "Kindergo_Regular" "Kindergo (Regular)"
      kindergoJson "Kindergo";
    mkFontOption "Beautiful Harmony_Regular" "Beautiful Harmony (Regular)"
      beautifulHarmonyJson "Beautiful Harmony";
    mkFontOption "Milkyway_Regular" "Milkyway (Regular)"
      milkywayJson "Milkyway" ].

(** A parsed font object: [object_id] is its identity (two objects of
    the same data are still two objects), [data] the file it was parsed
    from. *)
Record Font := mkFont { object_id : nat; data : FontJson }.

(** The module state: [fontCache] and the number of font objects
    [fontLoader.parse] has created so far. *)
Record Loader := mkLoader { fontCache : gmap string Font; parsed_count : nat }.

Definition emptyLoader : Loader := mkLoader ∅ 0.

(** [fontLoader.parse(json)] makes a new font object. *)
Definition fontLoader_parse (j : FontJson) (st : Loader) : Font * Loader :=
  (mkFont (parsed_count st) j,
   mkLoader (fontCache st) (S (parsed_count st))).

(** [FONT_OPTIONS.find((o) => o.key === key) ?? FONT_OPTIONS[0]]. *)
Definition findOption (fontKey : string) : option FontOption :=
  match find (fun o => String.eqb (key o) fontKey) FONT_OPTIONS with
  | Some o => Some o
  | None => head FONT_OPTIONS
  end.

(** [getFont(key)]. The result is [None] when [opt.json] would be read
    from [undefined]. *)
Definition getFont (fontKey : string) (st : Loader) : option Font * Loader :=
  match fontCache st !! fontKey with
  | Some cached => (Some cached, st)
  | None =>
      match findOption fontKey with
      | None => (None, st)
      | Some opt =>
          let '(parsed, st1) := fontLoader_parse (json opt) st in
          (Some parsed,
           mkLoader (<[fontKey := parsed]> (fontCache st1)) (parsed_count st1))
      end
  end.

(** [outerRadius] and [innerRadius] of [makeKeyringGeometry]. *)
Definition keyringOuterRadius (outerDiameter : Q) : Q :=
  JS.Math_max (1 # 10) (outerDiameter / 2).

Definition keyringInnerRadius (outerDiameter innerDiameter : Q) : Q :=
  JS.Math_min (JS.Math_max (1 # 20) (innerDiameter / 2))
    (keyringOuterRadius outerDiameter - (1 # 10)).

(** [makeKeyringGeometry(outerDiameter, innerDiameter, depth)]. *)
Definition makeKeyringGeometry (outerDiameter innerDiameter depth : Q)
  : Geometry :=
  ExtrudeRing (keyringOuterRadius outerDiameter)
    (keyringInnerRadius outerDiameter innerDiameter)
    (JS.Math_max (1 # 10) depth).

End Utils.

(** ** The libraries the designers call *)

Class Collaborators := {
  (** [font.generateShapes(text, size)] *)
  generateShapes : Utils.Font -> string -> Q -> list FontShape;
  (** [ClipperLib.Clipper.Orientation(path)] *)
  Clipper_Orientation : EPath -> bool;
  (** [Execute(ctUnion, ...)] over the subject paths, non-zero filling *)
  Clipper_union : list EPath -> PolyTree;
  (** [Execute(ctDifference, ...)] over subject and clip paths *)
  Clipper_difference : list EPath -> list EPath -> PolyTree;
  (** [ClipperOffset(2, 2)] with round joins: [Execute(out, delta)] *)
  ClipperOffset_Execute : list EPath -> Q -> list Path;
  Math_PI : Q;
  Math_cos : Q -> Q;
  Math_sin : Q -> Q;
  (** [mesh.geometry.clone().applyMatrix4(mesh.matrixWorld)] *)
  worldGeometry : Mesh -> BufferGeometry;
  (** [BufferGeometryUtils.mergeGeometries], [null] is [None] *)
  mergeGeometries : list BufferGeometry -> option BufferGeometry;
  (** [BufferGeometryUtils.mergeVertices(geometry, tolerance)] *)
  mergeVertices : BufferGeometry -> Q -> BufferGeometry;
  (** [new STLExporter().parse(object, { binary: true })], as a buffer *)
  STLExporter_parse : Object3D -> Buffer
}.

(** ** The planar helpers shared by the outline and the initial designer *)

Record BBox :=
  mkBBox { minX : JS.num; maxX : JS.num; minY : JS.num; maxY : JS.num }.

Section Planar.

Context {C : Collaborators}.

(** [shapeToPaths(shape)]: [{ outer, holes }]. *)
Definition shapeToPaths (shape : FontShape) : Path * list Path :=
  (toPath (getPoints shape), map toPath (glyphHoles shape)).

(** [ensureCW(path, clockwise)]: reverse when the orientation the
    clipper reports differs from the wanted one. *)
Definition ensureCW (path : Path) (clockwise : bool) : Path :=
  if Bool.eqb (Clipper_Orientation (embedPath path)) clockwise
  then path else rev path.

(** The loop [for (const s of shapes) { ... inputPaths.push(...) }]:
    an outer path of fewer than three points skips the whole shape, a
    hole of fewer than three points is skipped alone. *)
Definition pathsOfShapes (shapes : list FontShape) : list Path :=
  flat_map (fun s =>
    let '(outer, holes) := shapeToPaths s in
    if (length outer <? 3)%nat then []
    else ensureCW outer true ::
         map (fun h => ensureCW h false)
           (List.filter (fun h => (3 <=? length h)%nat) holes)) shapes.

Definition unionOf (paths : list Path) : PolyTree :=
  Clipper_union (map embedPath paths).

(** [outlineTree]: the union of the offset paths when the outline is
    wider than zero, the union of the input paths otherwise. *)
Definition outlineTreeOf (inputPaths : list Path) (outlineWorld : Q)
  : PolyTree :=
  if Qlt_le_dec 0 outlineWorld then
    unionOf (ClipperOffset_Execute (map embedPath inputPaths)
               (outlineWorld * SCALE))
  else unionOf inputPaths.

(** [collect(node)] of [getTreeBbox]: the box is widened by every point
    of the node, then by its children. *)
Fixpoint collect (node : PolyNode) (bb : BBox) {struct node} : BBox :=
  match node with
  | Node _ contour childs =>
      fold_left (fun b ch => collect ch b) childs
        (fold_left (fun b p =>
           let px := JS.Fin (inject_Z (X p)) in
           let py := JS.Fin (inject_Z (Y p)) in
           mkBBox (JS.num_min (minX b) px) (JS.num_max (maxX b) px)
                  (JS.num_min (minY b) py) (JS.num_max (maxY b) py))
           contour bb)
  end.

Definition getTreeBbox (tree : PolyTree) : BBox :=
  fold_left (fun b n => collect n b) tree
    (mkBBox JS.PosInf JS.NegInf JS.PosInf JS.NegInf).

(** [circleToPath(cx, cy, r, clockwise, segs)]. *)
Definition circleToPath (cx cy : JS.num) (r : Q) (clockwise : bool)
  (segs : nat) : option EPath :=
  let path :=
    map (fun i =>
      let t := (inject_Z (Z.of_nat i) / inject_Z (Z.of_nat segs))
               * Math_PI * 2 in
      mkEPoint
        (JS.num_round
           (JS.num_mul (JS.num_add cx (JS.Fin (r * Math_cos t))) SCALE))
        (JS.num_round
           (JS.num_mul (JS.num_add cy (JS.Fin (r * Math_sin t))) SCALE)))
      (seq 0 segs) in
  if (length path <? 3)%nat then None
  else if Bool.eqb (Clipper_Orientation path) clockwise then Some path
       else Some (rev path).

(** [collectOuterPaths(node, out)]. *)
Fixpoint collectOuterPaths (node : PolyNode) (out : list Path)
  {struct node} : list Path :=
  match node with
  | Node isHole contour childs =>
      if isHole then out
      else
        fold_left (fun o ch => collectOuterPaths ch o) childs
          (if (3 <=? length contour)%nat then out ++ [contour] else out)
  end.

Definition outerPathsOf (tree : PolyTree) : list Path :=
  fold_left (fun o n => collectOuterPaths n o) tree [].

End Planar.

(** ** The outline designer *)

Module Outline.

(** [const TEXT_BASE_EMBED = 0.2]. *)
Definition TEXT_BASE_EMBED : Q := 2 # 10.

Record Params := mkParams {
  text : string;
  textSize : Q;
  outlineOffsetPx : Q;
  baseDepth : Q;
  textDepth : Q;
  keyringEnabled : bool;
  keyringOuterSize : Q;
  keyringHoleSize : Q;
  keyringOffsetX : Q;
  keyringOffsetY : Q
}.

(** The component state the build and the export read: [scene] tells
    whether the scene exists, [group] is [None] for [null] and the list
    of children of the group otherwise. *)
Record State := mkState {
  user : option User;
  scene : bool;
  font : option Utils.Font;
  group : option (list Mesh);
  params : Params
}.

Definition with_group (st : State) (g : option (list Mesh)) : State :=
  mkState (user st) (scene st) (font st) g (params st).

(** [if (THREE.ShapeUtils.isClockWise(outerPts)) outerPts.reverse();] *)
Definition windOuter (outerPts : list Vector2) : list Vector2 :=
  if ShapeUtils.isClockWise outerPts then rev outerPts else outerPts.

(** [if (!THREE.ShapeUtils.isClockWise(holePts)) holePts.reverse();] *)
Definition windHole (holePts : list Vector2) : list Vector2 :=
  if negb (ShapeUtils.isClockWise holePts) then rev holePts else holePts.

Definition polyTreeToThreeShapes : PolyTree -> list (option Shape) :=
  polyTreeToThreeShapes windOuter windHole.

(** [const size = Math.max(1, Math.round(textSize))]. *)
Definition size (p : Params) : Q :=
  JS.Math_max 1 (inject_Z (JS.Math_round (textSize p))).

(** [outerR] and [innerR] of the keyring circles. *)
Definition outerR (p : Params) : Q :=
  JS.Math_max (1 # 10) (keyringOuterSize p / 2).

Definition innerR (p : Params) : Q :=
  JS.Math_min (JS.Math_max (1 # 20) (keyringHoleSize p / 2))
    (outerR p - (1 # 10)).

Section Build.

Context {C : Collaborators}.

(** The block [if (keyringEnabled) { ... }]: the tree the base is built
    from. The circles sit at the top left corner of the bounding box of
    the outline, moved by the keyring offsets. *)
Definition baseTreeOf (p : Params) (outlineTree : PolyTree) : PolyTree :=
  if keyringEnabled p then
    let bbox := getTreeBbox outlineTree in
    let cornerX := JS.num_div (minX bbox) SCALE in
    let cornerY := JS.num_div (maxY bbox) SCALE in
    let kx := JS.num_add cornerX (JS.Fin (keyringOffsetX p)) in
    let ky := JS.num_add cornerY (JS.Fin (keyringOffsetY p)) in
    match circleToPath kx ky (outerR p) true 64,
          circleToPath kx ky (innerR p) false 64 with
    | Some outerCircle, Some innerCircle =>
        let outlinePaths := outerPathsOf outlineTree in
        let unionTree :=
          Clipper_union (map embedPath outlinePaths ++ [outerCircle]) in
        let diffPaths := outerPathsOf unionTree in
        Clipper_difference (map embedPath diffPaths) [innerCircle]
    | _, _ => outlineTree
    end
  else outlineTree.

(** The two trees of a build: [filledTree] and [baseTree]. *)
Definition treesOf (f : Utils.Font) (p : Params) : PolyTree * PolyTree :=
  let shapes := generateShapes f (JS.or_else (text p) " ") (size p) in
  let inputPaths := pathsOfShapes shapes in
  let filledTree := unionOf inputPaths in
  let outlineWorld := JS.Math_max 0 (outlineOffsetPx p) * (size p / 60) in
  let outlineTree := outlineTreeOf inputPaths outlineWorld in
  (filledTree, baseTreeOf p outlineTree).

(** The children [rebuildMeshes] adds to the group, in order. *)
Definition composite (f : Utils.Font) (p : Params) : list Mesh :=
  let '(filledTree, baseTree) := treesOf f p in
  let baseShapes := polyTreeToThreeShapes baseTree in
  let textShapes := polyTreeToThreeShapes filledTree in
  let baseGeo := ExtrudeGeometry baseShapes (JS.Math_max (1 # 10) (baseDepth p)) in
  let textGeo := ExtrudeGeometry textShapes (JS.Math_max (1 # 10) (textDepth p)) in
  [ mkMesh baseMesh baseGeo 0;
    mkMesh textMesh textGeo
      (JS.Math_max (1 # 10) (baseDepth p) - TEXT_BASE_EMBED) ].

(** [rebuildMeshes()]: nothing happens without scene, group or font;
    otherwise the group is cleared and refilled. *)
Definition rebuildMeshes (st : State) : State :=
  match scene st, group st, font st with
  | true, Some _, Some f => with_group st (Some (composite f (params st)))
  | _, _, _ => st
  end.

(** [exportSTL()] up to its [await]: either it returns, or it waits for
    [checkLicenseStatus(user)]. *)
Definition exportSTL_begin (st : State) : list Effect + User :=
  match group st, scene st with
  | Some _, true =>
      match user st with
      | None => inl [onRequestLogin]
      | Some u => inr u
      end
  | _, _ => inl []
  end.

(** [exportSTL()] after the [await], on the state found at that time. *)
Definition exportSTL_resume (status : LicenseStatus) (st : State)
  : list Effect * State :=
  if negb (canExport status) then ([licenseModal_open], st)
  else
    let st1 := rebuildMeshes st in
    match group st1 with
    | None => ([rebuildMeshes_run; uncaught_TypeError], st1)
    | Some children =>
        let geometries := map worldGeometry children in
        match geometries with
        | [] => ([rebuildMeshes_run], st1)
        | _ :: _ =>
            match mergeGeometries geometries with
            | None => ([rebuildMeshes_run], st1)
            | Some merged =>
                let welded := mergeVertices merged (1 # 1000) in
                let buffer := STLExporter_parse (SingleMesh welded) in
                ([rebuildMeshes_run; exporter_parse (SingleMesh welded)]
                 ++ (if (84 <=? byteLength buffer)%nat
                     then [downloadBlob buffer] else [])
                 ++ (if is_trial status then [onShowThankYou] else []),
                 st1)
            end
        end
    end.

(** A whole export: [status] is what the license check resolves to,
    [during] is what the rest of the application does to the component
    state while the export is suspended. *)
Definition exportSTL (status : LicenseStatus) (during : State -> State)
  (st : State) : list Effect * State :=
  match exportSTL_begin st with
  | inl effects => (effects, st)
  | inr u =>
      let '(effects, st') := exportSTL_resume status (during st) in
      (checkLicenseStatus u :: effects, st')
  end.

End Build.

End Outline.

(** ** The initial designer *)

Module Initial.

Record Params := mkParams {
  text : string;
  textSize : Q;
  outlineOffsetPx : Q;
  baseDepth : Q;
  textDepth : Q;
  initialDepth : Q;
  initialTextSize : Q;
  initialFontKey : string;
  keyringEnabled : bool;
  keyringDepth : Q;
  keyringOuterSize : Q;
  keyringHoleSize : Q;
  keyringOffsetX : Q;
  keyringOffsetY : Q
}.

Record State := mkState {
  user : option User;
  scene : bool;
  font : option Utils.Font;
  group : option (list Mesh);
  params : Params;
  loader : Utils.Loader
}.

Definition with_group (st : State) (g : option (list Mesh))
  (l : Utils.Loader) : State :=
  mkState (user st) (scene st) (font st) g (params st) l.

(** This designer stores [contour.map(toVec2)] as it is. *)
Definition windOuter (outerPts : list Vector2) : list Vector2 := outerPts.
Definition windHole (holePts : list Vector2) : list Vector2 := holePts.

Definition polyTreeToThreeShapes : PolyTree -> list (option Shape) :=
  polyTreeToThreeShapes windOuter windHole.

Definition size (p : Params) : Q :=
  JS.Math_max 1 (inject_Z (JS.Math_round (textSize p))).

(** [(text?.charAt(0)?.toUpperCase()) || "A"]. *)
Definition initialCharStr (p : Params) : string :=
  JS.or_else (JS.toUpperCase (JS.charAt0 (text p))) "A".

Definition initialSize (p : Params) : Q :=
  JS.Math_max 1 (inject_Z (JS.Math_round (initialTextSize p))).

Section Build.

Context {C : Collaborators}.

(** [filledTree] and [outlineTree] of the main text. *)
Definition treesOf (f : Utils.Font) (p : Params) : PolyTree * PolyTree :=
  let shapes := generateShapes f (JS.or_else (text p) " ") (size p) in
  let inputPaths := pathsOfShapes shapes in
  let filledTree := unionOf inputPaths in
  let outlineWorld := JS.Math_max 0 (outlineOffsetPx p) * (size p / 60) in
  (filledTree, outlineTreeOf inputPaths outlineWorld).

(** [initialThreeShapes]: the shapes of the large initial. *)
Definition initialShapesOf (fontForInitial : Utils.Font) (p : Params)
  : list (option Shape) :=
  let initialPaths :=
    pathsOfShapes
      (generateShapes fontForInitial (initialCharStr p) (initialSize p)) in
  let initialTree :=
    match initialPaths with
    | [] => []
    | _ :: _ => unionOf initialPaths
    end in
  polyTreeToThreeShapes initialTree.

(** The children [rebuildMeshes] adds to the group, in order, with the
    z positions they have when the function returns. *)
Definition composite (f fontForInitial : Utils.Font) (p : Params)
  : list Mesh :=
  let '(filledTree, outlineTree) := treesOf f p in
  let baseShapes := polyTreeToThreeShapes outlineTree in
  let textShapes := polyTreeToThreeShapes filledTree in
  let initialThreeShapes := initialShapesOf fontForInitial p in
  let hasInitial := (0 <? length initialThreeShapes)%nat in
  let iD := JS.Math_max (1 # 10) (initialDepth p) in
  let bD := JS.Math_max (1 # 10) (baseDepth p) in
  (if hasInitial then
     [ mkMesh initialMesh (ExtrudeGeometry initialThreeShapes iD) (5 # 1000);
       mkMesh initialBaseMesh (ExtrudeGeometry baseShapes iD) 0 ]
   else [])
  ++ [ mkMesh baseMesh (ExtrudeGeometry baseShapes bD)
         (if hasInitial then iD + (1 # 100) else 0);
       mkMesh textMesh
         (ExtrudeGeometry textShapes (JS.Math_max (1 # 10) (textDepth p)))
         (if hasInitial then iD + bD + (2 # 100) else bD - (2 # 100)) ]
  ++ (if keyringEnabled p then
        [ mkMesh ringMesh
            (Utils.makeKeyringGeometry
               (JS.Math_max 1 (keyringOuterSize p))
               (JS.Math_max (1 # 10)
                  (JS.Math_min (keyringHoleSize p)
                     (keyringOuterSize p - (1 # 2))))
               (JS.Math_max (1 # 10) (keyringDepth p)))
            0 ]
      else []).

(** [rebuildMeshes()]. The font of the initial comes from [getFont];
    were that call to throw, the group would stay cleared. *)
Definition rebuildMeshes (st : State) : State :=
  match scene st, group st, font st with
  | true, Some _, Some f =>
      match Utils.getFont (initialFontKey (params st)) (loader st) with
      | (Some fontForInitial, l) =>
          with_group st (Some (composite f fontForInitial (params st))) l
      | (None, l) => with_group st (Some []) l
      end
  | _, _, _ => st
  end.

Definition exportSTL_begin (st : State) : list Effect + User :=
  match group st with
  | Some _ =>
      match user st with
      | None => inl [onRequestLogin]
      | Some u => inr u
      end
  | None => inl []
  end.

(** [exportSTL()] after the [await]: the group is handed to the
    exporter as it is, and whatever comes back is downloaded. *)
Definition exportSTL_resume (status : LicenseStatus) (st : State)
  : list Effect * State :=
  if negb (canExport status) then ([licenseModal_open], st)
  else
    match group st with
    | None => ([uncaught_TypeError], st)
    | Some children =>
        let result := STLExporter_parse (Group children) in
        ([exporter_parse (Group children); downloadBlob result]
         ++ (if is_trial status then [onShowThankYou] else []),
         st)
    end.

Definition exportSTL (status : LicenseStatus) (during : State -> State)
  (st : State) : list Effect * State :=
  match exportSTL_begin st with
  | inl effects => (effects, st)
  | inr u =>
      let '(effects, st') := exportSTL_resume status (during st) in
      (checkLicenseStatus u :: effects, st')
  end.

End Build.

End Initial.

(** ** The name tag designer *)

Module NameTag.

(** [TEXT_BASE_EMBED = 0.2] and [BORDER_BASE_EMBED = 0.05]. *)
Definition TEXT_BASE_EMBED : Q := 2 # 10.
Definition BORDER_BASE_EMBED : Q := 5 # 100.

Inductive KeyringPosition : Type :=
| topCenter | topLeft | topRight | leftCenter | rightCenter.

Record Params := mkParams {
  baseWidth : Q;
  baseHeight : Q;
  cornerRadius : Q;
  baseDepth : Q;
  topBorderDepth : Q;
  keyringPosition : KeyringPosition;
  textContent : string;
  textFontKey : string;
  textSize : Q;
  textDepth : Q
}.

Record State := mkState {
  user : option User;
  scene : bool;
  group : option (list Mesh);
  params : Params;
  loader : Utils.Loader;
  exportError : option string
}.

Definition with_group (st : State) (g : option (list Mesh))
  (l : Utils.Loader) : State :=
  mkState (user st) (scene st) g (params st) l (exportError st).

Definition with_error (st : State) (e : option string) : State :=
  mkState (user st) (scene st) (group st) (params st) (loader st) e.

Section Build.

Context {C : Collaborators}.

(** The planar stage of [rebuildMeshes] (rounded rectangle, disc and
    hole through the clipper) enters as [planar]: [None] when the
    function returns before a mesh is made ([!rectPath] or
    [!mergedShape]), otherwise [mergedShape] and [topMergedShape]. *)
Variable planar : Params -> option (Shape * option Shape).

(** The mesh of the text, when there is text and the font has shapes
    for it. *)
Definition textMeshOf (p : Params) (l : Utils.Loader)
  : list Mesh * Utils.Loader :=
  match JS.trim (textContent p) with
  | EmptyString => ([], l)
  | String _ _ as textToRender =>
      match Utils.getFont (textFontKey p) l with
      | (Some f, l1) =>
          match generateShapes f textToRender (textSize p) with
          | [] => ([], l1)
          | (_ :: _) as shapes =>
              ([ mkMesh textMesh
                   (ExtrudeGlyphs shapes (JS.Math_max (1 # 100) (textDepth p)))
                   (baseDepth p - TEXT_BASE_EMBED) ], l1)
          end
      | (None, l1) => ([], l1)
      end
  end.

Definition rebuildMeshes (st : State) : State :=
  match scene st, group st with
  | true, Some _ =>
      let p := params st in
      match planar p with
      | None => with_group st (Some []) (loader st)
      | Some (mergedShape, topMergedShape) =>
          let base :=
            mkMesh baseMesh
              (ExtrudeGeometry [Some mergedShape]
                 (JS.Math_max (1 # 10) (baseDepth p))) 0 in
          let top :=
            match topMergedShape with
            | Some s =>
                [ mkMesh topMesh
                    (ExtrudeGeometry [Some s]
                       (JS.Math_max (1 # 10) (topBorderDepth p)))
                    (baseDepth p - BORDER_BASE_EMBED) ]
            | None => []
            end in
          let '(txt, l) := textMeshOf p (loader st) in
          with_group st (Some (base :: top ++ txt)) l
      end
  | _, _ => st
  end.

Definition exportSTL_begin (st : State) : list Effect + User :=
  match user st with
  | None => inl [onRequestLogin]
  | Some u => inr u
  end.

(** The body of the [try]: the effects so far, and the message of the
    [Error] that was thrown, if any. *)
Definition exportSTL_try (status : LicenseStatus) (st : State)
  : list Effect * option string * State :=
  match group st, scene st with
  | Some _, true =>
      let st1 := rebuildMeshes st in
      match option_map (map worldGeometry) (group st1) with
      | None | Some [] =>
          ([rebuildMeshes_run], Some "No geometry to export"%string, st1)
      | Some ((_ :: _) as geometries) =>
          match mergeGeometries geometries with
          | None =>
              ([rebuildMeshes_run], Some "Failed to merge geometry"%string,
               st1)
          | Some merged =>
              let buffer := STLExporter_parse (SingleMesh merged) in
              if (byteLength buffer <? 84)%nat
              then ([rebuildMeshes_run; exporter_parse (SingleMesh merged)],
                    Some "Export produced no geometry"%string, st1)
              else
                ([rebuildMeshes_run; exporter_parse (SingleMesh merged);
                  downloadBlob buffer]
                 ++ (if is_trial status then [onShowThankYou] else []),
                 None, st1)
          end
      end
  | _, _ => ([], Some "Scene not ready"%string, st)
  end.

(** [exportSTL()] after the [await]; the [catch] stores the message in
    [exportError]. *)
Definition exportSTL_resume (status : LicenseStatus) (st : State)
  : list Effect * State :=
  if negb (canExport status) then ([licenseModal_open], st)
  else
    match exportSTL_try status (with_error st None) with
    | (effects, Some msg, st1) =>
        (effects ++ [exportError_set msg], with_error st1 (Some msg))
    | (effects, None, st1) => (effects, st1)
    end.

Definition exportSTL (status : LicenseStatus) (during : State -> State)
  (st : State) : list Effect * State :=
  match exportSTL_begin st with
  | inl effects => (effects, st)
  | inr u =>
      let '(effects, st') := exportSTL_resume status (during st) in
      (checkLicenseStatus u :: effects, st')
  end.

End Build.

End NameTag.

(** ** The flower designer *)

Module Flower.

(** [const FLOWER_TOP_BASE_EMBED = 0.05]. *)
Definition FLOWER_TOP_BASE_EMBED : Q := 5 # 100.

Record Params := mkParams {
  baseDepth : Q;
  topDepth : Q;
  char : string;
  charDepth : Q;
  charSize : Q;
  charFontKey : string
}.

(** [baseGeometry] and [topGeometry] are the loaded plates, given by
    their extent along z ([None] until loaded). *)
Record State := mkState {
  user : option User;
  scene : bool;
  group : option (list Mesh);
  baseGeometry : option Q;
  topGeometry : option Q;
  params : Params;
  loader : Utils.Loader
}.

Definition with_group (st : State) (g : option (list Mesh))
  (l : Utils.Loader) : State :=
  mkState (user st) (scene st) g (baseGeometry st) (topGeometry st)
    (params st) l.

(** [scaleGeometryToDepth(srcGeo, targetDepth)], on the extent along z. *)
Definition scaleGeometryToDepth (currentDepth targetDepth : Q) : Q :=
  if Qlt_le_dec (1 # 1000) currentDepth then
    currentDepth * (JS.Math_max (1 # 100) targetDepth / currentDepth)
  else currentDepth.

Section Build.

Context {C : Collaborators}.

Definition charMeshesOf (p : Params) (l : Utils.Loader)
  : list Mesh * Utils.Loader :=
  match JS.charAt0 (JS.trim (char p)) with
  | EmptyString => ([], l)
  | String _ _ as charToRender =>
      match Utils.getFont (charFontKey p) l with
      | (Some f, l1) =>
          match generateShapes f charToRender (charSize p) with
          | [] => ([], l1)
          | (_ :: _) as shapes =>
              let charGeo :=
                ExtrudeGlyphs shapes (JS.Math_max (1 # 100) (charDepth p)) in
              let textZ :=
                JS.Math_max (1 # 100) (baseDepth p) - FLOWER_TOP_BASE_EMBED
                + JS.Math_max (1 # 100) (topDepth p) + (1 # 100) in
              ([ mkMesh textMesh1 charGeo textZ;
                 mkMesh textMesh2 charGeo textZ ], l1)
          end
      | (None, l1) => ([], l1)
      end
  end.

Definition rebuildMeshes (st : State) : State :=
  match scene st, group st, baseGeometry st, topGeometry st with
  | true, Some _, Some baseZ, Some topZ =>
      let p := params st in
      let base :=
        mkMesh baseMesh
          (PlateGeometry (scaleGeometryToDepth baseZ (baseDepth p))) 0 in
      let top :=
        mkMesh topMesh
          (PlateGeometry (scaleGeometryToDepth topZ (topDepth p)))
          (JS.Math_max (1 # 100) (baseDepth p) - FLOWER_TOP_BASE_EMBED) in
      let '(chars, l) := charMeshesOf p (loader st) in
      with_group st (Some (base :: top :: chars)) l
  | _, _, _, _ => st
  end.

Definition exportSTL_begin (st : State) : list Effect + User :=
  match group st, scene st with
  | Some _, true =>
      match user st with
      | None => inl [onRequestLogin]
      | Some u => inr u
      end
  | _, _ => inl []
  end.

Definition exportSTL_resume (status : LicenseStatus) (st : State)
  : list Effect * State :=
  if negb (canExport status) then ([licenseModal_open], st)
  else
    let st1 := rebuildMeshes st in
    match group st1 with
    | None => ([rebuildMeshes_run; uncaught_TypeError], st1)
    | Some children =>
        let geometries := map worldGeometry children in
        match geometries with
        | [] => ([rebuildMeshes_run], st1)
        | _ :: _ =>
            match mergeGeometries geometries with
            | None => ([rebuildMeshes_run], st1)
            | Some merged =>
                let welded := mergeVertices merged (1 # 1000) in
                let buffer := STLExporter_parse (SingleMesh welded) in
                ([rebuildMeshes_run; exporter_parse (SingleMesh welded)]
                 ++ (if (84 <=? byteLength buffer)%nat
                     then [downloadBlob buffer] else [])
                 ++ (if is_trial status then [onShowThankYou] else []),
                 st1)
            end
        end
    end.

Definition exportSTL (status : LicenseStatus) (during : State -> State)
  (st : State) : list Effect * State :=
  match exportSTL_begin st with
  | inl effects => (effects, st)
  | inr u =>
      let '(effects, st') := exportSTL_resume status (during st) in
      (checkLicenseStatus u :: effects, st')
  end.

End Build.

End Flower.

(** ** Auxiliary notions used by the theorems *)

(** A contour of at least three points. *)
Definition polygonal (n : PolyNode) : Prop := (3 <= length (Contour n))%nat.

Definition kidIslands (holeKids : list PolyNode) : list PolyNode :=
  flat_map (fun hk => if IsHole hk then [] else islandsBelow hk ++ [hk])
    holeKids.

Definition childIslands (children : list PolyNode) : list PolyNode :=
  flat_map (fun ch => if IsHole ch then kidIslands (Childs ch) else [])
    children.

Section ReconstructNotions.

Variable windOuter : list Vector2 -> list Vector2.
Variable windHole : list Vector2 -> list Vector2.

(** What [buildFromOuter] does on a node whose islands are polygonal. *)
Definition builds_region (n : PolyNode) : Prop :=
  forall out,
    Forall polygonal (islandsBelow n ++ [n]) ->
    buildFromOuter windOuter windHole n out =
      (Some (regionOf windOuter windHole n),
       out ++ map (fun m => Some (regionOf windOuter windHole m))
                (islandsBelow n)).

(** An invariant of every boundary that is stored: [okOuter] of the
    outer boundaries, [okHole] of the holes. *)
Variable okOuter : list Vector2 -> Prop.
Variable okHole : list Vector2 -> Prop.

Definition okShape (o : option Shape) : Prop :=
  match o with
  | Some s => okOuter (points s) /\ Forall okHole (holes s)
  | None => True
  end.

Definition keeps_ok (n : PolyNode) : Prop :=
  forall out, Forall okShape out ->
    okShape (fst (buildFromOuter windOuter windHole n out)) /\
    Forall okShape (snd (buildFromOuter windOuter windHole n out)).

End ReconstructNotions.

(** A square with a square hole that holds a triangular island. *)
Definition nested_tree : PolyTree :=
  [ Node false
      [ mkIntPoint 0 0; mkIntPoint 9000 0; mkIntPoint 9000 9000;
        mkIntPoint 0 9000 ]
      [ Node true
          [ mkIntPoint 1000 1000; mkIntPoint 1000 8000;
            mkIntPoint 8000 8000; mkIntPoint 8000 1000 ]
          [ Node false
              [ mkIntPoint 2000 2000; mkIntPoint 5000 2000;
                mkIntPoint 2000 5000 ]
              [] ] ] ].


(** ** Sample inputs *)

(** Stand-ins for the libraries, used to run the designers on concrete
    inputs: a font whose space has no outline and whose other texts are
    one triangle as wide as the text is long, a clipper that returns every finite subject path as a
    root of its own, and a serializer that returns an empty buffer. *)
Definition finitePoint (p : EPoint) : option IntPoint :=
  match EX p, EY p with
  | JS.Fin x, JS.Fin y => Some (mkIntPoint (Qfloor x) (Qfloor y))
  | _, _ => None
  end.

Definition finitePath (p : EPath) : Path := omap finitePoint p.

Definition triangleGlyph (width : Q) : FontShape :=
  mkFontShape [mkVector2 0 0; mkVector2 width 0; mkVector2 0 10] [].

Definition sampleCollaborators : Collaborators := {|
  generateShapes := fun _ t _ =>
    if String.eqb t " " then []
    else [triangleGlyph (inject_Z (Z.of_nat (String.length t)))];
  Clipper_Orientation := fun _ => true;
  Clipper_union := fun paths => map (fun p => Node false (finitePath p) []) paths;
  Clipper_difference := fun subject _ =>
    map (fun p => Node false (finitePath p) []) subject;
  ClipperOffset_Execute := fun paths _ => map finitePath paths;
  Math_PI := 355 # 113;
  Math_cos := fun _ => 1;
  Math_sin := fun _ => 0;
  worldGeometry := fun _ => [];
  mergeGeometries := fun l => Some (concat l);
  mergeVertices := fun g _ => g;
  STLExporter_parse := fun _ => []
|}.

Definition sampleFont : Utils.Font := Utils.mkFont 0 Utils.titanOneJson.

Definition sampleUser : User := mkUser "u1".

Definition licensedStatus : LicenseStatus := mkStatus licensed true.


(** The default settings with a base depth of 0.05. *)
Definition shallowParams : Outline.Params :=
  Outline.mkParams "Name" 13 10 (5 # 100) 2 true 8 4 0 0.


Definition with_text (p : Outline.Params) (t : string) : Outline.Params :=
  Outline.mkParams t (Outline.textSize p) (Outline.outlineOffsetPx p)
    (Outline.baseDepth p) (Outline.textDepth p) (Outline.keyringEnabled p)
    (Outline.keyringOuterSize p) (Outline.keyringHoleSize p)
    (Outline.keyringOffsetX p) (Outline.keyringOffsetY p).

(** The default settings of the initial designer. *)
Definition initialDefaults : Initial.Params :=
  Initial.mkParams "Name" 13 10 1 1 10 39 "Milkyway_Regular" true 4 8 4 0 0.

Definition initial_with_text (p : Initial.Params) (t : string)
  : Initial.Params :=
  Initial.mkParams t (Initial.textSize p) (Initial.outlineOffsetPx p)
    (Initial.baseDepth p) (Initial.textDepth p) (Initial.initialDepth p)
    (Initial.initialTextSize p) (Initial.initialFontKey p)
    (Initial.keyringEnabled p) (Initial.keyringDepth p)
    (Initial.keyringOuterSize p) (Initial.keyringHoleSize p)
    (Initial.keyringOffsetX p) (Initial.keyringOffsetY p).

(** A state of the initial designer with a user, a scene and a group
    that was built from [p]. *)
Definition initialState (p : Initial.Params) (children : list Mesh)
  : Initial.State :=
  Initial.mkState (Some sampleUser) true (Some sampleFont) (Some children)
    p Utils.emptyLoader.


(** A run of [getFont] calls, one per key of the list. *)
Fixpoint requestFonts (keys : list string) (st : Utils.Loader)
  : Utils.Loader :=
  match keys with
  | [] => st
  | k :: rest => requestFonts rest (snd (Utils.getFont k st))
  end.

(** The children the initial designer builds for its default settings
    with the sample libraries. *)
Definition nameGroup : list Mesh :=
  @Initial.composite sampleCollaborators sampleFont sampleFont
    initialDefaults.

Definition sampleShape : Shape :=
  mkShape [mkVector2 0 0; mkVector2 1 0; mkVector2 0 1] [].

(** ** Further notions used by the theorems *)

(** All points of a node and of the nodes below it, holes included, in
    the order [collect] of [getTreeBbox] visits them. *)
Fixpoint nodePoints (n : PolyNode) : list IntPoint :=
  match n with
  | Node _ contour childs => contour ++ flat_map nodePoints childs
  end.

Definition treePoints (tree : PolyTree) : list IntPoint :=
  flat_map nodePoints tree.

(** The step of the loop [for (const p of contour)] in [collect]. *)
Definition widen (b : BBox) (p : IntPoint) : BBox :=
  let px := JS.Fin (inject_Z (X p)) in
  let py := JS.Fin (inject_Z (Y p)) in
  mkBBox (JS.num_min (minX b) px) (JS.num_max (maxX b) px)
         (JS.num_min (minY b) py) (JS.num_max (maxY b) py).

(** The box before any point is seen. *)
Definition emptyBox : BBox := mkBBox JS.PosInf JS.NegInf JS.PosInf JS.NegInf.

(** A box with finite sides that holds the point. *)
Definition encloses (b : BBox) (p : IntPoint) : Prop :=
  exists x0 x1 y0 y1,
    b = mkBBox (JS.Fin x0) (JS.Fin x1) (JS.Fin y0) (JS.Fin y1) /\
    x0 <= inject_Z (X p) /\ inject_Z (X p) <= x1 /\
    y0 <= inject_Z (Y p) /\ inject_Z (Y p) <= y1.

(** The shape of one reconstructed boundary set after another winding
    step has been applied to it. *)
Definition rewind (windOuter windHole : list Vector2 -> list Vector2)
  (s : Shape) : Shape :=
  mkShape (windOuter (points s)) (map windHole (holes s)).

(** A glyph with one hole, and a font shape too small to be a polygon. *)
Definition ringGlyph : FontShape :=
  mkFontShape
    [mkVector2 0 0; mkVector2 10 0; mkVector2 10 10; mkVector2 0 10]
    [[mkVector2 2 2; mkVector2 2 8; mkVector2 8 8]].

Section ReconstructSoundness.

Variable windOuter : list Vector2 -> list Vector2.
Variable windHole : list Vector2 -> list Vector2.

(** An entry that, when it is a shape, is the region of a polygonal node
    of the list. *)
Definition from_nodes (nodes : list PolyNode) (o : option Shape) : Prop :=
  forall s, o = Some s ->
    exists m, In m nodes /\ polygonal m /\ s = regionOf windOuter windHole m.

(** What [buildFromOuter] adds to [shapesOut], on any node. *)
Definition region_sound (n : PolyNode) : Prop :=
  forall out,
    exists extra,
      snd (buildFromOuter windOuter windHole n out) = out ++ extra /\
      Forall (from_nodes (islandsBelow n)) extra /\
      from_nodes [n] (fst (buildFromOuter windOuter windHole n out)).

(** [buildFromOuter] with a winding step is [buildFromOuter] without
    one, followed by the winding of every boundary. *)
Definition rewinds (n : PolyNode) : Prop :=
  forall out,
    buildFromOuter windOuter windHole n
      (map (option_map (rewind windOuter windHole)) out)
    = (option_map (rewind windOuter windHole)
         (fst (buildFromOuter Initial.windOuter Initial.windHole n out)),
       map (option_map (rewind windOuter windHole))
         (snd (buildFromOuter Initial.windOuter Initial.windHole n out))).

End ReconstructSoundness.

(** A box with integer sides. *)
Definition boxOf (x0 x1 y0 y1 : Z) : BBox :=
  mkBBox (JS.Fin (inject_Z x0)) (JS.Fin (inject_Z x1))
         (JS.Fin (inject_Z y0)) (JS.Fin (inject_Z y1)).

(** The box [b] is the smallest box around the points [seen]. *)
Definition smallest_box (b : BBox) (seen : list IntPoint) : Prop :=
  exists x0 x1 y0 y1,
    b = boxOf x0 x1 y0 y1 /\
    (forall p, In p seen ->
       (x0 <= X p <= x1)%Z /\ (y0 <= Y p <= y1)%Z) /\
    (exists p, In p seen /\ X p = x0) /\
    (exists p, In p seen /\ X p = x1) /\
    (exists p, In p seen /\ Y p = y0) /\
    (exists p, In p seen /\ Y p = y1).

(** What [getTreeBbox] holds after the points [seen]. *)
Definition box_after (b : BBox) (seen : list IntPoint) : Prop :=
  (seen = [] /\ b = emptyBox) \/ smallest_box b seen.

(** The children of every fill area of the list are holes, as in the
    trees the clipper returns. *)
Definition holes_below_roots (tree : PolyTree) : Prop :=
  Forall (fun n =>
    IsHole n = false -> Forall (fun ch => IsHole ch = true) (Childs n)) tree.

(** The contours [collectOuterPaths] keeps of a list of roots whose
    children are holes. *)
Definition rootContours (tree : PolyTree) : list Path :=
  map Contour
    (List.filter (fun n => negb (IsHole n) && (3 <=? length (Contour n))%nat)
       tree).

(** The default settings of the outline designer without outline and
    without keyring, and those of the initial designer with a negative
    outline width. *)
Definition noOutlineParams : Outline.Params :=
  Outline.mkParams "Name" 13 0 3 2 false 8 4 0 0.

Definition insetParams : Initial.Params :=
  Initial.mkParams "Name" 13 (-5) 1 1 10 39 "Milkyway_Regular" true 4 8 4 0 0.

(** A tree whose only node has no point. *)
Definition pointless_tree : PolyTree := [Node false [] []].

(** The ring the initial designer builds for its default settings. *)
Definition nameRing : Mesh :=
  mkMesh ringMesh
    (Utils.makeKeyringGeometry
       (JS.Math_max 1 8)
       (JS.Math_max (1 # 10) (JS.Math_min 4 (8 - (1 # 2))))
       (JS.Math_max (1 # 10) 4))
    0.

(** The triangular island of [nested_tree]. *)
Definition nested_island : PolyNode :=
  Node false
    [ mkIntPoint 2000 2000; mkIntPoint 5000 2000; mkIntPoint 2000 5000 ] [].

(** A binary STL file without triangles: 80 bytes of header and the
    count, 84 bytes in all. *)
Definition emptySTL : Buffer := repeat Init.Byte.x00 84.

(** The sample libraries with a serializer that returns [emptySTL]. *)
Definition exportingCollaborators : Collaborators := {|
  generateShapes := @generateShapes sampleCollaborators;
  Clipper_Orientation := @Clipper_Orientation sampleCollaborators;
  Clipper_union := @Clipper_union sampleCollaborators;
  Clipper_difference := @Clipper_difference sampleCollaborators;
  ClipperOffset_Execute := @ClipperOffset_Execute sampleCollaborators;
  Math_PI := @Math_PI sampleCollaborators;
  Math_cos := @Math_cos sampleCollaborators;
  Math_sin := @Math_sin sampleCollaborators;
  worldGeometry := @worldGeometry sampleCollaborators;
  mergeGeometries := @mergeGeometries sampleCollaborators;
  mergeVertices := @mergeVertices sampleCollaborators;
  STLExporter_parse := fun _ => emptySTL
|}.

Definition trialStatus : LicenseStatus := mkStatus trial true.

(** States of the four designers with a signed-in user, a scene and an
    empty group. *)
Definition outlineState : Outline.State :=
  Outline.mkState (Some sampleUser) true (Some sampleFont) (Some [])
    shallowParams.

Definition flowerState : Flower.State :=
  Flower.mkState (Some sampleUser) true (Some []) (Some 1) (Some 1)
    (Flower.mkParams 2 1 "A" 1 12 "Titan One_Regular") Utils.emptyLoader.

Definition nameTagParams : NameTag.Params :=
  NameTag.mkParams 60 25 4 2 1 NameTag.topCenter "Name"
    "Titan One_Regular" 10 1.

Definition nameTagState : NameTag.State :=
  NameTag.mkState (Some sampleUser) true (Some []) nameTagParams
    Utils.emptyLoader None.


Definition samplePlanar (p : NameTag.Params)
  : option (Shape * option Shape) :=
  Some (sampleShape, None).


(** ** Licensing: trial, stored license and the status of a user *)

Module Licensing.

(** [const TRIAL_DURATION_DAYS = 7]. *)
Definition TRIAL_DURATION_DAYS : Z := 7.

(** The milliseconds of a day, [1000 * 60 * 60 * 24]. *)
Definition DAY : Z := 1000 * 60 * 60 * 24.

(** A [Date] by its time value in milliseconds; [None] is an invalid
    date, whose time value is [NaN]. *)
Definition Date := option Z.

(** [d < new Date()] for the time value [now] of the new date: a
    comparison with [NaN] is false. *)
Definition Date_before (d : Date) (now : Z) : bool :=
  match d with
  | Some t => (t <? now)%Z
  | None => false
  end.

(** A number of days: [None] is [NaN]. *)
Definition Days := option Z.

(** [days === 0] and [days > 0]. *)
Definition is_zero (d : Days) : bool :=
  match d with Some n => (n =? 0)%Z | None => false end.

Definition is_positive (d : Days) : bool :=
  match d with Some n => (0 <? n)%Z | None => false end.

Record LicenseData := mkLicenseData {
  id : string;
  license_key : string;
  is_active : bool;
  expires_at : option string;
  max_devices : Z
}.

(** A row of [user_trials], as far as it is read. *)
Record UserTrial := mkUserTrial { trial_expires_at : string }.

(** What an awaited query of the server gives: it throws, or it
    resolves to [{ data, error }], the error given by its code. *)
Inductive Reply (A : Type) : Type :=
| Threw
| Resolved (data : option A) (error : option string).

Arguments Threw {A}.
Arguments Resolved {A} data error.

(** The two items of [localStorage]. *)
Record Storage := mkStorage {
  licenseKeyItem : option string;
  licenseDataItem : option string
}.

(** Truthiness of a string that may be missing. *)
Definition truthy (s : option string) : bool :=
  match s with
  | Some (String _ _) => true
  | _ => false
  end.

(** The calls a license check makes, in order. *)
Inductive Call : Type :=
| call_initializeTrial
| call_restoreLicenseFromServer
| call_validateDeviceActivation
| call_clearLicense
| call_getTrialDaysRemaining.

(** The status a check returns, with the optional fields of the
    interface ([None] when the field is left out). *)
Record Report := mkReport {
  status : LicenseStatus;
  trialDaysRemaining : option Days;
  licenseKey : option string;
  expiresAt : option Date;
  maxDevices : option Z
}.

Section Checks.

(** [new Date(s)], [JSON.parse(s)] on a license ([None] when it throws
    or gives [null]) and [JSON.stringify]. *)
Variable Date_parse : string -> Date.
Variable JSON_parse : string -> option LicenseData.
Variable JSON_stringify : LicenseData -> string.

Definition getStoredLicenseKey (store : Storage) : option string :=
  licenseKeyItem store.

Definition getStoredLicenseData (store : Storage) : option LicenseData :=
  match licenseDataItem store with
  | Some (String _ _ as data) => JSON_parse data
  | _ => None
  end.

Definition storeLicense (key : string) (licenseData : LicenseData)
  (store : Storage) : Storage :=
  mkStorage (Some key) (Some (JSON_stringify licenseData)).

Definition clearLicense (store : Storage) : Storage := mkStorage None None.

(** [if (license.expires_at) { ... if (expiresAt < new Date()) ... }]. *)
Definition expired_at (license : LicenseData) (now : Z) : bool :=
  match expires_at license with
  | Some (String _ _ as e) => Date_before (Date_parse e) now
  | _ => false
  end.

(** [initializeTrial(userId)] on the replies to its three queries: the
    active trial of the user, [can_user_start_trial] and the insert. *)
Definition initializeTrial (existingTrial : Reply UserTrial)
  (canStart : Reply bool) (newTrial : Reply UserTrial) : bool :=
  match existingTrial with
  | Threw => false
  | Resolved (Some _) _ => true
  | Resolved None _ =>
      match canStart with
      | Threw => false
      | Resolved (Some false) None => false
      | Resolved _ _ =>
          match newTrial with
          | Threw => false
          | Resolved _ (Some code) => String.eqb code "23505"
          | Resolved None None => false
          | Resolved (Some _) None => true
          end
      end
  end.

(** [getTrialDaysRemaining(userId)] on the reply to its query, at the
    time [now]. *)
Definition getTrialDaysRemaining (trial : Reply UserTrial) (now : Z) : Days :=
  match trial with
  | Threw => Some 0%Z
  | Resolved None _ => Some 0%Z
  | Resolved (Some row) _ =>
      match Date_parse (trial_expires_at row) with
      | None => None
      | Some expiresAt =>
          let diffTime := (expiresAt - now)%Z in
          let diffDays := Qceiling (inject_Z diffTime / inject_Z DAY) in
          Some (Z.max 0 diffDays)
      end
  end.

(** [isTrialExpired(userId)]. *)
Definition isTrialExpired (trial : Reply UserTrial) (now : Z) : bool :=
  is_zero (getTrialDaysRemaining trial now).

(** [restoreLicenseFromServer(userId)] on the replies to its two
    queries; [touch_throws] tells whether the update of
    [last_validated_at] throws. *)
Definition restoreLicenseFromServer (activation : Reply string)
  (license : Reply LicenseData) (touch_throws : bool) (now : Z)
  (store : Storage) : option LicenseData * Storage :=
  match activation with
  | Resolved (Some _) None =>
      match license with
      | Resolved (Some l) None =>
          if expired_at l now then (None, store)
          else
            let store1 := storeLicense (license_key l) l store in
            if touch_throws then (None, store1) else (Some l, store1)
      | _ => (None, store)
      end
  | _ => (None, store)
  end.

(** [validateDeviceActivation(userId)] on the replies to its two
    queries; [write_throws] tells whether the update or insert of the
    activation throws. *)
Definition validateDeviceActivation (store : Storage)
  (license : Reply LicenseData) (activation : Reply string)
  (write_throws : bool) (now : Z) : bool :=
  if negb (truthy (getStoredLicenseKey store)) then false
  else
    match license with
    | Resolved (Some l) None =>
        if expired_at l now then false
        else
          match activation with
          | Threw => false
          | Resolved _ (Some code) =>
              if negb (String.eqb code "PGRST116") then false
              else negb write_throws
          | Resolved _ None => negb write_throws
          end
    | _ => false
    end.

(** What the server answers during one license check. *)
Record World := mkWorld {
  existingTrial : Reply UserTrial;
  canStart : Reply bool;
  newTrial : Reply UserTrial;
  restore_activation : Reply string;
  restore_license : Reply LicenseData;
  restore_touch_throws : bool;
  restore_now : Z;
  validate_license : Reply LicenseData;
  validate_activation : Reply string;
  validate_write_throws : bool;
  validate_now : Z;
  check_now : Z;
  (** the reply to the n-th read of the trial, and its time *)
  trial_reply : nat -> Reply UserTrial;
  trial_now : nat -> Z
}.

(** The loop [for (let attempt = 0; attempt < 3; attempt++)]: [reads]
    counts the reads of the trial made so far. *)
Fixpoint retry (w : World) (attempts : nat) (reads : nat)
  (trialDaysRemaining : Days) : Days * nat :=
  match attempts with
  | O => (trialDaysRemaining, reads)
  | S rest =>
      let days := getTrialDaysRemaining (trial_reply w reads) (trial_now w reads) in
      if is_positive days then (days, S reads)
      else retry w rest (S reads) days
  end.

(** The end of [checkLicenseStatus]: the status by the trial. *)
Definition trialStatus (w : World) (trialInitialized : bool)
  : Report * list Call :=
  let first := getTrialDaysRemaining (trial_reply w 0) (trial_now w 0) in
  let '(days, reads) :=
    if is_zero first && trialInitialized then retry w 3 1 first
    else (first, 1%nat) in
  (if is_zero days
   then mkReport (mkStatus expired false) (Some (Some 0%Z)) None None None
   else mkReport (mkStatus trial true) (Some days) None None None,
   repeat call_getTrialDaysRemaining reads).

(** The first part of [checkLicenseStatus] for a signed-in user: the
    license found in the storage or, failing that, restored from the
    server, with the calls made so far and the storage left. *)
Definition licenseAtHand (w : World) (store : Storage)
  : option string * option LicenseData * list Call * Storage :=
  let licenseKey := getStoredLicenseKey store in
  let licenseData := getStoredLicenseData store in
  if negb (truthy licenseKey) || negb (bool_decide (is_Some licenseData)) then
    match restoreLicenseFromServer (restore_activation w)
            (restore_license w) (restore_touch_throws w)
            (restore_now w) store with
    | (Some restored, store1) =>
        (Some (license_key restored), Some restored,
         [call_initializeTrial; call_restoreLicenseFromServer], store1)
    | (None, store1) =>
        (licenseKey, licenseData,
         [call_initializeTrial; call_restoreLicenseFromServer], store1)
    end
  else (licenseKey, licenseData, [call_initializeTrial], store).

(** [checkLicenseStatus(user)]: the status, the calls it made and the
    storage it leaves. *)
Definition checkLicenseStatus (user : option User) (w : World)
  (store : Storage) : Report * list Call * Storage :=
  match user with
  | None =>
      (mkReport (mkStatus expired false) None None None None, [], store)
  | Some _ =>
      let trialInitialized :=
        initializeTrial (existingTrial w) (canStart w) (newTrial w) in
      let '(licenseKey, licenseData, calls1, store1) :=
        licenseAtHand w store in
      match truthy licenseKey, licenseData with
      | true, Some licenseData =>
          if validateDeviceActivation store1 (validate_license w)
               (validate_activation w) (validate_write_throws w)
               (validate_now w)
          then
            let expiresAt :=
              match expires_at licenseData with
              | Some (String _ _ as e) => Some (Date_parse e)
              | _ => None
              end in
            let isExpired :=
              match expiresAt with
              | Some d => Date_before d (check_now w)
              | None => false
              end in
            (if isExpired
             then mkReport (mkStatus expired false) None licenseKey
                    expiresAt None
             else mkReport (mkStatus licensed true) None licenseKey
                    expiresAt (Some (max_devices licenseData)),
             calls1 ++ [call_validateDeviceActivation], store1)
          else
            let '(report, reads) := trialStatus w trialInitialized in
            (report,
             calls1 ++ [call_validateDeviceActivation; call_clearLicense]
             ++ reads,
             clearLicense store1)
      | _, _ =>
          let '(report, reads) := trialStatus w trialInitialized in
          (report, calls1 ++ reads, store1)
      end
  end.



End Checks.

End Licensing.

(** Sample inputs of the license check: a clock that reads one ISO
    date, a license, and a server that knows a trial. *)
Definition sampleDate_parse (s : string) : Licensing.Date :=
  if String.eqb s "2030-01-08T00:00:00.000Z" then Some 1894060800000%Z
  else None.

Definition sampleLicense : Licensing.LicenseData :=
  Licensing.mkLicenseData "lic-1" "KEY-1" true None 3.

Definition sampleJSON_stringify (d : Licensing.LicenseData) : string :=
  Licensing.license_key d.

Definition sampleJSON_parse (s : string) : option Licensing.LicenseData :=
  if String.eqb s "KEY-1" then Some sampleLicense else None.

Definition emptyStorage : Licensing.Storage := Licensing.mkStorage None None.

Definition licensedStorage : Licensing.Storage :=
  Licensing.mkStorage (Some "KEY-1"%string) (Some "KEY-1"%string).

(** The first of January 2030, in milliseconds. *)
Definition newYear2030 : Z := 1893456000000.

Definition sampleTrial : Licensing.UserTrial :=
  Licensing.mkUserTrial "2030-01-08T00:00:00.000Z".

(** A trial whose expiry date cannot be read. *)
Definition unreadableTrial : Licensing.UserTrial :=
  Licensing.mkUserTrial "soon".

(** A server without license for the user, that answers every read of
    the trial with [trial]; [valid] is whether it accepts a stored
    license. *)
Definition sampleWorld (trial : option Licensing.UserTrial) (valid : bool)
  : Licensing.World :=
  Licensing.mkWorld
    (Licensing.Resolved trial None) (Licensing.Resolved (Some true) None)
    (Licensing.Resolved (Some sampleTrial) None)
    (Licensing.Resolved None None) (Licensing.Resolved None None) false
    newYear2030
    (if valid then Licensing.Resolved (Some sampleLicense) None
     else Licensing.Resolved None (Some "PGRST116"%string))
    (Licensing.Resolved (Some "act-1"%string) None) false newYear2030
    newYear2030
    (fun _ => Licensing.Resolved trial None) (fun _ => newYear2030).

(** A server that has an activation and a license to restore. *)
Definition restoringWorld : Licensing.World :=
  Licensing.mkWorld
    (Licensing.Resolved None None) (Licensing.Resolved (Some true) None)
    (Licensing.Resolved (Some sampleTrial) None)
    (Licensing.Resolved (Some "lic-1"%string) None)
    (Licensing.Resolved (Some sampleLicense) None) false
    newYear2030
    (Licensing.Resolved (Some sampleLicense) None)
    (Licensing.Resolved (Some "act-1"%string) None) false newYear2030
    newYear2030
    (fun _ => Licensing.Resolved None None) (fun _ => newYear2030).

(** ** [lib/utils]: the rounded rectangle *)

Section RoundedRectangle.

Context {C : Collaborators}.

(** [arcPoints(cx, cy, startAngle, endAngle)] for the radius [r] and the
    number of segments of the enclosing call. *)
Definition arcPoints (r : Q) (segments : nat) (cx cy startAngle endAngle : Q)
  : list Vector2 :=
  map (fun i =>
    let t := inject_Z (Z.of_nat i) / inject_Z (Z.of_nat segments) in
    let angle := startAngle + t * (endAngle - startAngle) in
    mkVector2 (cx + r * Math_cos angle) (cy + r * Math_sin angle))
    (seq 1 segments).

(** [Math.max(2, Math.min(16, Math.ceil((r * Math.PI) / 2)))]. *)
Definition roundedRectSegments (r : Q) : nat :=
  Z.to_nat (Z.max 2 (Z.min 16 (Qceiling ((r * Math_PI) / 2)))).

(** [Math.max(0, Math.min(cornerRadius, w, h))]. *)
Definition roundedRectRadius (cornerRadius w h : Q) : Q :=
  JS.Math_max 0 (JS.Math_min (JS.Math_min cornerRadius w) h).

(** [createRoundedRectShape(halfW, halfH, cornerRadius)]: the points of
    the [moveTo] and of the [lineTo]s, in order. *)
Definition createRoundedRectShape (halfW halfH cornerRadius : Q)
  : list Vector2 :=
  let w := JS.Math_max (1 # 100) halfW in
  let h := JS.Math_max (1 # 100) halfH in
  let r := roundedRectRadius cornerRadius w h in
  let segments := roundedRectSegments r in
  let arc cx cy startAngle endAngle :=
    if Qlt_le_dec 0 r then arcPoints r segments cx cy startAngle endAngle
    else [] in
  [mkVector2 (- w) (h - r)]
  ++ arc (- w + r) (h - r) Math_PI (Math_PI / 2)
  ++ [mkVector2 (w - r) h]
  ++ arc (w - r) (h - r) (Math_PI / 2) 0
  ++ [mkVector2 w (- h + r)]
  ++ arc (w - r) (- h + r) 0 (- Math_PI / 2)
  ++ [mkVector2 (- w + r) (- h)]
  ++ arc (- w + r) (- h + r) (- Math_PI / 2) (- Math_PI)
  ++ [mkVector2 (- w) (h - r)].

End RoundedRectangle.

(** ** The name tag designer: the planar stage of [rebuildMeshes] *)

Module NameTagPlanar.

Section Stage.

Context {C : Collaborators}.

(** [shape.getPoints(divisions)] of a shape drawn through the given
    points by [moveTo] and [lineTo]. *)
Variable Shape_getPoints : list Vector2 -> list Vector2.

Definition halfW (p : NameTag.Params) : Q :=
  JS.Math_max 1 (NameTag.baseWidth p / 2).

Definition halfH (p : NameTag.Params) : Q :=
  JS.Math_max 1 (NameTag.baseHeight p / 2).

Definition discCenterX (p : NameTag.Params) : Q :=
  match NameTag.keyringPosition p with
  | NameTag.topLeft | NameTag.leftCenter => - halfW p
  | NameTag.topRight | NameTag.rightCenter => halfW p
  | NameTag.topCenter => 0
  end.

Definition discCenterY (p : NameTag.Params) : Q :=
  match NameTag.keyringPosition p with
  | NameTag.topCenter | NameTag.topLeft | NameTag.topRight => halfH p
  | NameTag.leftCenter | NameTag.rightCenter => 0
  end.

Definition discRadius : Q := 4.
Definition holeRadius : Q := 2.
Definition circleDivisions : nat := 64.
Definition borderWidth : Q := 2.

(** [shapeToPath(shape, clockwise)]. *)
Definition shapeToPath (shape : list Vector2) (clockwise : bool)
  : option Path :=
  let path := toPath (Shape_getPoints shape) in
  if (length path <? 3)%nat then None else Some (ensureCW path clockwise).

(** The circle of the disc or of its hole. *)
Definition discPath (p : NameTag.Params) (r : Q) (clockwise : bool)
  : option EPath :=
  circleToPath (JS.Fin (discCenterX p)) (JS.Fin (discCenterY p)) r
    clockwise circleDivisions.

(** A path that is added to a clipper only when it is not [null]. *)
Definition added {A : Type} (path : option A) : list A :=
  match path with
  | Some x => [x]
  | None => []
  end.

(** [collectPaths] and [collectAllContours]: the contours of three
    points or more of a node and of every node below it. *)
Fixpoint collectPaths (node : PolyNode) (out : list Path) {struct node}
  : list Path :=
  match node with
  | Node _ contour childs =>
      fold_left (fun o ch => collectPaths ch o) childs
        (if (3 <=? length contour)%nat then out ++ [contour] else out)
  end.

(** [roots.forEach((n) => { if (isHole(n)) return; collectPaths(n); })]. *)
Definition pathsBelowRoots (tree : PolyTree) : list Path :=
  fold_left (fun o n => if IsHole n then o else collectPaths n o) tree [].

(** The loops that keep the contour of every root that is no hole and
    has three points or more. *)
Definition rootPaths (tree : PolyTree) : list Path :=
  map Contour
    (List.filter (fun n => negb (IsHole n) && (3 <=? length (Contour n))%nat)
       tree).

(** The contours of three points or more of the children of a node. *)
Definition childContours (n : PolyNode) : list Path :=
  List.filter (fun c => (3 <=? length c)%nat) (map Contour (Childs n)).

(** The loop that makes [mergedShape]: the first root that is no hole
    and has three points or more, with its boundaries passed through
    [windOuter] and [windHole]. *)
Definition firstShape (windOuter windHole : list Vector2 -> list Vector2)
  (roots : PolyTree) : option Shape :=
  match List.find
          (fun n => negb (IsHole n) && (3 <=? length (Contour n))%nat)
          roots with
  | Some n =>
      Some (mkShape (windOuter (map toVec2 (Contour n)))
              (map (fun c => windHole (map toVec2 c)) (childContours n)))
  | None => None
  end.

(** [resultTree]: rectangle and disc united, the hole of the disc cut
    out. *)
Definition resultTreeOf (p : NameTag.Params) (rectPath : Path) : PolyTree :=
  let unionTree :=
    Clipper_union (embedPath rectPath :: added (discPath p discRadius true)) in
  let subjectPaths := pathsBelowRoots unionTree in
  Clipper_difference (map embedPath subjectPaths)
    (added (discPath p holeRadius false)).

(** [topResultTree]: the border of the rectangle united with the disc,
    the inner rectangle outside the disc and the hole of the disc cut
    out. *)
Definition topResultTreeOf (p : NameTag.Params) : PolyTree :=
  let innerHalfW := JS.Math_max (1 # 2) (halfW p - borderWidth) in
  let innerHalfH := JS.Math_max (1 # 2) (halfH p - borderWidth) in
  let innerCornerR := JS.Math_max 0 (NameTag.cornerRadius p - borderWidth) in
  let outerRectPath :=
    shapeToPath
      (createRoundedRectShape (halfW p) (halfH p) (NameTag.cornerRadius p))
      true in
  let topCirclePath := discPath p discRadius true in
  let innerRectPath :=
    shapeToPath (createRoundedRectShape innerHalfW innerHalfH innerCornerR)
      false in
  let borderTree :=
    Clipper_difference (map embedPath (added outerRectPath))
      (map embedPath (added innerRectPath)) in
  let borderOuterPaths := rootPaths borderTree in
  let topUnionTree :=
    Clipper_union (map embedPath borderOuterPaths ++ added topCirclePath) in
  let rectHoleOnlyTree :=
    Clipper_difference (map embedPath (added innerRectPath))
      (added topCirclePath) in
  let rectHoleOnlyPaths := pathsBelowRoots rectHoleOnlyTree in
  let discHolePath := discPath p holeRadius false in
  let mergedOuterPaths := rootPaths topUnionTree in
  Clipper_difference (map embedPath mergedOuterPaths)
    (map embedPath rectHoleOnlyPaths ++ added discHolePath).

(** The planar stage: [None] when [rebuildMeshes] returns before it
    makes a mesh, otherwise [mergedShape] and [topMergedShape]. *)
Definition planar (p : NameTag.Params) : option (Shape * option Shape) :=
  match shapeToPath
          (createRoundedRectShape (halfW p) (halfH p) (NameTag.cornerRadius p))
          true with
  | None => None
  | Some rectPath =>
      match firstShape (fun pts => pts) (fun pts => pts)
              (resultTreeOf p rectPath) with
      | None => None
      | Some mergedShape =>
          Some (mergedShape,
                firstShape Outline.windOuter Outline.windHole
                  (topResultTreeOf p))
      end
  end.

End Stage.

End NameTagPlanar.

(** A shape whose boundaries have three points or more each. *)
Definition polygonalShape (s : Shape) : Prop :=
  (3 <= length (points s))%nat /\
  Forall (fun h => (3 <= length h)%nat) (holes s).

(** Stand-ins for [getPoints]: the points as they are, and a shape that
    lost its points. *)
Definition samePoints (pts : list Vector2) : list Vector2 := pts.
Definition noPoints (pts : list Vector2) : list Vector2 := [].

(** ** [lib/utils]: the settings kept per font and per initial letter *)

Module Stored.

(** [FontSettings], as the outline designer writes and reads it;
    [keyringEnabled] may be missing. *)
Record FontSettings := mkFontSettings {
  textSize : Q;
  outlineOffsetPx : Q;
  baseDepth : Q;
  textDepth : Q;
  textColor : string;
  outlineColor : string;
  keyringEnabled : option bool
}.

Record CharSettings := mkCharSettings {
  keyringOffsetX : Q;
  keyringOffsetY : Q;
  keyringOuterSize : Q;
  keyringHoleSize : Q
}.

Definition DEFAULT_FONT_SETTINGS_OUTLINE : FontSettings :=
  mkFontSettings 13 10 3 2 "#ffffff" "#ec4899" (Some true).

Definition DEFAULT_CHAR_SETTINGS : CharSettings := mkCharSettings 0 0 8 4.

(** [Record<string, FontSettings>] and
    [Record<string, Record<string, CharSettings>>]; the keys in use are
    font keys and single letters. *)
Abbreviation FontTable := (gmap string FontSettings).
Abbreviation CharTable := (gmap string (gmap string CharSettings)).

(** [loadFontSettingsFromStorage] and [loadCharSettingsFromStorage] on
    an item of [localStorage], the item given by the object
    [JSON.parse] reads from it ([None]: no item, or none that parses to
    an object). *)
Definition loadFontSettingsFromStorage (item : option FontTable) : FontTable :=
  default ∅ item.

Definition loadCharSettingsFromStorage (item : option CharTable) : CharTable :=
  default ∅ item.

End Stored.

(** ** The outline designer: settings that follow the font and the
    first letter *)

Module OutlineForm.

(** The component state the persistence code works on. [design] holds
    the user, the scene and the fields the build reads; the two items
    of [localStorage] are given by the tables last written to them;
    [storageFull] tells whether [localStorage.setItem] throws;
    [timers] counts the pending [setTimeout] callbacks. *)
Record State := mkState {
  design : Outline.State;
  textColor : string;
  outlineColor : string;
  fontKey : string;
  licenseStatus : option LicenseStatus;
  loader : Utils.Loader;
  allFontSettings : Stored.FontTable;
  allCharSettings : Stored.CharTable;
  isUpdatingFromStorage : bool;
  lastFont : string;
  lastChar : string;
  storedSettings : option Stored.FontTable;
  storedKeyring : option Stored.CharTable;
  storageFull : bool;
  timers : nat
}.

Definition params (st : State) : Outline.Params := Outline.params (design st).

Definition with_design (st : State) (d : Outline.State) : State :=
  mkState d (textColor st) (outlineColor st) (fontKey st) (licenseStatus st)
    (loader st) (allFontSettings st) (allCharSettings st)
    (isUpdatingFromStorage st) (lastFont st) (lastChar st)
    (storedSettings st) (storedKeyring st) (storageFull st) (timers st).

Definition with_params (st : State) (p : Outline.Params) : State :=
  with_design st
    (Outline.mkState (Outline.user (design st)) (Outline.scene (design st))
       (Outline.font (design st)) (Outline.group (design st)) p).

Definition with_fontKey (st : State) (k : string) : State :=
  mkState (design st) (textColor st) (outlineColor st) k (licenseStatus st)
    (loader st) (allFontSettings st) (allCharSettings st)
    (isUpdatingFromStorage st) (lastFont st) (lastChar st)
    (storedSettings st) (storedKeyring st) (storageFull st) (timers st).

Definition with_updating (st : State) (b : bool) : State :=
  mkState (design st) (textColor st) (outlineColor st) (fontKey st)
    (licenseStatus st) (loader st) (allFontSettings st) (allCharSettings st)
    b (lastFont st) (lastChar st)
    (storedSettings st) (storedKeyring st) (storageFull st) (timers st).

Definition with_lastFont (st : State) (f : string) : State :=
  mkState (design st) (textColor st) (outlineColor st) (fontKey st)
    (licenseStatus st) (loader st) (allFontSettings st) (allCharSettings st)
    (isUpdatingFromStorage st) f (lastChar st)
    (storedSettings st) (storedKeyring st) (storageFull st) (timers st).

Definition with_lastChar (st : State) (c : string) : State :=
  mkState (design st) (textColor st) (outlineColor st) (fontKey st)
    (licenseStatus st) (loader st) (allFontSettings st) (allCharSettings st)
    (isUpdatingFromStorage st) (lastFont st) c
    (storedSettings st) (storedKeyring st) (storageFull st) (timers st).

(** [setTimeout(() => { isUpdatingFromStorage = false; }, 0)] and the
    callback when it runs. *)
Definition setTimeout (st : State) : State :=
  mkState (design st) (textColor st) (outlineColor st) (fontKey st)
    (licenseStatus st) (loader st) (allFontSettings st) (allCharSettings st)
    (isUpdatingFromStorage st) (lastFont st) (lastChar st)
    (storedSettings st) (storedKeyring st) (storageFull st) (S (timers st)).

Definition timeout_fires (st : State) : State :=
  match timers st with
  | O => st
  | S n =>
      mkState (design st) (textColor st) (outlineColor st) (fontKey st)
        (licenseStatus st) (loader st) (allFontSettings st)
        (allCharSettings st) false (lastFont st) (lastChar st)
        (storedSettings st) (storedKeyring st) (storageFull st) n
  end.

(** [getCurrentChar()]. *)
Definition getCurrentChar (st : State) : string :=
  match Outline.text (params st) with
  | EmptyString => EmptyString
  | String _ _ as text => JS.toUpperCase (JS.charAt0 text)
  end.

(** The font settings the form shows. *)
Definition shown (st : State) : Stored.FontSettings :=
  let p := params st in
  Stored.mkFontSettings (Outline.textSize p) (Outline.outlineOffsetPx p)
    (Outline.baseDepth p) (Outline.textDepth p) (textColor st)
    (outlineColor st) (Some (Outline.keyringEnabled p)).

(** The keyring settings the form shows. *)
Definition shownKeyring (st : State) : Stored.CharSettings :=
  let p := params st in
  Stored.mkCharSettings (Outline.keyringOffsetX p) (Outline.keyringOffsetY p)
    (Outline.keyringOuterSize p) (Outline.keyringHoleSize p).

(** The assignments of [loadSettingsForFont] to the fields of the form. *)
Definition show (settings : Stored.FontSettings) (st : State) : State :=
  let p := params st in
  let st1 :=
    with_params st
      (Outline.mkParams (Outline.text p) (Stored.textSize settings)
         (Stored.outlineOffsetPx settings) (Stored.baseDepth settings)
         (Stored.textDepth settings)
         (match Stored.keyringEnabled settings with
          | Some b => b
          | None => Outline.keyringEnabled p
          end)
         (Outline.keyringOuterSize p) (Outline.keyringHoleSize p)
         (Outline.keyringOffsetX p) (Outline.keyringOffsetY p)) in
  mkState (design st1) (Stored.textColor settings)
    (Stored.outlineColor settings) (fontKey st1) (licenseStatus st1)
    (loader st1) (allFontSettings st1) (allCharSettings st1)
    (isUpdatingFromStorage st1) (lastFont st1) (lastChar st1)
    (storedSettings st1) (storedKeyring st1) (storageFull st1) (timers st1).

(** The assignments of [loadKeyringForChar]. *)
Definition showKeyring (cs : Stored.CharSettings) (st : State) : State :=
  let p := params st in
  with_params st
    (Outline.mkParams (Outline.text p) (Outline.textSize p)
       (Outline.outlineOffsetPx p) (Outline.baseDepth p)
       (Outline.textDepth p) (Outline.keyringEnabled p)
       (Stored.keyringOuterSize cs) (Stored.keyringHoleSize cs)
       (Stored.keyringOffsetX cs) (Stored.keyringOffsetY cs)).

Definition with_fontTable (st : State) (t : Stored.FontTable)
  (item : option Stored.FontTable) : State :=
  mkState (design st) (textColor st) (outlineColor st) (fontKey st)
    (licenseStatus st) (loader st) t (allCharSettings st)
    (isUpdatingFromStorage st) (lastFont st) (lastChar st)
    item (storedKeyring st) (storageFull st) (timers st).

Definition with_charTable (st : State) (t : Stored.CharTable)
  (item : option Stored.CharTable) : State :=
  mkState (design st) (textColor st) (outlineColor st) (fontKey st)
    (licenseStatus st) (loader st) (allFontSettings st) t
    (isUpdatingFromStorage st) (lastFont st) (lastChar st)
    (storedSettings st) item (storageFull st) (timers st).

(** [loadSettingsForFont(fontName)]. *)
Definition loadSettingsForFont (fontName : string) (st : State) : State :=
  let settings :=
    default Stored.DEFAULT_FONT_SETTINGS_OUTLINE
      (allFontSettings st !! fontName) in
  let st1 := show settings st in
  match allFontSettings st1 !! fontName with
  | Some _ => st1
  | None =>
      with_fontTable st1
        (<[fontName := Stored.DEFAULT_FONT_SETTINGS_OUTLINE]>
           (allFontSettings st1))
        (storedSettings st1)
  end.

(** [saveSettingsForFont(fontName)]: the table is changed, then written
    to [localStorage] unless [setItem] throws. *)
Definition saveSettingsForFont (fontName : string) (st : State) : State :=
  match isUpdatingFromStorage st, fontName with
  | false, String _ _ =>
      let table := <[fontName := shown st]> (allFontSettings st) in
      with_fontTable st table
        (if storageFull st then storedSettings st else Some table)
  | _, _ => st
  end.

(** [loadKeyringForChar(fontName, char)]. *)
Definition loadKeyringForChar (fontName char : string) (st : State) : State :=
  match char, fontName with
  | String _ _, String _ _ =>
      let cs :=
        default Stored.DEFAULT_CHAR_SETTINGS
          (allCharSettings st !! fontName ≫= (fun t => t !! char)) in
      showKeyring cs st
  | _, _ => st
  end.

(** [saveKeyringForChar(fontName, char)]. *)
Definition saveKeyringForChar (fontName char : string) (st : State) : State :=
  match isUpdatingFromStorage st, char, fontName with
  | false, String _ _, String _ _ =>
      let ofFont := default ∅ (allCharSettings st !! fontName) in
      let table :=
        <[fontName := <[char := shownKeyring st]> ofFont]>
          (allCharSettings st) in
      with_charTable st table
        (if storageFull st then storedKeyring st else Some table)
  | _, _, _ => st
  end.

(** [FONT_OPTIONS[0]?.key]. *)
Definition firstFontKey : option string :=
  option_map Utils.key (head Utils.FONT_OPTIONS).

(** [user && licenseStatus?.type === "trial"]. *)
Definition trial_user (st : State) : bool :=
  match Outline.user (design st), licenseStatus st with
  | Some _, Some status => is_trial status
  | _, _ => false
  end.

Section Effects.

Context {C : Collaborators}.

(** [if (scene) { font = getFont(fontKey); rebuildMeshes(); }]; were
    [getFont] to throw, the effect would end there. *)
Definition refresh (st : State) : State :=
  if Outline.scene (design st) then
    let '(font, l) := Utils.getFont (fontKey st) (loader st) in
    let d := design st in
    let d1 :=
      match font with
      | Some f =>
          Outline.rebuildMeshes
            (Outline.mkState (Outline.user d) (Outline.scene d) (Some f)
               (Outline.group d) (Outline.params d))
      | None => d
      end in
    mkState d1 (textColor st) (outlineColor st)
      (fontKey st) (licenseStatus st) l (allFontSettings st)
      (allCharSettings st) (isUpdatingFromStorage st) (lastFont st)
      (lastChar st) (storedSettings st) (storedKeyring st)
      (storageFull st) (timers st)
  else st.

(** The effect that follows the font: trial users are held on the
    first font; on a change of font the settings shown are saved for
    the font left and those of the font entered are loaded. *)
Definition fontEffect (st : State) : State :=
  let currentFont := fontKey st in
  let currentChar := getCurrentChar st in
  let locked :=
    if trial_user st then
      match firstFontKey with
      | Some (String _ _ as first) =>
          if negb (String.eqb currentFont first) then Some first else None
      | _ => None
      end
    else None in
  match locked with
  | Some first => with_fontKey st first
  | None =>
      if negb (String.eqb currentFont (lastFont st)) then
        let st1 :=
          match lastFont st, lastChar st with
          | String _ _, String _ _ =>
              let wasUpdating := isUpdatingFromStorage st in
              let s1 := with_updating st false in
              let s2 := saveSettingsForFont (lastFont st) s1 in
              let s3 := saveKeyringForChar (lastFont st) (lastChar st) s2 in
              with_updating s3 wasUpdating
          | _, _ => st
          end in
        let st2 := with_updating st1 true in
        let st3 := with_lastFont st2 currentFont in
        let st4 := loadSettingsForFont currentFont st3 in
        let st5 :=
          match currentChar with
          | String _ _ =>
              with_lastChar (loadKeyringForChar currentFont currentChar st4)
                currentChar
          | EmptyString => st4
          end in
        refresh (setTimeout st5)
      else st
  end.

(** The effect that follows the first letter of the text. *)
Definition charEffect (st : State) : State :=
  let currentChar := getCurrentChar st in
  let currentFont := fontKey st in
  match negb (String.eqb currentChar (lastChar st)), currentFont with
  | true, String _ _ =>
      let st1 :=
        match lastChar st with
        | String _ _ =>
            let wasUpdating := isUpdatingFromStorage st in
            let s1 := with_updating st false in
            let s2 := saveKeyringForChar currentFont (lastChar st) s1 in
            with_updating s2 wasUpdating
        | EmptyString => st
        end in
      let st2 := with_updating st1 true in
      let st3 := with_lastChar st2 currentChar in
      let st4 :=
        match currentChar with
        | String _ _ => loadKeyringForChar currentFont currentChar st3
        | EmptyString => st3
        end in
      setTimeout st4
  | _, _ => st
  end.

End Effects.

(** Choosing a font in the list. *)
Definition chooseFont (k : string) (st : State) : State := with_fontKey st k.

End OutlineForm.

(** Sample states of the form: the defaults on the first font, with the
    text "Name", after the first timer has fired. *)
Definition sampleForm : OutlineForm.State :=
  OutlineForm.mkState
    (Outline.mkState (Some sampleUser) true (Some sampleFont) (Some [])
       (Outline.mkParams "Name" 13 10 3 2 true 8 4 0 0))
    "#ffffff" "#ec4899" "Titan One_Regular" (Some licensedStatus)
    Utils.emptyLoader ∅ ∅ false "Titan One_Regular" "N" None None false 0.

(** The same form with other sizes and colours. *)
Definition editedForm : OutlineForm.State :=
  OutlineForm.mkState
    (Outline.mkState (Some sampleUser) true (Some sampleFont) (Some [])
       (Outline.mkParams "Name" 20 4 5 1 false 10 5 1 (-1)))
    "#000000" "#00ff00" "Titan One_Regular" (Some licensedStatus)
    Utils.emptyLoader ∅ ∅ false "Titan One_Regular" "N" None None false 0.

(** The form of a trial user who has chosen the second font. *)
Definition trialForm : OutlineForm.State :=
  OutlineForm.mkState
    (Outline.mkState (Some sampleUser) true (Some sampleFont) (Some [])
       (Outline.mkParams "Name" 13 10 3 2 true 8 4 0 0))
    "#ffffff" "#ec4899" "Showpop_Regular" (Some trialStatus)
    Utils.emptyLoader ∅ ∅ false "Titan One_Regular" "N" None None false 0.

(** The keyring settings a table holds for a font and a letter. *)
Definition keyringOf (t : Stored.CharTable) (fontName char : string)
  : option Stored.CharSettings :=
  t !! fontName ≫= (fun ofFont => ofFont !! char).

(** ** The name of the exported file *)

Module FileName.

(** [toLowerCase] on the ASCII letters; other characters are kept. *)
Definition lower_ascii (c : ascii) : ascii :=
  let n := nat_of_ascii c in
  if (65 <=? n)%nat && (n <=? 90)%nat then ascii_of_nat (n + 32) else c.

Fixpoint toLowerCase (s : string) : string :=
  match s with
  | EmptyString => EmptyString
  | String c r => String (lower_ascii c) (toLowerCase r)
  end.

(** The class [[a-z0-9]]. *)
Definition is_alnum (c : ascii) : bool :=
  let n := nat_of_ascii c in
  ((97 <=? n)%nat && (n <=? 122)%nat) || ((48 <=? n)%nat && (n <=? 57)%nat).

Definition dash : ascii := "-"%char.

Definition is_dash (c : ascii) : bool := (nat_of_ascii c =? 45)%nat.

(** [.replace(/[^a-z0-9]+/g, "-")]: every maximal run of other
    characters becomes one dash; [inRun] tells that the run has been
    replaced already. *)
Fixpoint dashRuns (inRun : bool) (s : string) : string :=
  match s with
  | EmptyString => EmptyString
  | String c r =>
      if is_alnum c then String c (dashRuns false r)
      else if inRun then dashRuns true r
      else String dash (dashRuns true r)
  end.

(** [.replace(/(^-|-$)/g, "")]: a dash at the start and a dash at the
    end are removed. *)
Definition dropFirstDash (s : string) : string :=
  match s with
  | String c r => if is_dash c then r else s
  | EmptyString => EmptyString
  end.

Fixpoint dropLastDash (s : string) : string :=
  match s with
  | EmptyString => EmptyString
  | String c EmptyString => if is_dash c then EmptyString else s
  | String c r => String c (dropLastDash r)
  end.

(** [const safe = (text || "model").trim().toLowerCase()
      .replace(/[^a-z0-9]+/g, "-").replace(/(^-|-$)/g, "")]. *)
Definition safe (text : string) : string :=
  dropLastDash
    (dropFirstDash
       (dashRuns false (toLowerCase (JS.trim (JS.or_else text "model"))))).

(** [new Date().toISOString().replace(/[:.]/g, "-")] for the ISO string
    of the date. *)
Fixpoint timestampOf (iso : string) : string :=
  match iso with
  | EmptyString => EmptyString
  | String c r =>
      let n := nat_of_ascii c in
      String (if (n =? 58)%nat || (n =? 46)%nat then dash else c)
        (timestampOf r)
  end.

(** The file names of the outline and of the initial designer. *)
Definition outlineFileName (text iso : string) : string :=
  JS.or_else (safe text) "model" ++ "-" ++ timestampOf iso ++ ".stl".

Definition initialFileName (text iso : string) : string :=
  JS.or_else (safe text) "model" ++ "-initial-" ++ timestampOf iso ++ ".stl".

(** All characters of a string satisfy a test. *)
Fixpoint all_chars (test : ascii -> bool) (s : string) : bool :=
  match s with
  | EmptyString => true
  | String c r => test c && all_chars test r
  end.

(** The first character of a string, if any, is no dash. *)
Definition no_dash_first (s : string) : bool :=
  match s with
  | String c _ => negb (is_dash c)
  | EmptyString => true
  end.

(** No two dashes in a row. *)
Fixpoint no_double_dash (s : string) : bool :=
  match s with
  | EmptyString => true
  | String c r => (negb (is_dash c) || no_dash_first r) && no_double_dash r
  end.

(** The last character of a string, if any, is no dash. *)
Fixpoint no_dash_last (s : string) : bool :=
  match s with
  | EmptyString => true
  | String c EmptyString => negb (is_dash c)
  | String _ r => no_dash_last r
  end.

(** A name made of lower-case letters and digits in groups, the groups
    joined by single dashes. *)
Definition slug (s : string) : bool :=
  all_chars (fun c => is_alnum c || is_dash c) s
  && no_dash_first s && no_dash_last s && no_double_dash s.

(** The characters on which the models of [trim] and [toLowerCase] are
    exact. *)
Definition ascii_only (s : string) : bool :=
  all_chars (fun c => (nat_of_ascii c <? 128)%nat) s.

End FileName.

(* ===================================================================== *)
(** * Part II. Theorems *)
(* ===================================================================== *)

(** ** Arithmetic of [Math.max], [Math.min] and [Math.round] *)

Lemma Math_max_spec (a b : Q) :
  (a < b /\ JS.Math_max a b = b) \/ (b <= a /\ JS.Math_max a b = a).
Proof. unfold JS.Math_max. destruct (Qlt_le_dec a b); auto. Qed.

Lemma Math_min_spec (a b : Q) :
  (b < a /\ JS.Math_min a b = b) \/ (a <= b /\ JS.Math_min a b = a).
Proof. unfold JS.Math_min. destruct (Qlt_le_dec b a); auto. Qed.

Lemma Math_max_lower (a b : Q) : a <= JS.Math_max a b /\ b <= JS.Math_max a b.
Proof. destruct (Math_max_spec a b) as [[H ->]|[H ->]]; lra. Qed.








(** ** Winding *)

Module ShapeUtilsFacts.

Import ShapeUtils.

Lemma cross_antisym p q : cross q p == - cross p q.
Proof. unfold cross. ring. Qed.

Lemma area_loop_chain l : forall p a, area_loop p l a == a + chain p l.
Proof.
  induction l as [|q r IH]; intros p a; simpl.
  - ring.
  - rewrite IH. ring.
Qed.

Lemma last_cons_default (r : list Vector2) : forall q p,
  List.last (q :: r) p = List.last r q.
Proof.
  induction r as [|y r IH]; intros q p; [reflexivity|].
  change (List.last (q :: y :: r) p) with (List.last (y :: r) p).
  rewrite (IH y p), (IH y q). reflexivity.
Qed.

Lemma chain_snoc l : forall p x,
  chain p (l ++ [x]) == chain p l + cross (List.last l p) x.
Proof.
  induction l as [|q r IH]; intros p x.
  - simpl. ring.
  - change (chain p ((q :: r) ++ [x])) with (cross p q + chain q (r ++ [x])).
    rewrite IH.
    rewrite last_cons_default. simpl. ring.
Qed.

Lemma pathsum_snoc l x :
  pathsum (l ++ [x]) ==
  pathsum l + match l with [] => 0 | _ => cross (List.last l origin) x end.
Proof.
  destruct l as [|y r].
  - simpl. ring.
  - change (pathsum ((y :: r) ++ [x])) with (chain y (r ++ [x])).
    rewrite chain_snoc, last_cons_default. simpl. ring.
Qed.

Lemma last_rev_hd (l : list Vector2) d : List.last (rev l) d = List.hd d l.
Proof.
  destruct l as [|x r]; [reflexivity|].
  simpl. apply List.last_last.
Qed.

Lemma hd_rev_last (l : list Vector2) d : List.hd d (rev l) = List.last l d.
Proof.
  rewrite <- (rev_involutive l) at 2. symmetry. apply last_rev_hd.
Qed.

Lemma pathsum_rev l : pathsum (rev l) == - pathsum l.
Proof.
  induction l as [|x r IH].
  - simpl. ring.
  - change (rev (x :: r)) with (rev r ++ [x]).
    rewrite pathsum_snoc, IH.
    destruct r as [|y r'].
    + simpl. ring.
    + assert (Hne : exists z t, rev (y :: r') = z :: t).
      { destruct (rev (y :: r')) as [|z t] eqn:E; [|eauto].
        apply (f_equal (@List.length _)) in E.
        rewrite length_rev in E. discriminate. }
      destruct Hne as (z & t & E). rewrite E, <- E.
      rewrite last_rev_hd. simpl.
      rewrite (cross_antisym x y). ring.
Qed.

Lemma area_loop_cyclic x r :
  area_loop (List.last (x :: r) origin) (x :: r) 0 ==
  cross (List.last (x :: r) origin) x + pathsum (x :: r).
Proof.
  rewrite area_loop_chain. generalize (List.last (x :: r) origin) as p.
  intros p. unfold pathsum.
  change (chain p (x :: r)) with (cross p x + chain x r). ring.
Qed.

(** Reversing a contour negates its signed area. *)
Lemma area_rev l : area (rev l) == - area l.
Proof.
  unfold area.
  destruct l as [|x r].
  - simpl. ring.
  - destruct (rev (x :: r)) as [|z t] eqn:E.
    + apply (f_equal (@List.length _)) in E.
      rewrite length_rev in E. discriminate.
    + rewrite area_loop_cyclic. rewrite <- E.
      rewrite area_loop_cyclic, pathsum_rev.
      rewrite last_rev_hd.
      assert (Hz : z = List.last (x :: r) origin).
      { rewrite <- (hd_rev_last (x :: r) origin), E. reflexivity. }
      rewrite Hz. simpl List.hd.
      rewrite (cross_antisym (List.last (x :: r) origin) x). ring.
Qed.

Lemma isClockWise_true pts : isClockWise pts = true <-> area pts < 0.
Proof.
  unfold isClockWise. destruct (Qlt_le_dec (area pts) 0); split; intros;
    try discriminate; auto. lra.
Qed.

Lemma isClockWise_false pts : isClockWise pts = false <-> 0 <= area pts.
Proof.
  unfold isClockWise. destruct (Qlt_le_dec (area pts) 0); split; intros;
    try discriminate; auto. lra.
Qed.

(** After the outline's check an outer boundary is never clockwise. *)
Lemma windOuter_ccw pts : isClockWise (Outline.windOuter pts) = false.
Proof.
  unfold Outline.windOuter.
  destruct (isClockWise pts) eqn:E.
  - apply isClockWise_true in E. apply isClockWise_false.
    rewrite area_rev. lra.
  - exact E.
Qed.

(** After the outline's check a hole has no positive area, and it is
    clockwise as soon as its area is not zero. *)
Lemma windHole_cw pts :
  area (Outline.windHole pts) <= 0 /\
  (~ area pts == 0 -> isClockWise (Outline.windHole pts) = true).
Proof.
  unfold Outline.windHole.
  destruct (isClockWise pts) eqn:E; simpl.
  - apply isClockWise_true in E. split; [lra|].
    intros _. apply isClockWise_true. exact E.
  - apply isClockWise_false in E. split.
    + rewrite area_rev. lra.
    + intros Hnz. apply isClockWise_true. rewrite area_rev. lra.
Qed.

End ShapeUtilsFacts.

(** ** Shape reconstruction *)

(** Induction over a node with the property known for all its children. *)
Lemma PolyNode_Forall_ind (P : PolyNode -> Prop)
  (Hnode : forall h c k, Forall P k -> P (Node h c k)) :
  forall n, P n.
Proof.
  fix IH 1. intros [h c k]. apply Hnode.
  induction k as [|n k IHk]; constructor; [apply IH|exact IHk].
Qed.

Lemma islandsBelow_eq n : islandsBelow n = childIslands (Childs n).
Proof. destruct n; reflexivity. Qed.

Section ReconstructFacts.

Variable windOuter : list Vector2 -> list Vector2.
Variable windHole : list Vector2 -> list Vector2.

Abbreviation build := (buildFromOuter windOuter windHole).
Abbreviation region := (fun n => Some (regionOf windOuter windHole n)).
Abbreviation builds_region := (builds_region windOuter windHole).

Lemma forHoleKids_regions (holeKids : list PolyNode) :
  Forall builds_region holeKids ->
  forall out,
    Forall polygonal (kidIslands holeKids) ->
    forHoleKids build holeKids out = out ++ map region (kidIslands holeKids).
Proof.
  induction 1 as [|hk rest Hhk _ IH]; intros out Hwf.
  - simpl. rewrite app_nil_r. reflexivity.
  - unfold kidIslands in *. simpl in *.
    destruct (IsHole hk); simpl.
    + apply IH. exact Hwf.
    + apply Forall_app in Hwf. destruct Hwf as [Hwf1 Hwf2].
      rewrite (Hhk out Hwf1).
      rewrite IH by exact Hwf2.
      rewrite !map_app. simpl. rewrite <- !app_assoc. reflexivity.
Qed.

Lemma childIslands_cons ch rest :
  childIslands (ch :: rest) =
  (if IsHole ch then kidIslands (Childs ch) else []) ++ childIslands rest.
Proof. reflexivity. Qed.

Lemma holesOf_cons ch rest :
  holesOf windHole (ch :: rest) =
  (if IsHole ch && (3 <=? length (Contour ch))%nat
   then [windHole (map toVec2 (Contour ch))] else [])
  ++ holesOf windHole rest.
Proof.
  unfold holesOf. cbn [List.filter].
  destruct (IsHole ch && (3 <=? length (Contour ch))%nat); reflexivity.
Qed.

Lemma forChildren_cons (b : Builder) ch rest hs out :
  forChildren windHole b (ch :: rest) hs out =
  if negb (IsHole ch) then forChildren windHole b rest hs out
  else forChildren windHole b rest
         (if (3 <=? length (Contour ch))%nat
          then hs ++ [windHole (map toVec2 (Contour ch))] else hs)
         (forHoleKids b (Childs ch) out).
Proof. reflexivity. Qed.

Lemma forChildren_regions (children : list PolyNode) :
  Forall (fun ch => Forall builds_region (Childs ch)) children ->
  forall hs out,
    Forall polygonal (childIslands children) ->
    forChildren windHole build children hs out =
    (hs ++ holesOf windHole children,
     out ++ map region (childIslands children)).
Proof.
  induction 1 as [|ch rest Hch _ IH]; intros hs out Hwf.
  - simpl. rewrite !app_nil_r. reflexivity.
  - rewrite childIslands_cons in *. rewrite holesOf_cons, forChildren_cons.
    apply Forall_app in Hwf. destruct Hwf as [Hwf1 Hwf2].
    destruct (IsHole ch); cbn [negb andb app].
    + rewrite (forHoleKids_regions _ Hch out Hwf1).
      rewrite IH by exact Hwf2.
      rewrite map_app, <- !app_assoc.
      destruct (3 <=? length (Contour ch))%nat; cbn [app];
        rewrite <- ?app_assoc; reflexivity.
    + apply IH. exact Hwf2.
Qed.

Lemma buildFromOuter_region_rec (n : PolyNode) :
  builds_region n /\ Forall builds_region (Childs n).
Proof.
  induction n as [h c k IH] using PolyNode_Forall_ind.
  assert (Hk : Forall builds_region k).
  { eapply Forall_impl; [exact IH|]. intros m [Hm _]. exact Hm. }
  split; [|exact Hk].
  intros out Hwf.
  apply Forall_app in Hwf. destruct Hwf as [Hbelow Hself].
  apply Forall_inv in Hself. unfold polygonal in Hself. simpl in Hself.
  simpl.
  destruct (length c <? 3)%nat eqn:E; [apply Nat.ltb_lt in E; lia|].
  rewrite (forChildren_regions k); simpl.
  - reflexivity.
  - eapply Forall_impl; [exact IH|]. intros m [_ Hm]. exact Hm.
  - exact Hbelow.
Qed.

Lemma buildFromOuter_region (n : PolyNode) : builds_region n.
Proof. apply buildFromOuter_region_rec. Qed.

Lemma forRoots_regions (roots : list PolyNode) :
  forall out,
    Forall polygonal (islands roots) ->
    forRoots windOuter windHole roots out = out ++ map region (islands roots).
Proof.
  induction roots as [|n rest IH]; intros out Hwf.
  - simpl. rewrite app_nil_r. reflexivity.
  - unfold islands in *. simpl in *.
    destruct (IsHole n); simpl.
    + apply IH. exact Hwf.
    + apply Forall_app in Hwf. destruct Hwf as [Hwf1 Hwf2].
      rewrite (buildFromOuter_region n out Hwf1).
      rewrite IH by exact Hwf2.
      rewrite !map_app. simpl. rewrite <- !app_assoc. reflexivity.
Qed.

Lemma polyTreeToThreeShapes_regions (tree : PolyTree) :
  Forall polygonal (islands tree) ->
  polyTreeToThreeShapes windOuter windHole tree = map region (islands tree).
Proof. intros H. unfold polyTreeToThreeShapes. apply forRoots_regions, H. Qed.

Variable okOuter : list Vector2 -> Prop.
Variable okHole : list Vector2 -> Prop.
Hypothesis windOuter_ok : forall pts, okOuter (windOuter pts).
Hypothesis windHole_ok : forall pts, okHole (windHole pts).

Abbreviation okShape := (okShape okOuter okHole).
Abbreviation keeps_ok := (keeps_ok windOuter windHole okOuter okHole).

Lemma forHoleKids_ok (holeKids : list PolyNode) :
  Forall keeps_ok holeKids ->
  forall out, Forall okShape out ->
    Forall okShape (forHoleKids build holeKids out).
Proof.
  induction 1 as [|hk rest Hhk _ IH]; intros out Hout; simpl; [exact Hout|].
  destruct (IsHole hk); simpl; [apply IH, Hout|].
  destruct (Hhk out Hout) as [H1 H2].
  destruct (build hk out) as [s o]. simpl in *.
  apply IH. apply Forall_app. split; [exact H2|]. constructor; auto.
Qed.

Lemma forChildren_ok (children : list PolyNode) :
  Forall (fun ch => Forall keeps_ok (Childs ch)) children ->
  forall hs out, Forall okHole hs -> Forall okShape out ->
    Forall okHole (fst (forChildren windHole build children hs out)) /\
    Forall okShape (snd (forChildren windHole build children hs out)).
Proof.
  induction 1 as [|ch rest Hch _ IH]; intros hs out Hhs Hout; [simpl; auto|].
  rewrite forChildren_cons.
  destruct (IsHole ch); cbn [negb]; [|apply IH; auto].
  apply IH.
  - destruct (3 <=? length (Contour ch))%nat; [|exact Hhs].
    apply Forall_app. split; [exact Hhs|]. constructor; auto.
  - apply forHoleKids_ok; auto.
Qed.

Lemma buildFromOuter_ok_rec (n : PolyNode) :
  keeps_ok n /\ Forall keeps_ok (Childs n).
Proof.
  induction n as [h c k IH] using PolyNode_Forall_ind.
  assert (Hk : Forall keeps_ok k).
  { eapply Forall_impl; [exact IH|]. intros m [Hm _]. exact Hm. }
  split; [|exact Hk].
  intros out Hout. simpl.
  destruct (length c <? 3)%nat; simpl; [auto|].
  assert (Hgk : Forall (fun ch => Forall keeps_ok (Childs ch)) k).
  { eapply Forall_impl; [exact IH|]. intros m [_ Hm]. exact Hm. }
  destruct (forChildren_ok k Hgk [] out (List.Forall_nil _) Hout) as [H1 H2].
  destruct (forChildren windHole build k [] out) as [hs o]. simpl in *.
  auto.
Qed.

Lemma forRoots_ok (roots : list PolyNode) :
  forall out, Forall okShape out ->
    Forall okShape (forRoots windOuter windHole roots out).
Proof.
  induction roots as [|n rest IH]; intros out Hout; simpl; [exact Hout|].
  destruct (IsHole n); [apply IH, Hout|].
  destruct (buildFromOuter_ok_rec n) as [Hn _].
  destruct (Hn out Hout) as [H1 H2].
  destruct (build n out) as [[s|] o]; simpl in *; apply IH; auto.
  apply Forall_app. split; [exact H2|]. constructor; auto.
Qed.

Lemma polyTreeToThreeShapes_ok (tree : PolyTree) :
  Forall okShape (polyTreeToThreeShapes windOuter windHole tree).
Proof. apply forRoots_ok. constructor. Qed.

End ReconstructFacts.

(** ** Islands: the list and the inductive description agree *)

Lemma In_kidIslands n holeKids :
  In n (kidIslands holeKids) <->
  exists hk, In hk holeKids /\ IsHole hk = false /\
             (n = hk \/ In n (islandsBelow hk)).
Proof.
  unfold kidIslands. rewrite in_flat_map. split.
  - intros (hk & Hin & H). exists hk. split; [exact Hin|].
    destruct (IsHole hk); [destruct H|]. split; [reflexivity|].
    apply in_app_or in H. destruct H as [H|[H|[]]]; auto.
  - intros (hk & Hin & Hh & H). exists hk. split; [exact Hin|].
    rewrite Hh. apply in_or_app. destruct H as [->|H]; [right; left|left]; auto.
Qed.

Lemma In_islandsBelow n m :
  In n (islandsBelow m) <->
  exists ch hk,
    In ch (Childs m) /\ IsHole ch = true /\
    In hk (Childs ch) /\ IsHole hk = false /\
    (n = hk \/ In n (islandsBelow hk)).
Proof.
  rewrite islandsBelow_eq. unfold childIslands. rewrite in_flat_map. split.
  - intros (ch & Hin & H). destruct (IsHole ch) eqn:E; [|destruct H].
    apply In_kidIslands in H. destruct H as (hk & H1 & H2 & H3).
    exists ch, hk. auto.
  - intros (ch & hk & H1 & H2 & H3 & H4 & H5). exists ch. split; [exact H1|].
    rewrite H2. apply In_kidIslands. exists hk. auto.
Qed.

Lemma In_islands n tree :
  In n (islands tree) <->
  exists r, In r tree /\ IsHole r = false /\ (n = r \/ In n (islandsBelow r)).
Proof.
  unfold islands. rewrite in_flat_map. split.
  - intros (r & Hin & H). exists r. split; [exact Hin|].
    destruct (IsHole r); [destruct H|]. split; [reflexivity|].
    apply in_app_or in H. destruct H as [H|[H|[]]]; auto.
  - intros (r & Hin & Hh & H). exists r. split; [exact Hin|].
    rewrite Hh. apply in_or_app. destruct H as [->|H]; [right; left|left]; auto.
Qed.

Lemma islandsBelow_trans_rec (r : PolyNode) :
  (forall m n, In m (islandsBelow r) -> In n (islandsBelow m) ->
               In n (islandsBelow r)) /\
  Forall (fun c => forall m n, In m (islandsBelow c) ->
                   In n (islandsBelow m) -> In n (islandsBelow c)) (Childs r).
Proof.
  induction r as [h c k IH] using PolyNode_Forall_ind.
  assert (Hk : Forall (fun c => forall m n, In m (islandsBelow c) ->
                   In n (islandsBelow m) -> In n (islandsBelow c)) k).
  { eapply Forall_impl; [exact IH|]. intros x [Hx _]. exact Hx. }
  split; [|exact Hk].
  intros m n Hm Hn.
  apply In_islandsBelow in Hm.
  destruct Hm as (ch & hk & H1 & H2 & H3 & H4 & H5).
  apply In_islandsBelow. exists ch, hk. repeat split; auto.
  right. destruct H5 as [->|H5]; [exact Hn|].
  simpl in H1. rewrite List.Forall_forall in IH.
  destruct (IH ch H1) as [_ Hch].
  rewrite List.Forall_forall in Hch. exact (Hch hk H3 m n H5 Hn).
Qed.

Lemma islandsBelow_Island_rec (tree : PolyTree) (m : PolyNode) :
  (Island tree m -> forall n, In n (islandsBelow m) -> Island tree n) /\
  Forall (fun c => Island tree c ->
                   forall n, In n (islandsBelow c) -> Island tree n)
         (Childs m).
Proof.
  induction m as [h c k IH] using PolyNode_Forall_ind.
  assert (Hk : Forall (fun c => Island tree c ->
                   forall n, In n (islandsBelow c) -> Island tree n) k).
  { eapply Forall_impl; [exact IH|]. intros x [Hx _]. exact Hx. }
  split; [|exact Hk].
  intros Hm n Hn.
  apply In_islandsBelow in Hn.
  destruct Hn as (ch & hk & H1 & H2 & H3 & H4 & H5).
  assert (Hhk : Island tree hk) by (eapply Island_nested; eauto).
  destruct H5 as [->|H5]; [exact Hhk|].
  simpl in H1. rewrite List.Forall_forall in IH.
  destruct (IH ch H1) as [_ Hch].
  rewrite List.Forall_forall in Hch. exact (Hch hk H3 Hhk n H5).
Qed.

(** The list [islands] holds exactly the fill areas of the tree. *)
Lemma Island_islands (tree : PolyTree) (n : PolyNode) :
  Island tree n <-> In n (islands tree).
Proof.
  split.
  - induction 1 as [n Hin Hh|outer hole n Hout IH H1 H2 H3 H4].
    + apply In_islands. exists n. auto.
    + apply In_islands in IH. destruct IH as (r & Hr & Hrh & Hor).
      apply In_islands. exists r. split; [exact Hr|]. split; [exact Hrh|].
      right.
      assert (Hn : In n (islandsBelow outer)).
      { apply In_islandsBelow. exists hole, n. auto 10. }
      destruct Hor as [->|Hor]; [exact Hn|].
      destruct (islandsBelow_trans_rec r) as [Ht _]. eapply Ht; eauto.
  - intros H. apply In_islands in H. destruct H as (r & Hr & Hrh & Hor).
    assert (Hroot : Island tree r) by (apply Island_root; auto).
    destruct Hor as [->|Hor]; [exact Hroot|].
    destruct (islandsBelow_Island_rec tree r) as [Hb _]. eapply Hb; eauto.
Qed.

(** C2. In a tree whose fill areas have contours of at least three
    points, every non-hole node nested in a hole of a fill area (and,
    going down, every island of every island) yields a shape of its own
    in the result of [polyTreeToThreeShapes], in both designers: the
    result holds one shape per fill area, none is dropped, and the shape
    of a fill area has its own contour as boundary and only the contours
    of its direct hole children as holes. *)
Theorem islands_become_regions (tree : PolyTree) :
  (forall n, Island tree n -> polygonal n) ->
  Outline.polyTreeToThreeShapes tree =
    map (fun n => Some (regionOf Outline.windOuter Outline.windHole n))
        (islands tree) /\
  Initial.polyTreeToThreeShapes tree =
    map (fun n => Some (regionOf Initial.windOuter Initial.windHole n))
        (islands tree) /\
  (forall n, Island tree n <-> In n (islands tree)) /\
  (forall n, Island tree n ->
     In (Some (regionOf Outline.windOuter Outline.windHole n))
        (Outline.polyTreeToThreeShapes tree) /\
     In (Some (regionOf Initial.windOuter Initial.windHole n))
        (Initial.polyTreeToThreeShapes tree)).
Proof.
  intros Hwf.
  assert (Hall : Forall polygonal (islands tree)).
  { apply List.Forall_forall. intros n Hn. apply Hwf, Island_islands, Hn. }
  pose proof (polyTreeToThreeShapes_regions
                Outline.windOuter Outline.windHole tree Hall) as HO.
  pose proof (polyTreeToThreeShapes_regions
                Initial.windOuter Initial.windHole tree Hall) as HI.
  split; [exact HO|]. split; [exact HI|].
  split; [intros n; apply Island_islands|].
  intros n Hn. apply Island_islands in Hn.
  unfold Outline.polyTreeToThreeShapes, Initial.polyTreeToThreeShapes.
  rewrite HO, HI. split.
  - apply (in_map (fun n => Some (regionOf Outline.windOuter
                                     Outline.windHole n))), Hn.
  - apply (in_map (fun n => Some (regionOf Initial.windOuter
                                     Initial.windHole n))), Hn.
Qed.

Lemma islands_become_regions_witness :
  (forall n, Island nested_tree n -> polygonal n) /\
  length (Outline.polyTreeToThreeShapes nested_tree) = 2%nat /\
  length (Initial.polyTreeToThreeShapes nested_tree) = 2%nat.
Proof.
  assert (Hwf : forall n, Island nested_tree n -> polygonal n).
  { intros n Hn. apply Island_islands in Hn.
    cbv [nested_tree islands islandsBelow flat_map IsHole Childs app] in Hn.
    destruct Hn as [<-|[<-|[]]]; unfold polygonal; simpl; lia. }
  split; [exact Hwf|].
  destruct (islands_become_regions nested_tree Hwf) as (HO & HI & _).
  rewrite HO, HI. split; reflexivity.
Defined.

(** ** Winding of the reconstructed shapes *)

(** In the outline designer no outer boundary is clockwise and no hole
    has a positive signed area, whatever the tree. *)
Lemma Outline_regions_winding (tree : PolyTree) :
  Forall (fun o =>
    match o with
    | Some s =>
        ShapeUtils.isClockWise (points s) = false /\
        Forall (fun h => ShapeUtils.area h <= 0) (holes s)
    | None => True
    end) (Outline.polyTreeToThreeShapes tree).
Proof.
  apply (polyTreeToThreeShapes_ok Outline.windOuter Outline.windHole
           (fun pts => ShapeUtils.isClockWise pts = false)
           (fun h => ShapeUtils.area h <= 0)).
  - apply ShapeUtilsFacts.windOuter_ccw.
  - intros pts. apply ShapeUtilsFacts.windHole_cw.
Qed.


(** ** The keyring radii *)





(** ** Extrusion depths *)




(** ** The font cache *)

Lemma findOption_total (fontKey : string) :
  exists opt, Utils.findOption fontKey = Some opt /\ In opt Utils.FONT_OPTIONS.
Proof.
  unfold Utils.findOption.
  destruct (find _ Utils.FONT_OPTIONS) as [o|] eqn:E.
  - exists o. split; [reflexivity|]. apply find_some in E. apply E.
  - eexists. split; [reflexivity|]. left. reflexivity.
Qed.

Lemma findOption_unknown (fontKey : string) :
  (forall o, In o Utils.FONT_OPTIONS -> Utils.key o <> fontKey) ->
  Utils.findOption fontKey = head Utils.FONT_OPTIONS.
Proof.
  intros H. unfold Utils.findOption.
  destruct (find _ Utils.FONT_OPTIONS) as [o|] eqn:E; [|reflexivity].
  apply find_some in E. destruct E as [Hin Heq].
  apply String.eqb_eq in Heq. destruct (H o Hin Heq).
Qed.

Lemma findOption_known (fontKey : string) (o : Utils.FontOption) :
  In o Utils.FONT_OPTIONS -> Utils.key o = fontKey ->
  Utils.findOption fontKey = Some o.
Proof.
  intros Hin <-.
  repeat (destruct Hin as [<-|Hin]; [reflexivity|]). destruct Hin.
Qed.

Lemma getFont_total (fontKey : string) (st : Utils.Loader) :
  exists f st', Utils.getFont fontKey st = (Some f, st').
Proof.
  unfold Utils.getFont.
  destruct (Utils.fontCache st !! fontKey) as [c|]; [eauto|].
  destruct (findOption_total fontKey) as (opt & -> & _). simpl. eauto.
Qed.

Lemma getFont_miss (fontKey : string) (st : Utils.Loader) opt :
  Utils.fontCache st !! fontKey = None ->
  Utils.findOption fontKey = Some opt ->
  Utils.getFont fontKey st =
    (Some (Utils.mkFont (Utils.parsed_count st) (Utils.json opt)),
     Utils.mkLoader
       (<[fontKey := Utils.mkFont (Utils.parsed_count st) (Utils.json opt)]>
          (Utils.fontCache st))
       (S (Utils.parsed_count st))).
Proof. intros H1 H2. unfold Utils.getFont. rewrite H1, H2. reflexivity. Qed.

Lemma getFont_hit (fontKey : string) (st : Utils.Loader) f :
  Utils.fontCache st !! fontKey = Some f ->
  Utils.getFont fontKey st = (Some f, st).
Proof. intros H. unfold Utils.getFont. rewrite H. reflexivity. Qed.

(** After a call the key is cached with the object that was returned. *)
Lemma getFont_caches (fontKey : string) (st st' : Utils.Loader) f :
  Utils.getFont fontKey st = (Some f, st') ->
  Utils.fontCache st' !! fontKey = Some f.
Proof.
  unfold Utils.getFont.
  destruct (Utils.fontCache st !! fontKey) as [c|] eqn:E.
  - intros [= <- <-]. exact E.
  - destruct (Utils.findOption fontKey) as [opt|]; [|discriminate].
    simpl. intros [= <- <-]. simpl. apply lookup_insert_eq.
Qed.

Lemma getFont_again (fontKey : string) (st st' : Utils.Loader) f :
  Utils.getFont fontKey st = (Some f, st') ->
  Utils.getFont fontKey st' = (Some f, st').
Proof. intros H. apply getFont_hit. eapply getFont_caches, H. Qed.

(** In every state reached from the empty cache the number of parses
    is the number of cached keys. *)
Lemma getFont_count (fontKey : string) (st : Utils.Loader) :
  Utils.parsed_count st = size (Utils.fontCache st) ->
  Utils.parsed_count (snd (Utils.getFont fontKey st))
    = size (Utils.fontCache (snd (Utils.getFont fontKey st))) /\
  dom (Utils.fontCache (snd (Utils.getFont fontKey st)))
    = {[fontKey]} ∪ dom (Utils.fontCache st).
Proof.
  intros Hinv.
  destruct (Utils.fontCache st !! fontKey) as [c|] eqn:E.
  - rewrite (getFont_hit _ _ _ E). simpl. split; [exact Hinv|].
    assert (fontKey ∈ dom (Utils.fontCache st))
      by (apply elem_of_dom; eauto).
    set_solver.
  - destruct (findOption_total fontKey) as (opt & Hopt & _).
    rewrite (getFont_miss _ _ _ E Hopt). simpl. split.
    + rewrite map_size_insert_None by exact E. rewrite Hinv. reflexivity.
    + apply dom_insert_L.
Qed.

Lemma requestFonts_count (keys : list string) : forall st,
  Utils.parsed_count st = size (Utils.fontCache st) ->
  Utils.parsed_count (requestFonts keys st)
    = size (Utils.fontCache (requestFonts keys st)) /\
  dom (Utils.fontCache (requestFonts keys st))
    = list_to_set keys ∪ dom (Utils.fontCache st).
Proof.
  induction keys as [|k rest IH]; intros st Hinv; simpl.
  - split; [exact Hinv|]. set_solver.
  - destruct (getFont_count k st Hinv) as [H1 H2].
    destruct (IH _ H1) as [H3 H4]. split; [exact H3|].
    rewrite H4, H2. set_solver.
Qed.

(** C10. [getFont] returns a font for every key. For a key that is not
    cached it parses the file of the option with that key, or the file
    of the first option when no option has the key. A second call with
    the same key returns the very same font object and leaves the state
    as it is, so nothing is parsed again: after any run of calls that
    starts with the empty cache, the number of parses is the number of
    distinct keys that were asked for. *)
Theorem getFont_cached_with_fallback (fontKey : string) (st : Utils.Loader)
  (keys : list string) :
  (exists f st',
     Utils.getFont fontKey st = (Some f, st') /\
     Utils.getFont fontKey st' = (Some f, st') /\
     (Utils.fontCache st !! fontKey = None ->
        Utils.object_id f = Utils.parsed_count st /\
        Utils.parsed_count st' = S (Utils.parsed_count st) /\
        (forall o, In o Utils.FONT_OPTIONS -> Utils.key o = fontKey ->
                   Utils.data f = Utils.json o) /\
        ((forall o, In o Utils.FONT_OPTIONS -> Utils.key o <> fontKey) ->
         head Utils.FONT_OPTIONS
           = Some (Utils.mkFontOption "Titan One_Regular"
                     "Titan One (Regular)" Utils.titanOneJson "Titan One") /\
         Utils.data f = Utils.titanOneJson))) /\
  Utils.parsed_count (requestFonts keys Utils.emptyLoader)
    = size (list_to_set keys : gset string).
Proof.
  split.
  - destruct (getFont_total fontKey st) as (f & st' & H).
    exists f, st'. split; [exact H|]. split; [eapply getFont_again, H|].
    intros Hmiss.
    destruct (findOption_total fontKey) as (opt & Hopt & _).
    rewrite (getFont_miss _ _ _ Hmiss Hopt) in H.
    injection H as <- <-. simpl.
    split; [reflexivity|]. split; [reflexivity|]. split.
    + intros o Hin Hkey. rewrite (findOption_known _ _ Hin Hkey) in Hopt.
      injection Hopt as <-. reflexivity.
    + intros Hno. split; [reflexivity|].
      rewrite (findOption_unknown _ Hno) in Hopt.
      injection Hopt as <-. reflexivity.
  - destruct (requestFonts_count keys Utils.emptyLoader) as [H1 H2];
      [reflexivity|].
    rewrite H1. rewrite <- size_dom, H2.
    f_equal. unfold Utils.emptyLoader. simpl. set_solver.
Qed.

Lemma getFont_cached_with_fallback_witness :
  Utils.fontCache Utils.emptyLoader !! ("Comic Sans" : string) = None /\
  (forall o, In o Utils.FONT_OPTIONS -> Utils.key o <> "Comic Sans"%string) /\
  exists f st',
    Utils.getFont "Comic Sans" Utils.emptyLoader = (Some f, st') /\
    Utils.getFont "Comic Sans" st' = (Some f, st') /\
    Utils.data f = Utils.titanOneJson.
Proof.
  assert (Hmiss : Utils.fontCache Utils.emptyLoader
                    !! ("Comic Sans" : string) = None) by reflexivity.
  assert (Hno : forall o, In o Utils.FONT_OPTIONS ->
                          Utils.key o <> "Comic Sans"%string).
  { intros o Hin.
    repeat (destruct Hin as [<-|Hin]; [discriminate|]). destruct Hin. }
  split; [exact Hmiss|]. split; [exact Hno|].
  destruct (getFont_cached_with_fallback "Comic Sans" Utils.emptyLoader [])
    as [(f & st' & H1 & H2 & H3) _].
  exists f, st'. split; [exact H1|]. split; [exact H2|].
  destruct (H3 Hmiss) as (_ & _ & _ & H4). apply H4, Hno.
Defined.

(** ** Stacking of the layers *)

Lemma Outline_stack `{C : Collaborators} (f : Utils.Font) (p : Outline.Params) :
  exists base text,
    Outline.composite f p = [base; text] /\
    layer base = baseMesh /\ layer text = textMesh /\
    bottomZ base = 0 /\
    topZ base == JS.Math_max (1 # 10) (Outline.baseDepth p) /\
    bottomZ text == topZ base - (2 # 10) /\
    bottomZ text < topZ base.
Proof.
  unfold Outline.composite. destruct (Outline.treesOf f p) as [ft bt].
  eexists. eexists. split; [reflexivity|].
  unfold topZ, bottomZ, Outline.TEXT_BASE_EMBED. simpl.
  repeat split; try reflexivity; lra.
Qed.










(** ** The empty text *)

Lemma Outline_trees_of_empty_text `{C : Collaborators} (f : Utils.Font)
  (p : Outline.Params) :
  Outline.treesOf f (with_text p EmptyString) = Outline.treesOf f (with_text p " ").
Proof. reflexivity. Qed.

Lemma Initial_trees_of_empty_text `{C : Collaborators} (f : Utils.Font)
  (p : Initial.Params) :
  Initial.treesOf f (initial_with_text p EmptyString)
  = Initial.treesOf f (initial_with_text p " ").
Proof. reflexivity. Qed.



(** With any libraries: when the font has no shape for the space and
    the clipper returns no root for no path, the build of the empty text
    without keyring extrudes no shape at all. *)
Lemma Outline_space_without_outline `{C : Collaborators} (f : Utils.Font)
  (p : Outline.Params) :
  Outline.text p = EmptyString ->
  Outline.keyringEnabled p = false ->
  generateShapes f " " (Outline.size p) = [] ->
  Clipper_union [] = [] ->
  (forall delta, ClipperOffset_Execute [] delta = []) ->
  Outline.composite f p =
    [ mkMesh baseMesh
        (ExtrudeGeometry [] (JS.Math_max (1 # 10) (Outline.baseDepth p))) 0;
      mkMesh textMesh
        (ExtrudeGeometry [] (JS.Math_max (1 # 10) (Outline.textDepth p)))
        (JS.Math_max (1 # 10) (Outline.baseDepth p)
         - Outline.TEXT_BASE_EMBED) ].
Proof.
  intros Ht Hk Hg Hu Ho.
  unfold Outline.composite, Outline.treesOf, Outline.baseTreeOf,
    outlineTreeOf, unionOf.
  rewrite Ht, Hk. cbn [JS.or_else]. rewrite Hg. cbn [pathsOfShapes flat_map map].
  rewrite Ho, Hu. cbn [map]. rewrite Hu.
  destruct (Qlt_le_dec 0 _); reflexivity.
Qed.


(** ** Export *)

(** Case analysis of a membership in a list of effects. *)
Ltac in_cases H :=
  repeat (first [ apply in_app_or in H; destruct H as [H|H]
                | destruct H as [H|H] ]);
  try discriminate; try contradiction.

Ltac guard_cases H :=
  in_cases H;
  repeat match goal with
         | H : In _ (if ?c then _ else _) |- _ => destruct c eqn:?; in_cases H
         end.

(** No buffer of fewer than 84 bytes is downloaded by the outline, the
    name tag or the flower designer. *)
Lemma Outline_export_guard `{C : Collaborators} (status : LicenseStatus)
  (during : Outline.State -> Outline.State) (st : Outline.State)
  (b : Buffer) :
  In (downloadBlob b) (fst (Outline.exportSTL status during st)) ->
  (84 <= byteLength b)%nat.
Proof.
  unfold Outline.exportSTL, Outline.exportSTL_begin, Outline.exportSTL_resume.
  destruct (Outline.group st); [|intros []].
  destruct (Outline.scene st); [|intros []].
  destruct (Outline.user st); [|intros H; in_cases H].
  destruct (canExport status); cbn [negb fst]; [|intros H; in_cases H].
  destruct (Outline.group (Outline.rebuildMeshes (during st))) as [ch|];
    cbn [fst]; [|intros H; in_cases H].
  destruct (map worldGeometry ch) as [|x xs];
    cbn [fst]; [intros H; in_cases H|].
  destruct (mergeGeometries (x :: xs)) as [mg|];
    cbn [fst]; [|intros H; in_cases H].
  intros H. guard_cases H.
  injection H as <-. apply Nat.leb_le. assumption.
Qed.

Lemma Flower_export_guard `{C : Collaborators} (status : LicenseStatus)
  (during : Flower.State -> Flower.State) (st : Flower.State)
  (b : Buffer) :
  In (downloadBlob b) (fst (Flower.exportSTL status during st)) ->
  (84 <= byteLength b)%nat.
Proof.
  unfold Flower.exportSTL, Flower.exportSTL_begin, Flower.exportSTL_resume.
  destruct (Flower.group st); [|intros []].
  destruct (Flower.scene st); [|intros []].
  destruct (Flower.user st); [|intros H; in_cases H].
  destruct (canExport status); cbn [negb fst]; [|intros H; in_cases H].
  destruct (Flower.group (Flower.rebuildMeshes (during st))) as [ch|];
    cbn [fst]; [|intros H; in_cases H].
  destruct (map worldGeometry ch) as [|x xs];
    cbn [fst]; [intros H; in_cases H|].
  destruct (mergeGeometries (x :: xs)) as [mg|];
    cbn [fst]; [|intros H; in_cases H].
  intros H. guard_cases H.
  injection H as <-. apply Nat.leb_le. assumption.
Qed.

(** The name tag designer moreover reports the failure: a buffer of
    fewer than 84 bytes ends in [exportError]. *)
Lemma NameTag_export_guard `{C : Collaborators}
  (planar : NameTag.Params -> option (Shape * option Shape))
  (status : LicenseStatus)
  (during : NameTag.State -> NameTag.State) (st : NameTag.State)
  (b : Buffer) :
  In (downloadBlob b) (fst (NameTag.exportSTL planar status during st)) ->
  (84 <= byteLength b)%nat.
Proof.
  unfold NameTag.exportSTL, NameTag.exportSTL_begin, NameTag.exportSTL_resume,
    NameTag.exportSTL_try.
  destruct (NameTag.user st); [|intros H; in_cases H].
  destruct (canExport status); cbn [negb fst]; [|intros H; in_cases H].
  cbn [NameTag.group NameTag.scene NameTag.with_error].
  destruct (NameTag.group (during st)); [|intros H; in_cases H].
  destruct (NameTag.scene (during st)); [|intros H; in_cases H].
  destruct (option_map _ _) as [[|x xs]|]; cbn [fst];
    try (intros H; in_cases H; fail).
  destruct (mergeGeometries (x :: xs)) as [mg|];
    cbn [fst]; [|intros H; in_cases H].
  match goal with
  | |- context [(?n <? 84)%nat] => destruct (n <? 84)%nat eqn:E
  end; cbn [fst]; intros H; guard_cases H.
  injection H as <-. apply Nat.ltb_ge. assumption.
Qed.

(** The initial designer downloads whatever the serializer returns. *)
Lemma Initial_export_downloads `{C : Collaborators} (status : LicenseStatus)
  (during : Initial.State -> Initial.State) (st : Initial.State)
  (u : User) (children : list Mesh) :
  Initial.exportSTL_begin st = inr u ->
  canExport status = true ->
  Initial.group (during st) = Some children ->
  fst (Initial.exportSTL status during st) =
    [ checkLicenseStatus u; exporter_parse (Group children);
      downloadBlob (STLExporter_parse (Group children)) ]
    ++ (if is_trial status then [onShowThankYou] else []).
Proof.
  intros H1 H2 H3. unfold Initial.exportSTL, Initial.exportSTL_resume.
  rewrite H1, H2, H3. reflexivity.
Qed.


(** After the license check the outline designer rebuilds from the
    settings found at that time and exports that build. *)
Lemma Outline_export_rebuilds `{C : Collaborators} (status : LicenseStatus)
  (during : Outline.State -> Outline.State) (st : Outline.State)
  (u : User) (f : Utils.Font) (g : list Mesh) :
  Outline.exportSTL_begin st = inr u ->
  canExport status = true ->
  Outline.scene (during st) = true ->
  Outline.group (during st) = Some g ->
  Outline.font (during st) = Some f ->
  let fresh := Outline.composite f (Outline.params (during st)) in
  Outline.group (snd (Outline.exportSTL status during st)) = Some fresh /\
  exists rest,
    fst (Outline.exportSTL status during st)
      = checkLicenseStatus u :: rebuildMeshes_run :: rest /\
    forall obj, In (exporter_parse obj) rest ->
      exists merged,
        mergeGeometries (map worldGeometry fresh) = Some merged /\
        obj = SingleMesh (mergeVertices merged (1 # 1000)).
Proof.
  intros H1 H2 H3 H4 H5 fresh.
  unfold Outline.exportSTL, Outline.exportSTL_resume.
  rewrite H1, H2. cbn [negb].
  assert (Hr : Outline.rebuildMeshes (during st)
               = Outline.with_group (during st) (Some fresh)).
  { unfold Outline.rebuildMeshes. rewrite H3, H4, H5. reflexivity. }
  rewrite Hr. cbn [Outline.group Outline.with_group].
  destruct (Outline_stack f (Outline.params (during st)))
    as (b & t & Hc & _).
  fold fresh in Hc. rewrite Hc. cbn [map].
  destruct (mergeGeometries _) as [mg|] eqn:E; cbn [fst snd Outline.group].
  - split; [reflexivity|]. eexists. split; [reflexivity|].
    intros obj Hin. exists mg. split; [reflexivity|].
    destruct Hin as [Hin|Hin]; [injection Hin as <-; reflexivity|].
    apply in_app_or in Hin.
    destruct Hin as [Hin|Hin].
    + match goal with
      | _ : context [(84 <=? ?n)%nat] |- _ => destruct (84 <=? n)%nat
      end; [destruct Hin as [Hin|[]]|destruct Hin]; discriminate.
    + destruct (is_trial status); [destruct Hin as [Hin|[]]|destruct Hin];
        discriminate.
  - split; [reflexivity|]. eexists. split; [reflexivity|].
    intros obj [].
Qed.


(* ===================================================================== *)
(** * Part III. Further properties of the code *)
(* ===================================================================== *)

(** ** Paths handed to the clipper *)

Lemma ensureCW_cases `{C : Collaborators} (path : Path) (clockwise : bool) :
  ensureCW path clockwise = path \/ ensureCW path clockwise = rev path.
Proof. unfold ensureCW. destruct (Bool.eqb _ _); auto. Qed.

Lemma ensureCW_length `{C : Collaborators} (path : Path) (clockwise : bool) :
  length (ensureCW path clockwise) = length path.
Proof.
  destruct (ensureCW_cases path clockwise) as [-> | ->];
    [reflexivity|apply length_rev].
Qed.

(** X1. Every path the text loop hands to the clipper has at least three
    points and is the scaled boundary or hole of a glyph, in its own or in
    reverse order; the holes of a glyph whose boundary has fewer than
    three points are left out with it. *)
Theorem pathsOfShapes_polygons `{C : Collaborators}
  (shapes : list FontShape) (p : Path) :
  In p (pathsOfShapes shapes) ->
  (3 <= length p)%nat /\
  exists s pts,
    In s shapes /\
    (pts = getPoints s \/ In pts (glyphHoles s)) /\
    (p = toPath pts \/ p = rev (toPath pts)) /\
    (3 <= length (toPath (getPoints s)))%nat.
Proof.
  unfold pathsOfShapes. intros H. apply in_flat_map in H.
  destruct H as (s & Hs & H). unfold shapeToPaths in H.
  destruct (length (toPath (getPoints s)) <? 3)%nat eqn:E; [destruct H|].
  apply Nat.ltb_ge in E.
  destruct H as [<-|H].
  - split; [rewrite ensureCW_length; exact E|].
    exists s, (getPoints s). split; [exact Hs|]. split; [left; reflexivity|].
    split; [apply ensureCW_cases|exact E].
  - apply in_map_iff in H. destruct H as (h & <- & Hh).
    apply filter_In in Hh. destruct Hh as [Hh Hlen].
    apply Nat.leb_le in Hlen.
    apply in_map_iff in Hh. destruct Hh as (pts & <- & Hpts).
    split; [rewrite ensureCW_length; exact Hlen|].
    exists s, pts. split; [exact Hs|]. split; [right; exact Hpts|].
    split; [apply ensureCW_cases|exact E].
Qed.

Lemma pathsOfShapes_polygons_witness :
  let hole := [mkIntPoint 8000 8000; mkIntPoint 2000 8000;
               mkIntPoint 2000 2000] in
  In hole (@pathsOfShapes sampleCollaborators [ringGlyph]) /\
  (3 <= length hole)%nat.
Proof.
  cbv zeta.
  assert (Hin : In [mkIntPoint 8000 8000; mkIntPoint 2000 8000;
                    mkIntPoint 2000 2000]
                  (@pathsOfShapes sampleCollaborators [ringGlyph]))
    by (vm_compute; auto).
  split; [exact Hin|].
  exact (proj1 (@pathsOfShapes_polygons sampleCollaborators _ _ Hin)).
Defined.

(** ** Shape reconstruction on arbitrary trees *)

(** The holes of a shape are the polygonal direct hole children of its
    node, whatever lies below them. *)
Lemma forChildren_holes (windHole : list Vector2 -> list Vector2)
    (b : Builder) (children : list PolyNode) :
  forall hs out,
    fst (forChildren windHole b children hs out)
    = hs ++ holesOf windHole children.
Proof.
  induction children as [|ch rest IH]; intros hs out.
  - simpl. rewrite app_nil_r. reflexivity.
  - rewrite forChildren_cons, holesOf_cons.
    destruct (IsHole ch); cbn [negb andb].
    + rewrite IH. destruct (3 <=? length (Contour ch))%nat; cbn [app];
        rewrite <- ?app_assoc; reflexivity.
    + apply IH.
Qed.

Section ReconstructMore.

Variable windOuter : list Vector2 -> list Vector2.
Variable windHole : list Vector2 -> list Vector2.

Abbreviation build := (buildFromOuter windOuter windHole).
Abbreviation from_nodes := (from_nodes windOuter windHole).
Abbreviation region_sound := (region_sound windOuter windHole).

Lemma from_nodes_incl (l1 l2 : list PolyNode) (o : option Shape) :
  (forall m, In m l1 -> In m l2) -> from_nodes l1 o -> from_nodes l2 o.
Proof.
  intros Hincl H s Hs. destruct (H s Hs) as (m & Hm & Hp & E).
  exists m. auto.
Qed.

Lemma Forall_from_nodes_incl (l1 l2 : list PolyNode) extra :
  (forall m, In m l1 -> In m l2) ->
  Forall (from_nodes l1) extra -> Forall (from_nodes l2) extra.
Proof.
  intros Hincl H. eapply Forall_impl; [exact H|].
  intros o. apply from_nodes_incl, Hincl.
Qed.

Lemma forHoleKids_sound (holeKids : list PolyNode) :
  Forall region_sound holeKids ->
  forall out, exists extra,
    forHoleKids build holeKids out = out ++ extra /\
    Forall (from_nodes (kidIslands holeKids)) extra.
Proof.
  induction 1 as [|hk rest Hhk _ IH]; intros out.
  - exists []. simpl. rewrite app_nil_r. split; [reflexivity|constructor].
  - cbn [forHoleKids]. unfold kidIslands. cbn [flat_map].
    fold (kidIslands rest).
    destruct (IsHole hk); cbn [negb].
    + cbn [app]. apply IH.
    + destruct (Hhk out) as (e1 & H1 & H2 & H3).
      destruct (build hk out) as [s o]. cbn [fst snd] in *. subst o.
      destruct (IH ((out ++ e1) ++ [s])) as (e2 & H4 & H5).
      exists (e1 ++ [s] ++ e2). split.
      * rewrite H4, <- !app_assoc. reflexivity.
      * apply Forall_app. split.
        { eapply Forall_from_nodes_incl; [|exact H2].
          intros m Hm. apply in_or_app. left. apply in_or_app. left. exact Hm. }
        apply Forall_app. split.
        { constructor; [|constructor].
          eapply from_nodes_incl; [|exact H3].
          intros m [<-|[]]. apply in_or_app. left. apply in_or_app.
          right. left. reflexivity. }
        eapply Forall_from_nodes_incl; [|exact H5].
        intros m Hm. apply in_or_app. right. exact Hm.
Qed.

Lemma forChildren_sound (children : list PolyNode) :
  Forall (fun ch => Forall region_sound (Childs ch)) children ->
  forall hs out, exists extra,
    snd (forChildren windHole build children hs out) = out ++ extra /\
    Forall (from_nodes (childIslands children)) extra.
Proof.
  induction 1 as [|ch rest Hch _ IH]; intros hs out.
  - exists []. simpl. rewrite app_nil_r. split; [reflexivity|constructor].
  - rewrite forChildren_cons, childIslands_cons.
    destruct (IsHole ch); cbn [negb].
    + destruct (forHoleKids_sound _ Hch out) as (e1 & H1 & H2).
      rewrite H1.
      match goal with
      | |- context [forChildren windHole build rest ?h (out ++ e1)] =>
          destruct (IH h (out ++ e1)) as (e2 & H3 & H4)
      end.
      exists (e1 ++ e2). split.
      * rewrite H3, <- app_assoc. reflexivity.
      * apply Forall_app. split.
        { eapply Forall_from_nodes_incl; [|exact H2].
          intros m Hm. apply in_or_app. left. exact Hm. }
        eapply Forall_from_nodes_incl; [|exact H4].
        intros m Hm. apply in_or_app. right. exact Hm.
    + cbn [app]. apply IH.
Qed.

Lemma buildFromOuter_sound_rec (n : PolyNode) :
  region_sound n /\ Forall region_sound (Childs n).
Proof.
  induction n as [h c k IH] using PolyNode_Forall_ind.
  assert (Hk : Forall region_sound k).
  { eapply Forall_impl; [exact IH|]. intros m [Hm _]. exact Hm. }
  split; [|exact Hk].
  intros out. cbn [buildFromOuter].
  destruct (length c <? 3)%nat eqn:E.
  - exists []. cbn [fst snd]. rewrite app_nil_r.
    split; [reflexivity|]. split; [constructor|]. intros s Hs. discriminate.
  - apply Nat.ltb_ge in E.
    assert (Hgk : Forall (fun ch => Forall region_sound (Childs ch)) k).
    { eapply Forall_impl; [exact IH|]. intros m [_ Hm]. exact Hm. }
    destruct (forChildren_sound k Hgk [] out) as (extra & H1 & H2).
    pose proof (forChildren_holes windHole build k [] out) as H3.
    destruct (forChildren windHole build k [] out) as [hs o].
    cbn [fst snd] in *. subst o hs.
    exists extra. split; [reflexivity|]. split; [exact H2|].
    intros s [= <-]. exists (Node h c k). split; [left; reflexivity|].
    split; [exact E|reflexivity].
Qed.

Lemma forRoots_sound (roots : list PolyNode) :
  forall out, exists extra,
    forRoots windOuter windHole roots out = out ++ extra /\
    Forall (from_nodes (islands roots)) extra.
Proof.
  induction roots as [|n rest IH]; intros out.
  - exists []. simpl. rewrite app_nil_r. split; [reflexivity|constructor].
  - cbn [forRoots]. unfold islands. cbn [flat_map]. fold (islands rest).
    destruct (IsHole n).
    + cbn [app]. apply IH.
    + destruct (buildFromOuter_sound_rec n) as [Hn _].
      destruct (Hn out) as (e1 & H1 & H2 & H3).
      destruct (build n out) as [s o]. cbn [fst snd] in *. subst o.
      assert (Hincl1 : forall m, In m (islandsBelow n) ->
                In m ((islandsBelow n ++ [n]) ++ islands rest)).
      { intros m Hm. apply in_or_app. left. apply in_or_app. left. exact Hm. }
      assert (Hincl2 : forall m, In m [n] ->
                In m ((islandsBelow n ++ [n]) ++ islands rest)).
      { intros m [<-|[]]. apply in_or_app. left. apply in_or_app.
        right. left. reflexivity. }
      assert (Hincl3 : forall m, In m (islands rest) ->
                In m ((islandsBelow n ++ [n]) ++ islands rest)).
      { intros m Hm. apply in_or_app. right. exact Hm. }
      destruct s as [s|].
      * destruct (IH ((out ++ e1) ++ [Some s])) as (e2 & H4 & H5).
        exists (e1 ++ [Some s] ++ e2). split.
        { rewrite H4, <- !app_assoc. reflexivity. }
        apply Forall_app. split;
          [eapply Forall_from_nodes_incl; [exact Hincl1|exact H2]|].
        apply Forall_app. split.
        { constructor; [|constructor].
          eapply from_nodes_incl; [exact Hincl2|exact H3]. }
        eapply Forall_from_nodes_incl; [exact Hincl3|exact H5].
      * destruct (IH (out ++ e1)) as (e2 & H4 & H5).
        exists (e1 ++ e2). split.
        { rewrite H4, <- !app_assoc. reflexivity. }
        apply Forall_app. split;
          [eapply Forall_from_nodes_incl; [exact Hincl1|exact H2]|].
        eapply Forall_from_nodes_incl; [exact Hincl3|exact H5].
Qed.

Lemma polyTreeToThreeShapes_sound (tree : PolyTree) (s : Shape) :
  In (Some s) (polyTreeToThreeShapes windOuter windHole tree) ->
  exists n, Island tree n /\ polygonal n /\
            s = regionOf windOuter windHole n.
Proof.
  unfold polyTreeToThreeShapes. intros H.
  destruct (forRoots_sound tree []) as (extra & E & Hall).
  rewrite E in H. cbn [app] in H.
  rewrite List.Forall_forall in Hall.
  destruct (Hall _ H s eq_refl) as (m & Hm & Hp & Hs).
  exists m. split; [apply Island_islands, Hm|]. auto.
Qed.

(** Roots never leave a [null] in the result: an entry without shape
    comes from an island nested in a hole. *)
Lemma forRoots_keeps_length (roots : list PolyNode) :
  forall out,
    (length out <= length (forRoots windOuter windHole roots out))%nat.
Proof.
  intros out. destruct (forRoots_sound roots out) as (extra & -> & _).
  rewrite length_app. lia.
Qed.

Abbreviation rewinds := (rewinds windOuter windHole).
Abbreviation rw := (option_map (rewind windOuter windHole)).

Lemma forHoleKids_rewinds (holeKids : list PolyNode) :
  Forall rewinds holeKids ->
  forall out,
    forHoleKids build holeKids (map rw out)
    = map rw (forHoleKids
                (buildFromOuter Initial.windOuter Initial.windHole)
                holeKids out).
Proof.
  induction 1 as [|hk rest Hhk _ IH]; intros out; [reflexivity|].
  cbn [forHoleKids]. destruct (IsHole hk); cbn [negb]; [apply IH|].
  rewrite (Hhk out).
  destruct (buildFromOuter Initial.windOuter Initial.windHole hk out)
    as [s o]. cbn [fst snd].
  rewrite <- IH, map_app. reflexivity.
Qed.

Lemma forChildren_rewinds (children : list PolyNode) :
  Forall (fun ch => Forall rewinds (Childs ch)) children ->
  forall hs hs' out,
    snd (forChildren windHole build children hs (map rw out))
    = map rw (snd (forChildren Initial.windHole
                     (buildFromOuter Initial.windOuter Initial.windHole)
                     children hs' out)).
Proof.
  induction 1 as [|ch rest Hch _ IH]; intros hs hs' out; [reflexivity|].
  rewrite !forChildren_cons.
  destruct (IsHole ch); cbn [negb]; [|apply IH].
  rewrite (forHoleKids_rewinds _ Hch). apply IH.
Qed.

Lemma holesOf_rewind (children : list PolyNode) :
  holesOf windHole children
  = map windHole (holesOf Initial.windHole children).
Proof.
  unfold holesOf. rewrite map_map. reflexivity.
Qed.

Lemma buildFromOuter_rewinds_rec (n : PolyNode) :
  rewinds n /\ Forall rewinds (Childs n).
Proof.
  induction n as [h c k IH] using PolyNode_Forall_ind.
  assert (Hk : Forall rewinds k).
  { eapply Forall_impl; [exact IH|]. intros m [Hm _]. exact Hm. }
  split; [|exact Hk].
  intros out. cbn [buildFromOuter].
  destruct (length c <? 3)%nat; [reflexivity|].
  assert (Hgk : Forall (fun ch => Forall rewinds (Childs ch)) k).
  { eapply Forall_impl; [exact IH|]. intros m [_ Hm]. exact Hm. }
  pose proof (forChildren_rewinds k Hgk [] [] out) as Hs.
  pose proof (forChildren_holes windHole build k [] (map rw out)) as Hh.
  pose proof (forChildren_holes Initial.windHole
                (buildFromOuter Initial.windOuter Initial.windHole)
                k [] out) as Hh'.
  destruct (forChildren windHole build k [] (map rw out)) as [hs o].
  destruct (forChildren Initial.windHole
              (buildFromOuter Initial.windOuter Initial.windHole) k [] out)
    as [hs' o'].
  cbn [fst snd app] in *. subst o hs hs'.
  cbn [option_map]. unfold rewind. cbn [points holes].
  rewrite holesOf_rewind. reflexivity.
Qed.

Lemma forRoots_rewinds (roots : list PolyNode) :
  forall out,
    forRoots windOuter windHole roots (map rw out)
    = map rw (forRoots Initial.windOuter Initial.windHole roots out).
Proof.
  induction roots as [|n rest IH]; intros out; [reflexivity|].
  cbn [forRoots]. destruct (IsHole n); [apply IH|].
  destruct (buildFromOuter_rewinds_rec n) as [Hn _]. rewrite (Hn out).
  destruct (buildFromOuter Initial.windOuter Initial.windHole n out)
    as [[s|] o]; cbn [fst snd option_map].
  - rewrite <- IH, map_app. reflexivity.
  - apply IH.
Qed.

End ReconstructMore.

(** X2. Every shape [polyTreeToThreeShapes] returns is the region of a fill
    area of the tree, on any tree and in both designers: a root that is
    no hole or a non-hole node nested in holes below one, with a contour
    of three points or more; its boundary is that contour and its holes
    are the contours of its direct hole children. No shape is made of a
    hole, of a node below a root that is a hole, or of a contour of
    fewer than three points. *)
Theorem shapes_come_from_islands (tree : PolyTree) (s : Shape) :
  (In (Some s) (Outline.polyTreeToThreeShapes tree) ->
   exists n, Island tree n /\ polygonal n /\
             s = regionOf Outline.windOuter Outline.windHole n) /\
  (In (Some s) (Initial.polyTreeToThreeShapes tree) ->
   exists n, Island tree n /\ polygonal n /\
             s = regionOf Initial.windOuter Initial.windHole n).
Proof.
  split; apply polyTreeToThreeShapes_sound.
Qed.

Lemma shapes_come_from_islands_witness :
  let s := regionOf Initial.windOuter Initial.windHole nested_island in
  In (Some s) (Initial.polyTreeToThreeShapes nested_tree) /\
  exists n, Island nested_tree n /\ polygonal n /\
            s = regionOf Initial.windOuter Initial.windHole n.
Proof.
  cbv zeta.
  assert (Hin : In (Some (regionOf Initial.windOuter Initial.windHole
                            nested_island))
                  (Initial.polyTreeToThreeShapes nested_tree))
    by (left; reflexivity).
  split; [exact Hin|].
  exact (proj2 (shapes_come_from_islands nested_tree _) Hin).
Defined.

(** X4. The two designers reconstruct the same shapes up to winding: the
    result of the outline designer is the result of the initial designer
    with every outer boundary and every hole passed through the winding
    step, entry by entry. In particular both return the same number of
    shapes with the same numbers of holes. *)
Theorem outline_shapes_are_rewound (tree : PolyTree) :
  Outline.polyTreeToThreeShapes tree
  = map (option_map (rewind Outline.windOuter Outline.windHole))
      (Initial.polyTreeToThreeShapes tree).
Proof.
  unfold Outline.polyTreeToThreeShapes, Initial.polyTreeToThreeShapes,
    polyTreeToThreeShapes.
  exact (forRoots_rewinds Outline.windOuter Outline.windHole tree []).
Qed.

(** X3. In the outline designer every reconstructed shape is wound for the
    extrusion, on any tree: its outer boundary is the contour of its
    fill area or the reverse of it and is not clockwise, and each of
    its holes is the contour of a hole child or the reverse of it and
    has no positive signed area. *)
Theorem outline_shapes_are_wound (tree : PolyTree) (s : Shape) :
  In (Some s) (Outline.polyTreeToThreeShapes tree) ->
  ShapeUtils.isClockWise (points s) = false /\
  Forall (fun h => ShapeUtils.area h <= 0) (holes s) /\
  exists n,
    Island tree n /\
    (points s = map toVec2 (Contour n) \/
     points s = rev (map toVec2 (Contour n))) /\
    Forall (fun h =>
      exists ch, In ch (Childs n) /\ IsHole ch = true /\
                 (h = map toVec2 (Contour ch) \/
                  h = rev (map toVec2 (Contour ch))))
      (holes s).
Proof.
  intros Hin.
  destruct (polyTreeToThreeShapes_sound Outline.windOuter Outline.windHole
              tree s Hin) as (n & Hn & _ & ->).
  unfold regionOf. cbn [points holes].
  split; [apply ShapeUtilsFacts.windOuter_ccw|]. split.
  - unfold holesOf. apply List.Forall_forall. intros h Hh.
    apply in_map_iff in Hh. destruct Hh as (ch & <- & _).
    apply ShapeUtilsFacts.windHole_cw.
  - exists n. split; [exact Hn|]. split.
    + unfold Outline.windOuter. destruct (ShapeUtils.isClockWise _); auto.
    + unfold holesOf. apply List.Forall_forall. intros h Hh.
      apply in_map_iff in Hh. destruct Hh as (ch & <- & Hch).
      apply filter_In in Hch. destruct Hch as [Hch Hf].
      apply andb_prop in Hf. destruct Hf as [Hf _].
      exists ch. split; [exact Hch|]. split; [exact Hf|].
      unfold Outline.windHole. destruct (negb _); auto.
Qed.

Lemma outline_shapes_are_wound_witness :
  let s := regionOf Outline.windOuter Outline.windHole nested_island in
  In (Some s) (Outline.polyTreeToThreeShapes nested_tree) /\
  ShapeUtils.isClockWise (points s) = false.
Proof.
  cbv zeta.
  assert (Hin : In (Some (regionOf Outline.windOuter Outline.windHole
                            nested_island))
                  (Outline.polyTreeToThreeShapes nested_tree))
    by (left; reflexivity).
  split; [exact Hin|].
  exact (proj1 (outline_shapes_are_wound nested_tree _ Hin)).
Defined.

(** ** The bounding box of a tree *)

Lemma widen_emptyBox (p : IntPoint) :
  widen emptyBox p = boxOf (X p) (X p) (Y p) (Y p).
Proof. reflexivity. Qed.

Lemma Math_min_inject_Z (a b : Z) :
  JS.Math_min (inject_Z a) (inject_Z b) = inject_Z (Z.min a b).
Proof.
  unfold JS.Math_min. destruct (Qlt_le_dec _ _) as [H|H].
  - rewrite <- Zlt_Qlt in H. rewrite Z.min_r by lia. reflexivity.
  - rewrite <- Zle_Qle in H. rewrite Z.min_l by lia. reflexivity.
Qed.

Lemma Math_max_inject_Z (a b : Z) :
  JS.Math_max (inject_Z a) (inject_Z b) = inject_Z (Z.max a b).
Proof.
  unfold JS.Math_max. destruct (Qlt_le_dec _ _) as [H|H].
  - rewrite <- Zlt_Qlt in H. rewrite Z.max_r by lia. reflexivity.
  - rewrite <- Zle_Qle in H. rewrite Z.max_l by lia. reflexivity.
Qed.

Lemma widen_boxOf (x0 x1 y0 y1 : Z) (p : IntPoint) :
  widen (boxOf x0 x1 y0 y1) p
  = boxOf (Z.min x0 (X p)) (Z.max x1 (X p)) (Z.min y0 (Y p)) (Z.max y1 (Y p)).
Proof.
  unfold widen, boxOf. cbn [minX maxX minY maxY JS.num_min JS.num_max].
  rewrite !Math_min_inject_Z, !Math_max_inject_Z. reflexivity.
Qed.

Lemma box_after_widen (b : BBox) (seen : list IntPoint) (p : IntPoint) :
  box_after b seen -> smallest_box (widen b p) (seen ++ [p]).
Proof.
  intros [[-> ->]|(x0 & x1 & y0 & y1 & -> & Hall & Hx0 & Hx1 & Hy0 & Hy1)].
  - rewrite widen_emptyBox. exists (X p), (X p), (Y p), (Y p).
    split; [reflexivity|]. cbn [app]. split.
    + intros q [<-|[]]. lia.
    + repeat split; exists p; (split; [left; reflexivity|reflexivity]).
  - rewrite widen_boxOf.
    exists (Z.min x0 (X p)), (Z.max x1 (X p)),
           (Z.min y0 (Y p)), (Z.max y1 (Y p)).
    split; [reflexivity|]. split.
    + intros q Hq. apply in_app_or in Hq. destruct Hq as [Hq|[<-|[]]].
      * destruct (Hall q Hq). lia.
      * lia.
    + assert (Hl : forall q, In q seen -> In q (seen ++ [p]))
        by (intros q Hq; apply in_or_app; left; exact Hq).
      assert (Hp : In p (seen ++ [p]))
        by (apply in_or_app; right; left; reflexivity).
      destruct Hx0 as (a & Ha & Ea), Hx1 as (b & Hb & Eb),
               Hy0 as (c & Hc & Ec), Hy1 as (d & Hd & Ed).
      split; [|split; [|split]].
      * destruct (Z.min_spec x0 (X p)) as [[_ ->]|[_ ->]];
          [exists a|exists p]; auto.
      * destruct (Z.max_spec x1 (X p)) as [[_ ->]|[_ ->]];
          [exists p|exists b]; auto.
      * destruct (Z.min_spec y0 (Y p)) as [[_ ->]|[_ ->]];
          [exists c|exists p]; auto.
      * destruct (Z.max_spec y1 (Y p)) as [[_ ->]|[_ ->]];
          [exists p|exists d]; auto.
Qed.

Lemma box_after_points (pts : list IntPoint) :
  forall b seen,
    box_after b seen -> box_after (fold_left widen pts b) (seen ++ pts).
Proof.
  induction pts as [|p rest IH]; intros b seen H.
  - rewrite app_nil_r. exact H.
  - cbn [fold_left].
    replace (seen ++ p :: rest) with ((seen ++ [p]) ++ rest)
      by (rewrite <- app_assoc; reflexivity).
    apply IH. right. apply box_after_widen, H.
Qed.

Lemma fold_left_flat_map {A B S : Type} (f : S -> B -> S) (g : A -> list B)
  (h : S -> A -> S) (l : list A) :
  Forall (fun a => forall s, h s a = fold_left f (g a) s) l ->
  forall s, fold_left h l s = fold_left f (flat_map g l) s.
Proof.
  induction 1 as [|a rest Ha _ IH]; intros s; [reflexivity|].
  cbn [fold_left flat_map]. rewrite fold_left_app, <- Ha. apply IH.
Qed.

Lemma collect_points (n : PolyNode) :
  forall b, collect n b = fold_left widen (nodePoints n) b.
Proof.
  induction n as [h c k IH] using PolyNode_Forall_ind. intros b.
  cbn [collect nodePoints]. rewrite fold_left_app.
  apply (fold_left_flat_map widen nodePoints (fun b ch => collect ch b)).
  exact IH.
Qed.

Lemma getTreeBbox_points (tree : PolyTree) :
  getTreeBbox tree = fold_left widen (treePoints tree) emptyBox.
Proof.
  unfold getTreeBbox, treePoints.
  apply (fold_left_flat_map widen nodePoints (fun b n => collect n b)).
  apply List.Forall_forall. intros n _. apply collect_points.
Qed.

(** X5. [getTreeBbox] walks every node, holes and the islands in them
    included: when the tree has a point, the four sides it returns are
    integers, every point of the tree lies between them, and each side
    is the coordinate of some point of the tree. *)
Theorem getTreeBbox_smallest (tree : PolyTree) :
  treePoints tree <> [] ->
  exists x0 x1 y0 y1,
    getTreeBbox tree = boxOf x0 x1 y0 y1 /\
    (forall p, In p (treePoints tree) ->
       (x0 <= X p <= x1)%Z /\ (y0 <= Y p <= y1)%Z) /\
    (exists p, In p (treePoints tree) /\ X p = x0) /\
    (exists p, In p (treePoints tree) /\ X p = x1) /\
    (exists p, In p (treePoints tree) /\ Y p = y0) /\
    (exists p, In p (treePoints tree) /\ Y p = y1).
Proof.
  intros Hne. rewrite getTreeBbox_points.
  destruct (box_after_points (treePoints tree) emptyBox [])
    as [[E _]|H].
  - left. split; reflexivity.
  - cbn [app] in E. contradiction.
  - exact H.
Qed.

Lemma getTreeBbox_smallest_witness :
  treePoints nested_tree <> [] /\
  exists x0 x1 y0 y1, getTreeBbox nested_tree = boxOf x0 x1 y0 y1.
Proof.
  assert (Hne : treePoints nested_tree <> []) by discriminate.
  split; [exact Hne|].
  destruct (getTreeBbox_smallest nested_tree Hne)
    as (x0 & x1 & y0 & y1 & E & _).
  exists x0, x1, y0, y1. exact E.
Defined.

(** ** The paths the keyring is united with *)

Lemma collectOuterPaths_hole (n : PolyNode) (out : list Path) :
  IsHole n = true -> collectOuterPaths n out = out.
Proof. destruct n as [h c k]. cbn. intros ->. reflexivity. Qed.

Lemma collectOuterPaths_holes (children : list PolyNode) :
  Forall (fun ch => IsHole ch = true) children ->
  forall out, fold_left (fun o ch => collectOuterPaths ch o) children out = out.
Proof.
  induction 1 as [|ch rest Hch _ IH]; intros out; [reflexivity|].
  cbn [fold_left]. rewrite collectOuterPaths_hole by exact Hch. apply IH.
Qed.

Lemma collectOuterPaths_roots (tree : PolyTree) :
  holes_below_roots tree ->
  forall out,
    fold_left (fun o n => collectOuterPaths n o) tree out
    = out ++ rootContours tree.
Proof.
  unfold holes_below_roots, rootContours.
  induction 1 as [|n rest Hn _ IH]; intros out.
  - cbn. rewrite app_nil_r. reflexivity.
  - cbn [fold_left List.filter]. rewrite IH.
    destruct n as [h c k]. cbn [collectOuterPaths IsHole Contour Childs] in *.
    destruct h; cbn [negb andb]; [reflexivity|].
    rewrite collectOuterPaths_holes by (apply Hn; reflexivity).
    destruct (3 <=? length c)%nat; cbn [map Contour].
    + rewrite <- app_assoc. reflexivity.
    + reflexivity.
Qed.

(** X6. On a tree as the clipper returns it (the children of a fill area
    are holes) [collectOuterPaths] keeps the contours of the root fill
    areas of three points or more, in order, and nothing else: holes are
    dropped, and so is every island inside a hole. *)
Theorem outerPathsOf_root_contours (tree : PolyTree) :
  holes_below_roots tree ->
  outerPathsOf tree = rootContours tree.
Proof.
  intros H. unfold outerPathsOf.
  rewrite (collectOuterPaths_roots tree H []). reflexivity.
Qed.

Lemma outerPathsOf_root_contours_witness :
  holes_below_roots nested_tree /\
  outerPathsOf nested_tree
  = [[ mkIntPoint 0 0; mkIntPoint 9000 0; mkIntPoint 9000 9000;
       mkIntPoint 0 9000 ]].
Proof.
  assert (H : holes_below_roots nested_tree).
  { repeat constructor. }
  split; [exact H|].
  rewrite (outerPathsOf_root_contours nested_tree H). reflexivity.
Defined.

(** ** The keyring circles *)

Section Circles.

Context {C : Collaborators}.

Lemma circleToPath_length (cx cy : JS.num) (r : Q) (clockwise : bool)
  (segs : nat) :
  (3 <= segs)%nat ->
  exists path,
    circleToPath cx cy r clockwise segs = Some path /\ length path = segs.
Proof.
  intros H. unfold circleToPath.
  rewrite length_map, length_seq.
  destruct (segs <? 3)%nat eqn:E; [apply Nat.ltb_lt in E; lia|].
  destruct (Bool.eqb _ _); eexists; (split; [reflexivity|]);
    rewrite ?length_rev, length_map, length_seq; reflexivity.
Qed.

Lemma circleToPath_few (cx cy : JS.num) (r : Q) (clockwise : bool)
  (segs : nat) :
  (segs < 3)%nat -> circleToPath cx cy r clockwise segs = None.
Proof.
  intros H. unfold circleToPath.
  rewrite length_map, length_seq.
  destruct (segs <? 3)%nat eqn:E; [reflexivity|].
  apply Nat.ltb_ge in E. lia.
Qed.

(** The points of a circle around a centre at (+Infinity, -Infinity). *)
Lemma circleToPath_at_infinity (offX offY r : Q) (clockwise : bool)
  (segs : nat) (path : EPath) :
  circleToPath
    (JS.num_add (JS.num_div JS.PosInf SCALE) (JS.Fin offX))
    (JS.num_add (JS.num_div JS.NegInf SCALE) (JS.Fin offY))
    r clockwise segs = Some path ->
  Forall (fun pt => pt = mkEPoint JS.PosInf JS.NegInf) path.
Proof.
  unfold circleToPath.
  set (pts := map _ (seq 0 segs)).
  assert (Hpts : Forall (fun pt => pt = mkEPoint JS.PosInf JS.NegInf) pts).
  { subst pts. apply List.Forall_forall. intros pt Hpt.
    apply in_map_iff in Hpt. destruct Hpt as (i & <- & _). reflexivity. }
  destruct (length pts <? 3)%nat; [discriminate|].
  destruct (Bool.eqb _ _); intros [= <-]; [exact Hpts|].
  apply List.Forall_forall. intros pt Hpt. apply in_rev in Hpt.
  rewrite List.Forall_forall in Hpts. apply Hpts, Hpt.
Qed.


(** X8. When the outline has no point at all (a text whose glyphs have no
    contour), the bounding box keeps its initial sides, and the keyring
    circles are built around (+Infinity, -Infinity): every one of their
    points has these coordinates, whatever the radii and offsets. *)
Theorem keyring_of_empty_outline (p : Outline.Params)
  (outlineTree : PolyTree) :
  Outline.keyringEnabled p = true ->
  treePoints outlineTree = [] ->
  getTreeBbox outlineTree = emptyBox /\
  exists outerCircle innerCircle,
    Forall (fun pt => pt = mkEPoint JS.PosInf JS.NegInf) outerCircle /\
    Forall (fun pt => pt = mkEPoint JS.PosInf JS.NegInf) innerCircle /\
    Outline.baseTreeOf p outlineTree
    = Clipper_difference
        (map embedPath
           (outerPathsOf
              (Clipper_union
                 (map embedPath (outerPathsOf outlineTree)
                  ++ [outerCircle]))))
        [innerCircle].
Proof.
  intros Hk He.
  assert (Hb : getTreeBbox outlineTree = emptyBox).
  { rewrite getTreeBbox_points, He. reflexivity. }
  split; [exact Hb|].
  unfold Outline.baseTreeOf. rewrite Hk, Hb. cbv zeta.
  cbn [minX maxY emptyBox].
  match goal with
  | |- context [circleToPath ?kx ?ky (Outline.outerR p) true 64] =>
      destruct (circleToPath_length kx ky (Outline.outerR p) true 64)
        as (oc & Eo & _); [lia|];
      destruct (circleToPath_length kx ky (Outline.innerR p) false 64)
        as (ic & Ei & _); [lia|]
  end.
  rewrite Eo, Ei. exists oc, ic.
  split; [eapply circleToPath_at_infinity, Eo|].
  split; [eapply circleToPath_at_infinity, Ei|reflexivity].
Qed.

(** ** The width of the outline *)

Lemma outlineWorld_not_positive (off size : Q) :
  off <= 0 -> ~ 0 < JS.Math_max 0 off * (size / 60).
Proof.
  intros H. unfold JS.Math_max.
  destruct (Qlt_le_dec 0 off) as [H1|H1]; [lra|].
  intros H2. assert (E : 0 * (size / 60) == 0) by ring. lra.
Qed.

(** X9. An outline width of zero or less is taken as no outline at all, not
    as an inset: the tree of the base is the union of the very paths of
    the text, in the outline designer (without keyring) and in the
    initial designer. *)
Theorem no_outline_base_is_text (f : Utils.Font)
  (po : Outline.Params) (pi : Initial.Params) :
  (Outline.outlineOffsetPx po <= 0 ->
   Outline.keyringEnabled po = false ->
   snd (Outline.treesOf f po) = fst (Outline.treesOf f po)) /\
  (Initial.outlineOffsetPx pi <= 0 ->
   snd (Initial.treesOf f pi) = fst (Initial.treesOf f pi)).
Proof.
  split.
  - intros Ho Hk. unfold Outline.treesOf, Outline.baseTreeOf, outlineTreeOf.
    cbn [fst snd]. rewrite Hk.
    destruct (Qlt_le_dec 0 _) as [H|H]; [|reflexivity].
    exfalso. exact (outlineWorld_not_positive _ _ Ho H).
  - intros Ho. unfold Initial.treesOf, outlineTreeOf. cbn [fst snd].
    destruct (Qlt_le_dec 0 _) as [H|H]; [|reflexivity].
    exfalso. exact (outlineWorld_not_positive _ _ Ho H).
Qed.

End Circles.


Lemma keyring_of_empty_outline_witness :
  Outline.keyringEnabled shallowParams = true /\
  treePoints pointless_tree = [] /\
  getTreeBbox pointless_tree = emptyBox.
Proof.
  split; [reflexivity|]. split; [reflexivity|].
  exact (proj1 (@keyring_of_empty_outline sampleCollaborators shallowParams
                  pointless_tree eq_refl eq_refl)).
Defined.

Lemma no_outline_base_is_text_witness :
  Outline.outlineOffsetPx noOutlineParams <= 0 /\
  Outline.keyringEnabled noOutlineParams = false /\
  Initial.outlineOffsetPx insetParams <= 0 /\
  snd (@Outline.treesOf sampleCollaborators sampleFont noOutlineParams)
  = fst (@Outline.treesOf sampleCollaborators sampleFont noOutlineParams) /\
  snd (@Initial.treesOf sampleCollaborators sampleFont insetParams)
  = fst (@Initial.treesOf sampleCollaborators sampleFont insetParams).
Proof.
  assert (H1 : Outline.outlineOffsetPx noOutlineParams <= 0) by discriminate.
  assert (H2 : Initial.outlineOffsetPx insetParams <= 0) by discriminate.
  destruct (@no_outline_base_is_text sampleCollaborators sampleFont
              noOutlineParams insetParams) as [Ho Hi].
  split; [exact H1|]. split; [reflexivity|]. split; [exact H2|].
  split; [exact (Ho H1 eq_refl)|exact (Hi H2)].
Defined.

(** ** The ring of the initial designer *)

(** X10. The initial designer clamps the sizes before it calls
    [makeKeyringGeometry]: whatever the settings, the ring it builds has
    an outer radius of at least 0.5, a hole radius of at least 0.05 that
    stays 0.1 or more below the outer radius, a depth of at least 0.1,
    and sits at z = 0. *)
Theorem initial_ring_has_a_hole `{C : Collaborators}
  (f fontForInitial : Utils.Font) (p : Initial.Params) (m : Mesh) :
  In m (Initial.composite f fontForInitial p) ->
  layer m = ringMesh ->
  Initial.keyringEnabled p = true /\
  position_z m = 0 /\
  exists outerRadius innerRadius depth,
    geometry m = ExtrudeRing outerRadius innerRadius depth /\
    (1 # 2) <= outerRadius /\
    (1 # 20) <= innerRadius /\
    innerRadius <= outerRadius - (1 # 10) /\
    (1 # 10) <= depth.
Proof.
  unfold Initial.composite. destruct (Initial.treesOf f p) as [ft ot].
  cbv zeta. intros Hin Hl.
  apply in_app_or in Hin. destruct Hin as [Hin|Hin].
  { destruct (0 <? _)%nat; [|destruct Hin].
    destruct Hin as [<-|[<-|[]]]; discriminate. }
  apply in_app_or in Hin. destruct Hin as [Hin|Hin].
  { destruct Hin as [<-|[<-|[]]]; discriminate. }
  destruct (Initial.keyringEnabled p); [|destruct Hin].
  destruct Hin as [<-|[]]. split; [reflexivity|]. split; [reflexivity|].
  unfold Utils.makeKeyringGeometry. do 3 eexists.
  split; [reflexivity|].
  unfold Utils.keyringInnerRadius, Utils.keyringOuterRadius.
  set (o := Initial.keyringOuterSize p). set (h := Initial.keyringHoleSize p).
  set (d := Initial.keyringDepth p).
  pose proof (Math_max_lower 1 o) as [Ho _].
  set (M := JS.Math_max 1 o) in *.
  pose proof (Math_max_lower (1 # 10) (M / 2)) as [_ HR].
  set (R := JS.Math_max (1 # 10) (M / 2)) in *.
  set (I := JS.Math_max (1 # 10) (JS.Math_min h (o - (1 # 2)))).
  pose proof (Math_max_lower (1 # 20) (I / 2)) as [HA _].
  set (A := JS.Math_max (1 # 20) (I / 2)) in *.
  pose proof (Math_max_lower (1 # 10) (JS.Math_max (1 # 10) d)) as [Hd _].
  unfold Qdiv in *; change (/ 2) with (1 # 2) in *.
  destruct (Math_min_spec A (R - (1 # 10))) as [[H3 E3]|[H3 E3]];
    rewrite E3; repeat split; lra.
Qed.

Lemma initial_ring_has_a_hole_witness :
  In nameRing nameGroup /\ layer nameRing = ringMesh /\
  position_z nameRing = 0.
Proof.
  assert (Hin : In nameRing nameGroup) by (vm_compute; auto 10).
  split; [exact Hin|]. split; [reflexivity|].
  exact (proj1 (proj2 (@initial_ring_has_a_hole sampleCollaborators
                         sampleFont sampleFont initialDefaults nameRing
                         Hin eq_refl))).
Defined.

(** ** Who may export *)

Section ExportGate.

Context {C : Collaborators}.

Lemma Outline_export_gate (status : LicenseStatus)
  (during : Outline.State -> Outline.State) (st : Outline.State)
  (b : Buffer) :
  In (downloadBlob b) (fst (Outline.exportSTL status during st)) ->
  exists u rest,
    Outline.user st = Some u /\ canExport status = true /\
    fst (Outline.exportSTL status during st) = checkLicenseStatus u :: rest.
Proof.
  unfold Outline.exportSTL, Outline.exportSTL_begin.
  destruct (Outline.group st); [|intros []].
  destruct (Outline.scene st); [|intros []].
  destruct (Outline.user st) as [u|]; [|intros H; in_cases H].
  destruct (Outline.exportSTL_resume status (during st)) as [eff st'] eqn:E.
  cbn [fst]. intros H. exists u, eff.
  split; [reflexivity|]. split; [|reflexivity].
  destruct (canExport status) eqn:Ec; [reflexivity|].
  unfold Outline.exportSTL_resume in E. rewrite Ec in E. cbn [negb] in E.
  injection E as <- <-. in_cases H.
Qed.

Lemma Flower_export_gate (status : LicenseStatus)
  (during : Flower.State -> Flower.State) (st : Flower.State)
  (b : Buffer) :
  In (downloadBlob b) (fst (Flower.exportSTL status during st)) ->
  exists u rest,
    Flower.user st = Some u /\ canExport status = true /\
    fst (Flower.exportSTL status during st) = checkLicenseStatus u :: rest.
Proof.
  unfold Flower.exportSTL, Flower.exportSTL_begin.
  destruct (Flower.group st); [|intros []].
  destruct (Flower.scene st); [|intros []].
  destruct (Flower.user st) as [u|]; [|intros H; in_cases H].
  destruct (Flower.exportSTL_resume status (during st)) as [eff st'] eqn:E.
  cbn [fst]. intros H. exists u, eff.
  split; [reflexivity|]. split; [|reflexivity].
  destruct (canExport status) eqn:Ec; [reflexivity|].
  unfold Flower.exportSTL_resume in E. rewrite Ec in E. cbn [negb] in E.
  injection E as <- <-. in_cases H.
Qed.

Lemma NameTag_export_gate
  (planar : NameTag.Params -> option (Shape * option Shape))
  (status : LicenseStatus)
  (during : NameTag.State -> NameTag.State) (st : NameTag.State)
  (b : Buffer) :
  In (downloadBlob b) (fst (NameTag.exportSTL planar status during st)) ->
  exists u rest,
    NameTag.user st = Some u /\ canExport status = true /\
    fst (NameTag.exportSTL planar status during st)
    = checkLicenseStatus u :: rest.
Proof.
  unfold NameTag.exportSTL, NameTag.exportSTL_begin.
  destruct (NameTag.user st) as [u|]; [|intros H; in_cases H].
  destruct (NameTag.exportSTL_resume planar status (during st))
    as [eff st'] eqn:E.
  cbn [fst]. intros H. exists u, eff.
  split; [reflexivity|]. split; [|reflexivity].
  destruct (canExport status) eqn:Ec; [reflexivity|].
  unfold NameTag.exportSTL_resume in E. rewrite Ec in E. cbn [negb] in E.
  injection E as <- <-. in_cases H.
Qed.

Lemma Initial_export_gate (status : LicenseStatus)
  (during : Initial.State -> Initial.State) (st : Initial.State)
  (b : Buffer) :
  In (downloadBlob b) (fst (Initial.exportSTL status during st)) ->
  exists u rest,
    Initial.user st = Some u /\ canExport status = true /\
    fst (Initial.exportSTL status during st) = checkLicenseStatus u :: rest.
Proof.
  unfold Initial.exportSTL, Initial.exportSTL_begin.
  destruct (Initial.group st); [|intros []].
  destruct (Initial.user st) as [u|]; [|intros H; in_cases H].
  unfold Initial.exportSTL_resume.
  destruct (canExport status); cbn [negb fst]; [|intros H; in_cases H].
  destruct (Initial.group (during st)); cbn [fst]; intros _;
    eexists; eexists; (split; [reflexivity|]); (split; reflexivity).
Qed.

(** X11. In all four designers a file is downloaded only for a signed-in
    user whose license status allows the export, and the license check
    is the first thing the export does. *)
Theorem download_needs_user_and_license
  (planar : NameTag.Params -> option (Shape * option Shape))
  (status : LicenseStatus) (b : Buffer)
  (so : Outline.State) (sf : Flower.State)
  (sn : NameTag.State) (si : Initial.State)
  (dO : Outline.State -> Outline.State) (dF : Flower.State -> Flower.State)
  (dN : NameTag.State -> NameTag.State)
  (dI : Initial.State -> Initial.State) :
  (In (downloadBlob b) (fst (Outline.exportSTL status dO so)) ->
   exists u rest,
     Outline.user so = Some u /\ canExport status = true /\
     fst (Outline.exportSTL status dO so) = checkLicenseStatus u :: rest) /\
  (In (downloadBlob b) (fst (Flower.exportSTL status dF sf)) ->
   exists u rest,
     Flower.user sf = Some u /\ canExport status = true /\
     fst (Flower.exportSTL status dF sf) = checkLicenseStatus u :: rest) /\
  (In (downloadBlob b) (fst (NameTag.exportSTL planar status dN sn)) ->
   exists u rest,
     NameTag.user sn = Some u /\ canExport status = true /\
     fst (NameTag.exportSTL planar status dN sn)
     = checkLicenseStatus u :: rest) /\
  (In (downloadBlob b) (fst (Initial.exportSTL status dI si)) ->
   exists u rest,
     Initial.user si = Some u /\ canExport status = true /\
     fst (Initial.exportSTL status dI si) = checkLicenseStatus u :: rest).
Proof.
  split; [apply Outline_export_gate|].
  split; [apply Flower_export_gate|].
  split; [apply NameTag_export_gate|apply Initial_export_gate].
Qed.

(** X12. What the outline and the flower designer download is the
    serialization of one mesh: the children of the group as rebuilt
    after the license check, merged and welded with tolerance 0.001; it
    has at least 84 bytes, and it is downloaded right after the
    serializer ran. *)
Theorem download_is_the_welded_rebuild (status : LicenseStatus) (b : Buffer)
  (so : Outline.State) (sf : Flower.State)
  (dO : Outline.State -> Outline.State)
  (dF : Flower.State -> Flower.State) :
  (In (downloadBlob b) (fst (Outline.exportSTL status dO so)) ->
   exists children merged,
     Outline.group (Outline.rebuildMeshes (dO so)) = Some children /\
     snd (Outline.exportSTL status dO so) = Outline.rebuildMeshes (dO so) /\
     mergeGeometries (map worldGeometry children) = Some merged /\
     b = STLExporter_parse (SingleMesh (mergeVertices merged (1 # 1000))) /\
     (84 <= byteLength b)%nat) /\
  (In (downloadBlob b) (fst (Flower.exportSTL status dF sf)) ->
   exists children merged,
     Flower.group (Flower.rebuildMeshes (dF sf)) = Some children /\
     snd (Flower.exportSTL status dF sf) = Flower.rebuildMeshes (dF sf) /\
     mergeGeometries (map worldGeometry children) = Some merged /\
     b = STLExporter_parse (SingleMesh (mergeVertices merged (1 # 1000))) /\
     (84 <= byteLength b)%nat).
Proof.
  split.
  - unfold Outline.exportSTL, Outline.exportSTL_begin,
      Outline.exportSTL_resume.
    destruct (Outline.group so); [|intros []].
    destruct (Outline.scene so); [|intros []].
    destruct (Outline.user so); [|intros H; in_cases H].
    destruct (canExport status); cbn [negb fst]; [|intros H; in_cases H].
    destruct (Outline.group (Outline.rebuildMeshes (dO so))) as [ch|];
      cbn [fst]; [|intros H; in_cases H].
    destruct (map worldGeometry ch) as [|x xs] eqn:Eg;
      cbn [fst]; [intros H; in_cases H|].
    destruct (mergeGeometries (x :: xs)) as [mg|] eqn:Em;
      cbn [fst snd]; [|intros H; in_cases H].
    intros H. guard_cases H. injection H as <-.
    exists ch, mg. rewrite Eg.
    repeat split; try reflexivity; try assumption.
    apply Nat.leb_le. assumption.
  - unfold Flower.exportSTL, Flower.exportSTL_begin,
      Flower.exportSTL_resume.
    destruct (Flower.group sf); [|intros []].
    destruct (Flower.scene sf); [|intros []].
    destruct (Flower.user sf); [|intros H; in_cases H].
    destruct (canExport status); cbn [negb fst]; [|intros H; in_cases H].
    destruct (Flower.group (Flower.rebuildMeshes (dF sf))) as [ch|];
      cbn [fst]; [|intros H; in_cases H].
    destruct (map worldGeometry ch) as [|x xs] eqn:Eg;
      cbn [fst]; [intros H; in_cases H|].
    destruct (mergeGeometries (x :: xs)) as [mg|] eqn:Em;
      cbn [fst snd]; [|intros H; in_cases H].
    intros H. guard_cases H. injection H as <-.
    exists ch, mg. rewrite Eg.
    repeat split; try reflexivity; try assumption.
    apply Nat.leb_le. assumption.
Qed.

Lemma Outline_thanks (status : LicenseStatus)
  (during : Outline.State -> Outline.State) (st : Outline.State) :
  In onShowThankYou (fst (Outline.exportSTL status during st)) <->
  is_trial status = true /\
  exists obj, In (exporter_parse obj) (fst (Outline.exportSTL status during st)).
Proof.
  unfold Outline.exportSTL, Outline.exportSTL_begin,
    Outline.exportSTL_resume.
  destruct (Outline.group st);
    [|split; [intros []|intros (_ & obj & [])]].
  destruct (Outline.scene st);
    [|split; [intros []|intros (_ & obj & [])]].
  destruct (Outline.user st);
    [|split; [intros H|intros (_ & obj & H)]; in_cases H].
  destruct (canExport status); cbn [negb fst];
    [|split; [intros H|intros (_ & obj & H)]; in_cases H].
  destruct (Outline.group (Outline.rebuildMeshes (during st))) as [ch|];
    cbn [fst]; [|split; [intros H|intros (_ & obj & H)]; in_cases H].
  destruct (map worldGeometry ch) as [|x xs];
    cbn [fst]; [split; [intros H|intros (_ & obj & H)]; in_cases H|].
  destruct (mergeGeometries (x :: xs)) as [mg|];
    cbn [fst]; [|split; [intros H|intros (_ & obj & H)]; in_cases H].
  split.
  - intros H. guard_cases H; (split; [reflexivity|]);
      eexists; right; right; left; reflexivity.
  - intros [-> _]. do 3 right. cbn [app]. apply in_or_app. right.
    left. reflexivity.
Qed.

Lemma Flower_thanks (status : LicenseStatus)
  (during : Flower.State -> Flower.State) (st : Flower.State) :
  In onShowThankYou (fst (Flower.exportSTL status during st)) <->
  is_trial status = true /\
  exists obj, In (exporter_parse obj) (fst (Flower.exportSTL status during st)).
Proof.
  unfold Flower.exportSTL, Flower.exportSTL_begin,
    Flower.exportSTL_resume.
  destruct (Flower.group st);
    [|split; [intros []|intros (_ & obj & [])]].
  destruct (Flower.scene st);
    [|split; [intros []|intros (_ & obj & [])]].
  destruct (Flower.user st);
    [|split; [intros H|intros (_ & obj & H)]; in_cases H].
  destruct (canExport status); cbn [negb fst];
    [|split; [intros H|intros (_ & obj & H)]; in_cases H].
  destruct (Flower.group (Flower.rebuildMeshes (during st))) as [ch|];
    cbn [fst]; [|split; [intros H|intros (_ & obj & H)]; in_cases H].
  destruct (map worldGeometry ch) as [|x xs];
    cbn [fst]; [split; [intros H|intros (_ & obj & H)]; in_cases H|].
  destruct (mergeGeometries (x :: xs)) as [mg|];
    cbn [fst]; [|split; [intros H|intros (_ & obj & H)]; in_cases H].
  split.
  - intros H. guard_cases H; (split; [reflexivity|]);
      eexists; right; right; left; reflexivity.
  - intros [-> _]. do 3 right. cbn [app]. apply in_or_app. right.
    left. reflexivity.
Qed.




Lemma NameTag_thanks
  (planar : NameTag.Params -> option (Shape * option Shape))
  (status : LicenseStatus)
  (during : NameTag.State -> NameTag.State) (st : NameTag.State) :
  In onShowThankYou (fst (NameTag.exportSTL planar status during st)) <->
  is_trial status = true /\
  exists b,
    In (downloadBlob b) (fst (NameTag.exportSTL planar status during st)).
Proof.
  unfold NameTag.exportSTL, NameTag.exportSTL_begin, NameTag.exportSTL_resume,
    NameTag.exportSTL_try.
  destruct (NameTag.user st);
    [|split; [intros H|intros (_ & b & H)]; in_cases H].
  destruct (canExport status); cbn [negb fst];
    [|split; [intros H|intros (_ & b & H)]; in_cases H].
  cbn [NameTag.group NameTag.scene NameTag.with_error].
  destruct (NameTag.group (during st));
    [|split; [intros H|intros (_ & b & H)]; in_cases H].
  destruct (NameTag.scene (during st));
    [|split; [intros H|intros (_ & b & H)]; in_cases H].
  destruct (option_map _ _) as [[|x xs]|]; cbn [fst];
    try (split; [intros H|intros (_ & b & H)]; in_cases H; fail).
  destruct (mergeGeometries (x :: xs)) as [mg|]; cbn [fst];
    [|split; [intros H|intros (_ & b & H)]; in_cases H].
  match goal with
  | |- context [(?n <? 84)%nat] => destruct (n <? 84)%nat
  end; cbn [fst];
    [split; [intros H|intros (_ & b & H)]; in_cases H|].
  split.
  - intros H. guard_cases H. split; [reflexivity|].
    eexists. do 3 right. left. reflexivity.
  - intros [-> _]. do 4 right. left. reflexivity.
Qed.

(** X14. A trial user is thanked by the outline and the flower designer
    whenever the serializer ran, also when the file was too short to be
    downloaded; by the name tag designer only after a download. Nobody
    else is thanked. *)
Theorem thank_you_follows_serialization
  (planar : NameTag.Params -> option (Shape * option Shape))
  (status : LicenseStatus)
  (so : Outline.State) (sf : Flower.State) (sn : NameTag.State)
  (dO : Outline.State -> Outline.State) (dF : Flower.State -> Flower.State)
  (dN : NameTag.State -> NameTag.State) :
  (In onShowThankYou (fst (Outline.exportSTL status dO so)) <->
   is_trial status = true /\
   exists obj, In (exporter_parse obj) (fst (Outline.exportSTL status dO so))) /\
  (In onShowThankYou (fst (Flower.exportSTL status dF sf)) <->
   is_trial status = true /\
   exists obj, In (exporter_parse obj) (fst (Flower.exportSTL status dF sf))) /\
  (In onShowThankYou (fst (NameTag.exportSTL planar status dN sn)) <->
   is_trial status = true /\
   exists b, In (downloadBlob b) (fst (NameTag.exportSTL planar status dN sn))).
Proof.
  split; [apply Outline_thanks|]. split; [apply Flower_thanks|].
  apply NameTag_thanks.
Qed.

End ExportGate.

Lemma download_needs_user_and_license_witness :
  In (downloadBlob emptySTL)
    (fst (@Outline.exportSTL exportingCollaborators licensedStatus
            (fun st => st) outlineState)) /\
  In (downloadBlob emptySTL)
    (fst (@Flower.exportSTL exportingCollaborators licensedStatus
            (fun st => st) flowerState)) /\
  In (downloadBlob emptySTL)
    (fst (@NameTag.exportSTL exportingCollaborators samplePlanar
            licensedStatus (fun st => st) nameTagState)) /\
  In (downloadBlob emptySTL)
    (fst (@Initial.exportSTL exportingCollaborators licensedStatus
            (fun st => st) (initialState initialDefaults []))) /\
  Outline.user outlineState = Some sampleUser /\
  canExport licensedStatus = true.
Proof.
  assert (HO : In (downloadBlob emptySTL)
                 (fst (@Outline.exportSTL exportingCollaborators
                         licensedStatus (fun st => st) outlineState)))
    by (vm_compute; auto 10).
  assert (HF : In (downloadBlob emptySTL)
                 (fst (@Flower.exportSTL exportingCollaborators
                         licensedStatus (fun st => st) flowerState)))
    by (vm_compute; auto 10).
  assert (HN : In (downloadBlob emptySTL)
                 (fst (@NameTag.exportSTL exportingCollaborators samplePlanar
                         licensedStatus (fun st => st) nameTagState)))
    by (vm_compute; auto 10).
  assert (HI : In (downloadBlob emptySTL)
                 (fst (@Initial.exportSTL exportingCollaborators
                         licensedStatus (fun st => st)
                         (initialState initialDefaults []))))
    by (vm_compute; auto 10).
  destruct (@download_needs_user_and_license exportingCollaborators
              samplePlanar licensedStatus emptySTL outlineState flowerState
              nameTagState (initialState initialDefaults [])
              (fun st => st) (fun st => st) (fun st => st) (fun st => st))
    as (GO & GF & GN & GI).
  destruct (GO HO) as (u & rest & Hu & Hc & E).
  pose proof (GF HF) as HF'. pose proof (GN HN) as HN'.
  pose proof (GI HI) as HI'.
  split; [exact HO|]. split; [exact HF|]. split; [exact HN|].
  split; [exact HI|]. split; [reflexivity|exact Hc].
Defined.

Lemma download_is_the_welded_rebuild_witness :
  In (downloadBlob emptySTL)
    (fst (@Outline.exportSTL exportingCollaborators licensedStatus
            (fun st => st) outlineState)) /\
  In (downloadBlob emptySTL)
    (fst (@Flower.exportSTL exportingCollaborators licensedStatus
            (fun st => st) flowerState)) /\
  (84 <= byteLength emptySTL)%nat.
Proof.
  assert (HO : In (downloadBlob emptySTL)
                 (fst (@Outline.exportSTL exportingCollaborators
                         licensedStatus (fun st => st) outlineState)))
    by (vm_compute; auto 10).
  assert (HF : In (downloadBlob emptySTL)
                 (fst (@Flower.exportSTL exportingCollaborators
                         licensedStatus (fun st => st) flowerState)))
    by (vm_compute; auto 10).
  destruct (@download_is_the_welded_rebuild exportingCollaborators
              licensedStatus emptySTL outlineState flowerState
              (fun st => st) (fun st => st)) as (GO & GF).
  destruct (GO HO) as (ch & mg & _ & _ & _ & _ & Hlen).
  pose proof (GF HF) as HF'.
  split; [exact HO|]. split; [exact HF|exact Hlen].
Defined.


(** ** Licensing *)

Lemma Qceiling_div_bounds (a b : Z) :
  (0 < b)%Z ->
  ((Qceiling (inject_Z a / inject_Z b) - 1) * b < a
   <= Qceiling (inject_Z a / inject_Z b) * b)%Z.
Proof.
  intros Hb.
  set (x := inject_Z a / inject_Z b).
  assert (Hb' : inject_Z 0 < inject_Z b) by (rewrite <- Zlt_Qlt; exact Hb).
  change (inject_Z 0) with 0 in Hb'.
  assert (Hx : x * inject_Z b == inject_Z a).
  { subst x. field. intros H. rewrite H in Hb'. discriminate. }
  pose proof (Qle_ceiling x) as H1.
  pose proof (Qceiling_lt x) as H2.
  split.
  - apply (Qmult_lt_r _ _ (inject_Z b) Hb') in H2.
    rewrite Hx, <- inject_Z_mult, <- Zlt_Qlt in H2. exact H2.
  - apply (Qmult_le_r _ _ (inject_Z b) Hb') in H1.
    rewrite Hx, <- inject_Z_mult, <- Zle_Qle in H1. exact H1.
Qed.

Section LicensingFacts.

Variable Date_parse : string -> Licensing.Date.
Variable JSON_parse : string -> option Licensing.LicenseData.
Variable JSON_stringify : Licensing.LicenseData -> string.

Abbreviation getTrialDaysRemaining :=
  (Licensing.getTrialDaysRemaining Date_parse).
Abbreviation checkLicenseStatus :=
  (Licensing.checkLicenseStatus Date_parse JSON_parse JSON_stringify).
Abbreviation trialStatus := (Licensing.trialStatus Date_parse).
Abbreviation retry := (Licensing.retry Date_parse).

(** X15. The days [getTrialDaysRemaining] counts for a trial with a readable
    expiry date: the whole days still needed to reach it, rounded up,
    and zero exactly when the date is reached or passed; a trial that
    ends within seven days of now has at most seven days left. *)
Theorem trial_days_are_rounded_up (row : Licensing.UserTrial)
  (error : option string) (now expiresAt : Z) :
  Date_parse (Licensing.trial_expires_at row) = Some expiresAt ->
  exists days,
    getTrialDaysRemaining (Licensing.Resolved (Some row) error) now
      = Some days /\
    (0 <= days)%Z /\
    (days = 0%Z <-> (expiresAt <= now)%Z) /\
    ((now < expiresAt)%Z ->
     ((days - 1) * Licensing.DAY < expiresAt - now <= days * Licensing.DAY)%Z) /\
    ((expiresAt <= now + Licensing.TRIAL_DURATION_DAYS * Licensing.DAY)%Z ->
     (days <= Licensing.TRIAL_DURATION_DAYS)%Z).
Proof.
  intros Hd. unfold Licensing.getTrialDaysRemaining. rewrite Hd. cbv zeta.
  eexists. split; [reflexivity|].
  assert (HD : (0 < Licensing.DAY)%Z) by reflexivity.
  pose proof (Qceiling_div_bounds (expiresAt - now) Licensing.DAY HD)
    as [H1 H2].
  set (c := Qceiling _) in *.
  unfold Licensing.TRIAL_DURATION_DAYS.
  split; [lia|]. split; [|split].
  - split; intros H; nia.
  - intros H. assert (0 < c)%Z by nia. rewrite Z.max_r by lia. lia.
  - intros H. assert (c <= 7)%Z by nia. lia.
Qed.

Lemma retry_reads (w : Licensing.World) (attempts : nat) :
  forall reads days,
    (reads <= snd (retry w attempts reads days) <= reads + attempts)%nat.
Proof.
  induction attempts as [|n IH]; intros reads days; cbn [Licensing.retry].
  - cbn. lia.
  - destruct (Licensing.is_positive _); cbn [snd]; [lia|].
    specialize (IH (S reads)
      (getTrialDaysRemaining (Licensing.trial_reply w reads)
         (Licensing.trial_now w reads))).
    lia.
Qed.

Lemma trialStatus_cases (w : Licensing.World) (trialInitialized : bool) :
  let '(report, reads) := trialStatus w trialInitialized in
  (exists n, reads = repeat Licensing.call_getTrialDaysRemaining n /\
             (1 <= n <= 4)%nat /\
             (trialInitialized = false -> n = 1%nat)) /\
  Licensing.licenseKey report = None /\
  ((Licensing.status report = mkStatus expired false /\
    Licensing.trialDaysRemaining report = Some (Some 0%Z)) \/
   (Licensing.status report = mkStatus trial true /\
    exists days, Licensing.trialDaysRemaining report = Some days /\
                 Licensing.is_zero days = false)).
Proof.
  unfold Licensing.trialStatus. cbv zeta.
  set (first := getTrialDaysRemaining _ _).
  destruct (Licensing.is_zero first && trialInitialized) eqn:E.
  - pose proof (retry_reads w 3 1 first) as Hr.
    destruct (retry w 3 1 first) as [days reads]. cbn [snd] in Hr.
    split.
    + exists reads. split; [reflexivity|]. split; [lia|].
      intros ->. rewrite andb_false_r in E. discriminate.
    + destruct (Licensing.is_zero days) eqn:Ez; cbn.
      * split; [reflexivity|]. left. split; reflexivity.
      * split; [reflexivity|]. right. split; [reflexivity|].
        exists days. split; [reflexivity|exact Ez].
  - split.
    + exists 1%nat. split; [reflexivity|]. split; [lia|]. reflexivity.
    + destruct (Licensing.is_zero first) eqn:Ez; cbn.
      * split; [reflexivity|]. left. split; reflexivity.
      * split; [reflexivity|]. right. split; [reflexivity|].
        exists first. split; [reflexivity|exact Ez].
Qed.

(** The three ways a check of a signed-in user can go. *)
Lemma checkLicenseStatus_cases (u : User) (w : Licensing.World)
  (store : Licensing.Storage) :
  let result := checkLicenseStatus (Some u) w store in
  let report := fst (fst result) in
  let calls := snd (fst result) in
  exists calls1 store1 trialInitialized,
    (calls1 = [Licensing.call_initializeTrial] \/
     calls1 = [Licensing.call_initializeTrial;
               Licensing.call_restoreLicenseFromServer]) /\
    ((exists key expiresAt,
        Licensing.truthy (Some key) = true /\
        calls = calls1 ++ [Licensing.call_validateDeviceActivation] /\
        snd result = store1 /\
        Licensing.licenseKey report = Some key /\
        Licensing.expiresAt report = expiresAt /\
        Licensing.trialDaysRemaining report = None /\
        ((Licensing.status report = mkStatus expired false /\
          exists d, expiresAt = Some d /\
                    Licensing.Date_before d (Licensing.check_now w) = true) \/
         (Licensing.status report = mkStatus licensed true /\
          Licensing.maxDevices report <> None /\
          forall d, expiresAt = Some d ->
                    Licensing.Date_before d (Licensing.check_now w) = false)))
     \/
     (report = fst (trialStatus w trialInitialized) /\
      calls = calls1
              ++ [Licensing.call_validateDeviceActivation;
                  Licensing.call_clearLicense]
              ++ snd (trialStatus w trialInitialized) /\
      snd result = Licensing.mkStorage None None)
     \/
     (report = fst (trialStatus w trialInitialized) /\
      calls = calls1 ++ snd (trialStatus w trialInitialized) /\
      snd result = store1)).
Proof.
  cbv zeta. unfold Licensing.checkLicenseStatus. cbv zeta.
  set (ti := Licensing.initializeTrial _ _ _).
  assert (Hpre : exists key1 data1 calls1 store1,
            Licensing.licenseAtHand Date_parse JSON_parse JSON_stringify
              w store = (key1, data1, calls1, store1) /\
            (calls1 = [Licensing.call_initializeTrial] \/
             calls1 = [Licensing.call_initializeTrial;
                       Licensing.call_restoreLicenseFromServer])).
  { unfold Licensing.licenseAtHand. cbv zeta. destruct (_ || _).
    - destruct (Licensing.restoreLicenseFromServer _ _ _ _ _ _ _)
        as [[r|] s]; do 4 eexists; (split; [reflexivity|]); auto.
    - do 4 eexists. split; [reflexivity|]. auto. }
  destruct Hpre as (key1 & data1 & calls1 & store1 & -> & Hc).
  exists calls1, store1, ti. split; [exact Hc|].
  destruct (Licensing.truthy key1) eqn:Ek.
  - destruct data1 as [ld|].
    + destruct (Licensing.validateDeviceActivation _ _ _ _ _ _).
      * left. destruct key1 as [key|]; [|discriminate].
        destruct (Licensing.expires_at ld) as [[|c e]|]; cbn [fst snd].
        { exists key, None. split; [exact Ek|].
          repeat (split; [reflexivity|]). right.
          split; [reflexivity|]. split; [discriminate|]. discriminate. }
        { exists key, (Some (Date_parse (String c e))). split; [exact Ek|].
          destruct (Licensing.Date_before _ _) eqn:Eb; cbn [fst snd].
          - repeat (split; [reflexivity|]). left. split; [reflexivity|].
            eexists. split; [reflexivity|exact Eb].
          - repeat (split; [reflexivity|]). right. split; [reflexivity|].
            split; [discriminate|]. intros d [= <-]. exact Eb. }
        { exists key, None. split; [exact Ek|].
          repeat (split; [reflexivity|]). right.
          split; [reflexivity|]. split; [discriminate|]. discriminate. }
      * right. left. destruct (trialStatus w ti) as [report reads].
        cbn [fst snd]. auto.
    + right. right. destruct (trialStatus w ti) as [report reads].
      cbn [fst snd]. auto.
  - right. right. destruct (trialStatus w ti) as [report reads].
    cbn [fst snd]. auto.
Qed.

Lemma checkLicenseStatus_forms (user : option User)
  (w : Licensing.World) (store : Licensing.Storage) :
  let st := Licensing.status (fst (fst (checkLicenseStatus user w store))) in
  st = mkStatus expired false \/ st = mkStatus licensed true \/
  st = mkStatus trial true.
Proof.
  cbv zeta. destruct user as [u|]; [|left; reflexivity].
  destruct (checkLicenseStatus_cases u w store)
    as (calls1 & store1 & ti & _ & H).
  pose proof (trialStatus_cases w ti) as Ht.
  destruct (trialStatus w ti) as [treport reads].
  destruct Ht as (_ & _ & Hst). cbn [fst snd] in H.
  destruct H as [(key & ex & _ & _ & _ & _ & _ & _ & [[E _]|[E _]])
                |[(E & _)|(E & _)]]; try (rewrite E; auto; fail);
    rewrite E; destruct Hst as [[E1 _]|[E1 _]]; rewrite E1; auto.
Qed.

Lemma In_repeat_call (c d : Licensing.Call) (n : nat) :
  In c (repeat d n) -> c = d.
Proof. intros H. apply repeat_spec in H. exact H. Qed.

(** X16. Whatever the server answers and the storage holds, the status of a
    check is one of three: expired without export, licensed with export
    or trial with export. Without a user it is expired, no call is made
    and the storage is left alone. A licensed status carries a
    non-empty key that the server validated during this check, was not
    cleared, and is not past its expiry date; no trial was read for it.
    A trial status carries no key and a number of days that is not
    zero. *)
Theorem license_status_is_consistent (user : option User)
  (w : Licensing.World) (store : Licensing.Storage) :
  let result := checkLicenseStatus user w store in
  let report := fst (fst result) in
  let calls := snd (fst result) in
  (Licensing.status report = mkStatus expired false \/
   Licensing.status report = mkStatus licensed true \/
   Licensing.status report = mkStatus trial true) /\
  (user = None ->
   Licensing.status report = mkStatus expired false /\
   calls = [] /\ snd result = store) /\
  (type (Licensing.status report) = licensed ->
   Licensing.truthy (Licensing.licenseKey report) = true /\
   In Licensing.call_validateDeviceActivation calls /\
   ~ In Licensing.call_clearLicense calls /\
   ~ In Licensing.call_getTrialDaysRemaining calls /\
   forall d, Licensing.expiresAt report = Some d ->
             Licensing.Date_before d (Licensing.check_now w) = false) /\
  (type (Licensing.status report) = trial ->
   Licensing.licenseKey report = None /\
   exists days,
     Licensing.trialDaysRemaining report = Some days /\
     Licensing.is_zero days = false).
Proof.
  cbv zeta. destruct user as [u|].
  2:{ cbn. split; [auto|]. split; [auto|]. split; discriminate. }
  destruct (checkLicenseStatus_cases u w store)
    as (calls1 & store1 & ti & Hc1 & H).
  pose proof (trialStatus_cases w ti) as Ht.
  destruct (trialStatus w ti) as [treport reads].
  destruct Ht as ((n & -> & Hn & _) & Hk & Hst). cbn [fst snd] in H.
  assert (Htrial :
    forall report,
      report = treport ->
      (Licensing.status report = mkStatus expired false \/
       Licensing.status report = mkStatus licensed true \/
       Licensing.status report = mkStatus trial true) /\
      (type (Licensing.status report) = licensed -> False) /\
      (type (Licensing.status report) = trial ->
       Licensing.licenseKey report = None /\
       exists days,
         Licensing.trialDaysRemaining report = Some days /\
         Licensing.is_zero days = false)).
  { intros report ->. destruct Hst as [[E1 E2]|[E1 E2]]; rewrite E1.
    - split; [auto|]. split; discriminate.
    - split; [auto|]. split; [discriminate|]. intros _. auto. }
  split; [|split; [discriminate|]].
  - destruct H as [(key & ex & _ & _ & _ & _ & _ & _ & [[E _]|[E _]])
                  |[(E & _)|(E & _)]].
    + auto.
    + auto.
    + apply (Htrial _ E).
    + apply (Htrial _ E).
  - destruct H as [(key & ex & Hkey & Ecalls & _ & Ek & Eex & _ & Hs)
                  |[(E & _)|(E & _)]].
    + split.
      * intros Hl. rewrite Ek. split; [exact Hkey|]. rewrite Ecalls.
        split; [apply in_or_app; right; left; reflexivity|].
        assert (Hno : forall c,
                  c <> Licensing.call_initializeTrial ->
                  c <> Licensing.call_restoreLicenseFromServer ->
                  c <> Licensing.call_validateDeviceActivation ->
                  ~ In c (calls1 ++ [Licensing.call_validateDeviceActivation])).
        { intros c N1 N2 N3 Hin. apply in_app_or in Hin.
          destruct Hin as [Hin|[Hin|[]]]; [|congruence].
          destruct Hc1 as [-> | ->]; simpl in Hin; intuition congruence. }
        split; [apply Hno; discriminate|].
        split; [apply Hno; discriminate|].
        destruct Hs as [[E _]|[_ [_ Hd]]].
        { rewrite E in Hl. discriminate. }
        { intros d Hd'. apply Hd. rewrite <- Eex. exact Hd'. }
      * destruct Hs as [[E _]|[E _]]; rewrite E; discriminate.
    + destruct (Htrial _ E) as (_ & H1 & H2).
      split; [intros Hl; destruct (H1 Hl)|exact H2].
    + destruct (Htrial _ E) as (_ & H1 & H2).
      split; [intros Hl; destruct (H1 Hl)|exact H2].
Qed.

(** X17. A stored license that the server does not validate is removed from
    the storage, both items, and the status is then decided by the
    trial alone: it is never licensed. *)
Theorem rejected_license_is_cleared (user : option User)
  (w : Licensing.World) (store : Licensing.Storage) :
  let result := checkLicenseStatus user w store in
  In Licensing.call_clearLicense (snd (fst result)) ->
  snd result = Licensing.mkStorage None None /\
  In Licensing.call_validateDeviceActivation (snd (fst result)) /\
  Licensing.licenseKey (fst (fst result)) = None /\
  type (Licensing.status (fst (fst result))) <> licensed.
Proof.
  cbv zeta. destruct user as [u|]; [|intros []].
  destruct (checkLicenseStatus_cases u w store)
    as (calls1 & store1 & ti & Hc1 & H).
  pose proof (trialStatus_cases w ti) as Ht.
  destruct (trialStatus w ti) as [treport reads].
  destruct Ht as ((n & -> & Hn & _) & Hk & Hst). cbn [fst snd] in H.
  assert (Hno1 : ~ In Licensing.call_clearLicense calls1).
  { destruct Hc1 as [-> | ->]; simpl; intuition discriminate. }
  destruct H as [(key & ex & _ & Ecalls & _)|[(E & Ecalls & Es)|(E & Ecalls & _)]];
    rewrite Ecalls; intros Hin.
  - apply in_app_or in Hin. destruct Hin as [Hin|[Hin|[]]];
      [contradiction|discriminate].
  - split; [exact Es|]. split.
    + apply in_or_app. right. left. reflexivity.
    + rewrite E. split; [exact Hk|].
      destruct Hst as [[E1 _]|[E1 _]]; rewrite E1; discriminate.
  - apply in_app_or in Hin. destruct Hin as [Hin|Hin]; [contradiction|].
    apply In_repeat_call in Hin. discriminate.
Qed.

(** X18. One check reads the trial at most four times, once when the trial
    could not be initialized, and not at all when it answers by the
    license. *)
Theorem trial_is_read_at_most_four_times (user : option User)
  (w : Licensing.World) (store : Licensing.Storage) :
  let result := checkLicenseStatus user w store in
  let reads :=
    length (List.filter
              (fun c => match c with
                        | Licensing.call_getTrialDaysRemaining => true
                        | _ => false
                        end)
              (snd (fst result))) in
  (reads <= 4)%nat /\
  (Licensing.initializeTrial (Licensing.existingTrial w)
     (Licensing.canStart w) (Licensing.newTrial w) = false ->
   (reads <= 1)%nat) /\
  (Licensing.licenseKey (fst (fst result)) <> None -> reads = 0%nat).
Proof.
  cbv zeta. destruct user as [u|].
  2:{ cbn. split; [lia|]. split; [lia|reflexivity]. }
  set (isRead := fun c => match c with
                          | Licensing.call_getTrialDaysRemaining => true
                          | _ => false
                          end).
  unfold Licensing.checkLicenseStatus. cbv zeta.
  set (ti := Licensing.initializeTrial _ _ _).
  assert (Hpre : exists key1 data1 calls1 store1,
            Licensing.licenseAtHand Date_parse JSON_parse JSON_stringify
              w store = (key1, data1, calls1, store1) /\
            List.filter isRead calls1 = []).
  { unfold Licensing.licenseAtHand. cbv zeta. destruct (_ || _).
    - destruct (Licensing.restoreLicenseFromServer _ _ _ _ _ _ _)
        as [[r|] s]; do 4 eexists; (split; [reflexivity|]); reflexivity.
    - do 4 eexists. split; reflexivity. }
  destruct Hpre as (key1 & data1 & calls1 & store1 & -> & Hc).
  pose proof (trialStatus_cases w ti) as Ht.
  assert (Hrep : forall n,
            length (List.filter isRead
                      (repeat Licensing.call_getTrialDaysRemaining n)) = n).
  { induction n as [|n IH]; [reflexivity|]. cbn. rewrite IH. reflexivity. }
  destruct (Licensing.truthy key1).
  - destruct data1 as [ld|].
    + destruct (Licensing.validateDeviceActivation _ _ _ _ _ _).
      * cbn [fst snd]. rewrite List.filter_app, Hc. cbn.
        split; [lia|]. split; [lia|reflexivity].
      * destruct (trialStatus w ti) as [treport reads].
        destruct Ht as ((n & -> & Hn & Hn1) & Hk & _). cbn [fst snd].
        rewrite List.filter_app, Hc. cbn [app List.filter isRead].
        rewrite Hrep. split; [lia|]. split.
        { intros Hf. rewrite (Hn1 Hf). lia. }
        { intros Hne. rewrite Hk in Hne. contradiction. }
    + destruct (trialStatus w ti) as [treport reads].
      destruct Ht as ((n & -> & Hn & Hn1) & Hk & _). cbn [fst snd].
      rewrite List.filter_app, Hc. cbn [app]. rewrite Hrep.
      split; [lia|]. split.
      { intros Hf. rewrite (Hn1 Hf). lia. }
      { intros Hne. rewrite Hk in Hne. contradiction. }
  - destruct (trialStatus w ti) as [treport reads].
    destruct Ht as ((n & -> & Hn & Hn1) & Hk & _). cbn [fst snd].
    rewrite List.filter_app, Hc. cbn [app]. rewrite Hrep.
    split; [lia|]. split.
    { intros Hf. rewrite (Hn1 Hf). lia. }
    { intros Hne. rewrite Hk in Hne. contradiction. }
Qed.

(** X19. A trial whose expiry date cannot be read counts neither as expired
    nor as running for a number of days: for a user without license the
    status is then a trial that may export, with [NaN] days remaining. *)
Theorem unreadable_trial_date_allows_export (u : User)
  (w : Licensing.World) (store : Licensing.Storage)
  (row : Licensing.UserTrial) (error : option string) :
  Licensing.licenseKeyItem store = None ->
  Licensing.restore_activation w = Licensing.Resolved None None ->
  Licensing.trial_reply w 0 = Licensing.Resolved (Some row) error ->
  Date_parse (Licensing.trial_expires_at row) = None ->
  let result := checkLicenseStatus (Some u) w store in
  Licensing.status (fst (fst result)) = mkStatus trial true /\
  Licensing.trialDaysRemaining (fst (fst result)) = Some None /\
  snd result = store.
Proof.
  intros Hk Hr Ht Hd. cbv zeta.
  unfold Licensing.checkLicenseStatus, Licensing.licenseAtHand,
    Licensing.getStoredLicenseKey, Licensing.restoreLicenseFromServer,
    Licensing.trialStatus, Licensing.getTrialDaysRemaining.
  rewrite Hk, Hr, Ht, Hd. cbn. auto.
Qed.

(** X20. A license restored from the server is found in the storage by the
    next check, which then does not ask the server to restore it again. *)
Theorem restored_license_is_found_locally
  (activation : Licensing.Reply string)
  (license : Licensing.Reply Licensing.LicenseData)
  (touch_throws : bool) (now : Z) (store store' : Licensing.Storage)
  (l : Licensing.LicenseData) (w : Licensing.World) :
  JSON_parse (JSON_stringify l) = Some l ->
  JSON_stringify l <> EmptyString ->
  Licensing.license_key l <> EmptyString ->
  Licensing.restoreLicenseFromServer Date_parse JSON_stringify
    activation license touch_throws now store = (Some l, store') ->
  Licensing.expired_at Date_parse l now = false /\
  Licensing.getStoredLicenseKey store' = Some (Licensing.license_key l) /\
  Licensing.getStoredLicenseData JSON_parse store' = Some l /\
  Licensing.licenseAtHand Date_parse JSON_parse JSON_stringify w store'
  = (Some (Licensing.license_key l), Some l,
     [Licensing.call_initializeTrial], store').
Proof.
  intros Hrt Hne Hkey. unfold Licensing.restoreLicenseFromServer.
  destruct activation as [|[a|] [e|]]; try discriminate.
  destruct license as [|[l0|] [e|]]; try discriminate.
  destruct (Licensing.expired_at Date_parse l0 now) eqn:Ex; [discriminate|].
  destruct touch_throws; [discriminate|].
  intros [= -> <-]. split; [exact Ex|].
  assert (Hdata : Licensing.getStoredLicenseData JSON_parse
                    (Licensing.storeLicense JSON_stringify
                       (Licensing.license_key l) l store) = Some l).
  { unfold Licensing.getStoredLicenseData, Licensing.storeLicense.
    cbn [Licensing.licenseDataItem].
    destruct (JSON_stringify l) eqn:Es; [contradiction|]. exact Hrt. }
  split; [reflexivity|]. split; [exact Hdata|].
  unfold Licensing.licenseAtHand. cbv zeta. rewrite Hdata.
  unfold Licensing.getStoredLicenseKey, Licensing.storeLicense.
  cbn [Licensing.licenseKeyItem Licensing.truthy].
  destruct (Licensing.license_key l) eqn:Ek; [contradiction|].
  reflexivity.
Qed.


(** X22. A check and an export composed: when the check of the user of a
    designer ends in the expired status, the export that is given this
    status downloads nothing, in all four designers. *)
Theorem expired_status_downloads_nothing `{C : Collaborators}
  (planar : NameTag.Params -> option (Shape * option Shape))
  (w : Licensing.World) (store : Licensing.Storage) (b : Buffer)
  (so : Outline.State) (sf : Flower.State)
  (sn : NameTag.State) (si : Initial.State)
  (dO : Outline.State -> Outline.State) (dF : Flower.State -> Flower.State)
  (dN : NameTag.State -> NameTag.State)
  (dI : Initial.State -> Initial.State) :
  let statusOf user :=
    Licensing.status (fst (fst (checkLicenseStatus user w store))) in
  (type (statusOf (Outline.user so)) = expired ->
   ~ In (downloadBlob b)
       (fst (Outline.exportSTL (statusOf (Outline.user so)) dO so))) /\
  (type (statusOf (Flower.user sf)) = expired ->
   ~ In (downloadBlob b)
       (fst (Flower.exportSTL (statusOf (Flower.user sf)) dF sf))) /\
  (type (statusOf (NameTag.user sn)) = expired ->
   ~ In (downloadBlob b)
       (fst (NameTag.exportSTL planar (statusOf (NameTag.user sn)) dN sn))) /\
  (type (statusOf (Initial.user si)) = expired ->
   ~ In (downloadBlob b)
       (fst (Initial.exportSTL (statusOf (Initial.user si)) dI si))).
Proof.
  cbv zeta.
  assert (Hexp : forall user,
            type (Licensing.status
                    (fst (fst (checkLicenseStatus user w store)))) = expired ->
            canExport (Licensing.status
                         (fst (fst (checkLicenseStatus user w store))))
            = false).
  { intros user He.
    destruct (checkLicenseStatus_forms user w store) as [E|[E|E]];
      rewrite E in He |- *; [reflexivity|discriminate|discriminate]. }
  split; [|split; [|split]]; intros He Hin.
  - apply Outline_export_gate in Hin.
    destruct Hin as (u & rest & _ & Hc & _).
    rewrite (Hexp _ He) in Hc. discriminate.
  - apply Flower_export_gate in Hin.
    destruct Hin as (u & rest & _ & Hc & _).
    rewrite (Hexp _ He) in Hc. discriminate.
  - apply NameTag_export_gate in Hin.
    destruct Hin as (u & rest & _ & Hc & _).
    rewrite (Hexp _ He) in Hc. discriminate.
  - apply Initial_export_gate in Hin.
    destruct Hin as (u & rest & _ & Hc & _).
    rewrite (Hexp _ He) in Hc. discriminate.
Qed.

End LicensingFacts.

Lemma trial_days_are_rounded_up_witness :
  sampleDate_parse (Licensing.trial_expires_at sampleTrial)
  = Some 1894060800000%Z /\
  Licensing.getTrialDaysRemaining sampleDate_parse
    (Licensing.Resolved (Some sampleTrial) None) newYear2030
  = Some 7%Z.
Proof.
  assert (Hd : sampleDate_parse (Licensing.trial_expires_at sampleTrial)
               = Some 1894060800000%Z) by reflexivity.
  split; [exact Hd|].
  destruct (trial_days_are_rounded_up sampleDate_parse sampleTrial None
              newYear2030 _ Hd) as (days & E & _ & _ & Hb & _).
  rewrite E. f_equal.
  assert (Hlt : (newYear2030 < 1894060800000)%Z) by reflexivity.
  specialize (Hb Hlt). unfold Licensing.DAY, newYear2030 in Hb. lia.
Defined.

Lemma rejected_license_is_cleared_witness :
  let result :=
    Licensing.checkLicenseStatus sampleDate_parse sampleJSON_parse
      sampleJSON_stringify (Some sampleUser)
      (sampleWorld (Some sampleTrial) false) licensedStorage in
  In Licensing.call_clearLicense (snd (fst result)) /\
  snd result = emptyStorage.
Proof.
  cbv zeta.
  assert (Hin : In Licensing.call_clearLicense
                  (snd (fst (Licensing.checkLicenseStatus sampleDate_parse
                               sampleJSON_parse sampleJSON_stringify
                               (Some sampleUser)
                               (sampleWorld (Some sampleTrial) false)
                               licensedStorage))))
    by (vm_compute; auto 6).
  split; [exact Hin|].
  exact (proj1 (rejected_license_is_cleared sampleDate_parse
                  sampleJSON_parse sampleJSON_stringify (Some sampleUser)
                  (sampleWorld (Some sampleTrial) false) licensedStorage
                  Hin)).
Defined.

Lemma unreadable_trial_date_allows_export_witness :
  Licensing.licenseKeyItem emptyStorage = None /\
  sampleDate_parse (Licensing.trial_expires_at unreadableTrial) = None /\
  Licensing.status
    (fst (fst (Licensing.checkLicenseStatus sampleDate_parse
                 sampleJSON_parse sampleJSON_stringify (Some sampleUser)
                 (sampleWorld (Some unreadableTrial) true) emptyStorage)))
  = mkStatus trial true.
Proof.
  split; [reflexivity|]. split; [reflexivity|].
  exact (proj1 (unreadable_trial_date_allows_export sampleDate_parse
                  sampleJSON_parse sampleJSON_stringify sampleUser
                  (sampleWorld (Some unreadableTrial) true) emptyStorage
                  unreadableTrial None eq_refl eq_refl eq_refl eq_refl)).
Defined.

Lemma restored_license_is_found_locally_witness :
  Licensing.restoreLicenseFromServer sampleDate_parse sampleJSON_stringify
    (Licensing.restore_activation restoringWorld)
    (Licensing.restore_license restoringWorld) false newYear2030
    emptyStorage
  = (Some sampleLicense, licensedStorage) /\
  Licensing.getStoredLicenseData sampleJSON_parse licensedStorage
  = Some sampleLicense.
Proof.
  assert (Hr : Licensing.restoreLicenseFromServer sampleDate_parse
                 sampleJSON_stringify
                 (Licensing.restore_activation restoringWorld)
                 (Licensing.restore_license restoringWorld) false
                 newYear2030 emptyStorage
               = (Some sampleLicense, licensedStorage)) by reflexivity.
  split; [exact Hr|].
  assert (H1 : sampleJSON_parse (sampleJSON_stringify sampleLicense)
               = Some sampleLicense) by reflexivity.
  assert (H2 : sampleJSON_stringify sampleLicense <> EmptyString)
    by discriminate.
  assert (H3 : Licensing.license_key sampleLicense <> EmptyString)
    by discriminate.
  exact (proj1 (proj2 (proj2
           (restored_license_is_found_locally sampleDate_parse
              sampleJSON_parse sampleJSON_stringify _ _ _ _ _ _ _
              restoringWorld H1 H2 H3 Hr)))).
Defined.


Lemma expired_status_downloads_nothing_witness :
  let status :=
    Licensing.status
      (fst (fst (Licensing.checkLicenseStatus sampleDate_parse
                   sampleJSON_parse sampleJSON_stringify
                   (Outline.user outlineState) (sampleWorld None false)
                   emptyStorage))) in
  type status = expired /\
  ~ In (downloadBlob emptySTL)
      (fst (@Outline.exportSTL exportingCollaborators status (fun st => st)
              outlineState)).
Proof.
  cbv zeta. split; [reflexivity|].
  exact (proj1 (@expired_status_downloads_nothing sampleDate_parse
                  sampleJSON_parse sampleJSON_stringify
                  exportingCollaborators samplePlanar
                  (sampleWorld None false) emptyStorage emptySTL
                  outlineState flowerState nameTagState
                  (initialState initialDefaults [])
                  (fun st => st) (fun st => st) (fun st => st)
                  (fun st => st))
               eq_refl).
Defined.

(** ** The rounded rectangle *)

Section RoundedRectangleFacts.

Context {C : Collaborators}.

Hypothesis cos_range : forall a, -1 <= Math_cos a /\ Math_cos a <= 1.
Hypothesis sin_range : forall a, -1 <= Math_sin a /\ Math_sin a <= 1.

Lemma roundedRectRadius_range (cornerRadius w h : Q) :
  0 <= w -> 0 <= h ->
  let r := roundedRectRadius cornerRadius w h in
  0 <= r /\ r <= w /\ r <= h /\
  (cornerRadius <= 0 -> r = 0) /\
  (0 < cornerRadius -> 0 < w -> 0 < h -> 0 < r).
Proof.
  intros Hw Hh. cbv zeta. unfold roundedRectRadius.
  destruct (Math_min_spec cornerRadius w) as [[H1 E1]|[H1 E1]]; rewrite E1;
  match goal with
  | |- context [JS.Math_min ?a h] =>
      destruct (Math_min_spec a h) as [[H2 E2]|[H2 E2]]; rewrite E2
  end;
  match goal with
  | |- context [JS.Math_max 0 ?a] =>
      destruct (Math_max_spec 0 a) as [[H3 E3]|[H3 E3]]; rewrite E3
  end;
  repeat split; try lra; try reflexivity; intros; try lra.
Qed.

Lemma roundedRectSegments_range (r : Q) :
  (2 <= roundedRectSegments r <= 16)%nat.
Proof. unfold roundedRectSegments. lia. Qed.

Lemma arcPoints_length (r : Q) (segments : nat) (cx cy a b : Q) :
  length (arcPoints r segments cx cy a b) = segments.
Proof. unfold arcPoints. rewrite length_map, length_seq. reflexivity. Qed.

Lemma arcPoints_range (r : Q) (segments : nat) (cx cy a b : Q) :
  0 <= r ->
  Forall (fun p => cx - r <= vx p /\ vx p <= cx + r /\
                   cy - r <= vy p /\ vy p <= cy + r)
    (arcPoints r segments cx cy a b).
Proof.
  intros Hr. unfold arcPoints. apply List.Forall_forall. intros p Hp.
  apply in_map_iff in Hp. destruct Hp as (i & <- & _). cbn [vx vy].
  set (angle := a + _).
  destruct (cos_range angle) as [Hc1 Hc2].
  destruct (sin_range angle) as [Hs1 Hs2].
  repeat split; nra.
Qed.

(** X23. The contour of [createRoundedRectShape] is closed (it ends where it
    starts), has 5 points for a corner radius of zero or less and
    5 + 4 * segments points otherwise, with 2 to 16 segments per corner,
    and stays within the rectangle of the clamped half sizes; the
    radius used is between 0 and the smaller half size. *)
Theorem rounded_rect_contour (halfW halfH cornerRadius : Q) :
  let w := JS.Math_max (1 # 100) halfW in
  let h := JS.Math_max (1 # 100) halfH in
  let r := roundedRectRadius cornerRadius w h in
  let pts := createRoundedRectShape halfW halfH cornerRadius in
  (0 <= r /\ r <= w /\ r <= h) /\
  head pts = Some (mkVector2 (- w) (h - r)) /\
  last pts = Some (mkVector2 (- w) (h - r)) /\
  (cornerRadius <= 0 -> length pts = 5%nat) /\
  (0 < cornerRadius ->
   length pts = (5 + 4 * roundedRectSegments r)%nat /\
   (13 <= length pts <= 69)%nat) /\
  Forall (fun p => - w <= vx p /\ vx p <= w /\ - h <= vy p /\ vy p <= h) pts.
Proof.
  cbv zeta.
  set (w := JS.Math_max (1 # 100) halfW).
  set (h := JS.Math_max (1 # 100) halfH).
  assert (Hw : (1 # 100) <= w) by apply Math_max_lower.
  assert (Hh : (1 # 100) <= h) by apply Math_max_lower.
  destruct (roundedRectRadius_range cornerRadius w h)
    as (Hr0 & Hrw & Hrh & Hzero & Hpos); [lra|lra|].
  unfold createRoundedRectShape. fold w h.
  set (r := roundedRectRadius cornerRadius w h) in *.
  cbv zeta.
  pose proof (roundedRectSegments_range r) as Hseg.
  split; [auto|]. split; [reflexivity|]. split.
  { rewrite !app_assoc. apply last_snoc. }
  split; [|split].
  - intros Hc. rewrite (Hzero Hc). destruct (Qlt_le_dec 0 0) as [H|H];
      [inversion H|]. reflexivity.
  - intros Hc. specialize (Hpos Hc). destruct (Qlt_le_dec 0 r) as [H|H];
      [|lra].
    assert (E : forall (A : Type) (a b c d e : A) (l1 l2 l3 l4 : list A),
              length ([a] ++ l1 ++ [b] ++ l2 ++ [c] ++ l3 ++ [d] ++ l4 ++ [e])
              = (5 + length l1 + length l2 + length l3 + length l4)%nat).
    { intros. rewrite !length_app. cbn [length]. lia. }
    rewrite E, !arcPoints_length. lia.
  - assert (Harc : forall cx cy a b,
              - w <= cx - r -> cx + r <= w -> - h <= cy - r -> cy + r <= h ->
              Forall (fun p => - w <= vx p /\ vx p <= w /\
                               - h <= vy p /\ vy p <= h)
                (if Qlt_le_dec 0 r
                 then arcPoints r (roundedRectSegments r) cx cy a b else [])).
    { intros cx cy a b H1 H2 H3 H4. destruct (Qlt_le_dec 0 r); [|constructor].
      eapply Forall_impl; [apply arcPoints_range; exact Hr0|].
      cbn beta. intros p (P1 & P2 & P3 & P4). repeat split; lra. }
    repeat (apply Forall_app; split);
      try (apply Harc; lra);
      (constructor; [cbn [vx vy]; repeat split; lra|constructor]).
Qed.

End RoundedRectangleFacts.

Lemma rounded_rect_contour_witness :
  (forall a, -1 <= @Math_cos sampleCollaborators a /\
             @Math_cos sampleCollaborators a <= 1) /\
  length (@createRoundedRectShape sampleCollaborators 25 (25 # 2) 7)
  = 49%nat.
Proof.
  assert (Hc : forall a, -1 <= @Math_cos sampleCollaborators a /\
                         @Math_cos sampleCollaborators a <= 1)
    by (intros a; split; discriminate).
  assert (Hs : forall a, -1 <= @Math_sin sampleCollaborators a /\
                         @Math_sin sampleCollaborators a <= 1)
    by (intros a; split; discriminate).
  split; [exact Hc|].
  destruct (@rounded_rect_contour sampleCollaborators Hc Hs 25 (25 # 2) 7)
    as (_ & _ & _ & _ & Hlen & _).
  destruct Hlen as [E _]; [reflexivity|]. rewrite E. reflexivity.
Defined.

(** ** The shapes of the name tag *)

Section NameTagPlanarFacts.

Context {C : Collaborators}.
Variable Shape_getPoints : list Vector2 -> list Vector2.

Lemma windOuter_length (pts : list Vector2) :
  length (Outline.windOuter pts) = length pts.
Proof.
  unfold Outline.windOuter. destruct (ShapeUtils.isClockWise pts);
    [apply length_rev|reflexivity].
Qed.

Lemma windHole_length (pts : list Vector2) :
  length (Outline.windHole pts) = length pts.
Proof.
  unfold Outline.windHole. destruct (negb (ShapeUtils.isClockWise pts));
    [apply length_rev|reflexivity].
Qed.

Lemma childContours_polygons (n : PolyNode) :
  Forall (fun c => (3 <= length c)%nat) (NameTagPlanar.childContours n).
Proof.
  unfold NameTagPlanar.childContours. apply List.Forall_forall.
  intros c Hc. apply filter_In in Hc. destruct Hc as [_ Hc].
  apply Nat.leb_le. exact Hc.
Qed.

Lemma firstShape_root
  (windOuter windHole : list Vector2 -> list Vector2)
  (roots : PolyTree) (s : Shape) :
  NameTagPlanar.firstShape windOuter windHole roots = Some s ->
  exists before n after,
    roots = before ++ n :: after /\
    IsHole n = false /\ (3 <= length (Contour n))%nat /\
    Forall (fun m => IsHole m = true \/ (length (Contour m) < 3)%nat) before /\
    s = mkShape (windOuter (map toVec2 (Contour n)))
          (map (fun c => windHole (map toVec2 c))
             (NameTagPlanar.childContours n)).
Proof.
  unfold NameTagPlanar.firstShape.
  induction roots as [|m rest IH]; [discriminate|].
  cbn [List.find].
  destruct (negb (IsHole m) && (3 <=? length (Contour m))%nat) eqn:E.
  - intros [= <-]. exists [], m, rest. apply andb_prop in E.
    destruct E as [E1 E2]. apply negb_true_iff in E1. apply Nat.leb_le in E2.
    repeat split; auto.
  - intros H. destruct (IH H) as (before & n & after & -> & H1 & H2 & H3 & H4).
    exists (m :: before), n, after. repeat split; auto.
    constructor; [|exact H3].
    apply andb_false_iff in E. destruct E as [E|E].
    + left. apply negb_false_iff in E. exact E.
    + right. apply Nat.leb_gt in E. exact E.
Qed.

(** X24. When the planar stage of the name tag yields shapes, the base is
    made of one root of the result tree only: the first root that is no
    hole and has three points or more, its contour taken as the clipper
    wound it, with the contours of three points or more of its children
    as holes; every boundary has three points or more. The top shape,
    if any, is made the same way of the top tree, but wound: its outer
    boundary is not clockwise and no hole of it has a positive area. *)
Theorem nametag_shapes_come_from_first_root (p : NameTag.Params)
  (mergedShape : Shape) (topMergedShape : option Shape) :
  NameTagPlanar.planar Shape_getPoints p
  = Some (mergedShape, topMergedShape) ->
  (exists rectPath before n after,
     NameTagPlanar.shapeToPath Shape_getPoints
       (createRoundedRectShape (NameTagPlanar.halfW p) (NameTagPlanar.halfH p)
          (NameTag.cornerRadius p)) true = Some rectPath /\
     (3 <= length rectPath)%nat /\
     NameTagPlanar.resultTreeOf p rectPath = before ++ n :: after /\
     IsHole n = false /\
     Forall (fun m => IsHole m = true \/ (length (Contour m) < 3)%nat)
       before /\
     points mergedShape = map toVec2 (Contour n) /\
     holes mergedShape
     = map (map toVec2) (NameTagPlanar.childContours n)) /\
  polygonalShape mergedShape /\
  (forall top, topMergedShape = Some top ->
     polygonalShape top /\
     ShapeUtils.isClockWise (points top) = false /\
     Forall (fun h => ShapeUtils.area h <= 0) (holes top)).
Proof.
  unfold NameTagPlanar.planar.
  destruct (NameTagPlanar.shapeToPath _ _ true) as [rectPath|] eqn:Er;
    [|discriminate].
  destruct (NameTagPlanar.firstShape _ _ (NameTagPlanar.resultTreeOf p rectPath))
    as [ms|] eqn:Em; [|discriminate].
  intros [= <- <-].
  destruct (firstShape_root _ _ _ _ Em)
    as (before & n & after & Et & Hh & Hn & Hb & ->).
  assert (Hrect : (3 <= length rectPath)%nat).
  { unfold NameTagPlanar.shapeToPath in Er.
    destruct (length _ <? 3)%nat eqn:El; [discriminate|].
    injection Er as <-. rewrite ensureCW_length.
    apply Nat.ltb_ge in El. exact El. }
  split; [|split].
  - exists rectPath, before, n, after. cbn [points holes].
    repeat split; auto.
  - split; cbn [points holes].
    + rewrite length_map. exact Hn.
    + apply List.Forall_forall. intros h Hin. apply in_map_iff in Hin.
      destruct Hin as (c & <- & Hc). rewrite length_map.
      pose proof (childContours_polygons n) as Hall.
      rewrite List.Forall_forall in Hall. apply Hall, Hc.
  - intros top Ht.
    destruct (firstShape_root _ _ _ _ Ht)
      as (before' & n' & after' & _ & _ & Hn' & _ & ->).
    cbn [points holes]. split; [split|split].
    + cbn [points]. rewrite windOuter_length, length_map. exact Hn'.
    + cbn [holes]. apply List.Forall_forall. intros h Hin.
      apply in_map_iff in Hin. destruct Hin as (c & <- & Hc).
      rewrite windHole_length, length_map.
      pose proof (childContours_polygons n') as Hall.
      rewrite List.Forall_forall in Hall. apply Hall, Hc.
    + apply ShapeUtilsFacts.windOuter_ccw.
    + apply List.Forall_forall. intros h Hin.
      apply in_map_iff in Hin. destruct Hin as (c & <- & Hc).
      apply ShapeUtilsFacts.windHole_cw.
Qed.

(** X25. When the planar stage yields no shape (the rectangle has fewer than
    three points after scaling, or the result tree has no usable root),
    the rebuild leaves the group of the name tag empty, and an export
    by a user who may export downloads nothing and reports
    "No geometry to export". *)
Theorem nametag_without_shape_reports
  (status : LicenseStatus)
  (during : NameTag.State -> NameTag.State) (st : NameTag.State)
  (u : User) (g : list Mesh) :
  NameTag.user st = Some u ->
  canExport status = true ->
  NameTag.scene (during st) = true ->
  NameTag.group (during st) = Some g ->
  NameTagPlanar.planar Shape_getPoints (NameTag.params (during st)) = None ->
  let planar := NameTagPlanar.planar Shape_getPoints in
  NameTag.group (NameTag.rebuildMeshes planar (during st)) = Some [] /\
  fst (NameTag.exportSTL planar status during st)
  = [ checkLicenseStatus u; rebuildMeshes_run;
      exportError_set "No geometry to export" ] /\
  NameTag.exportError (snd (NameTag.exportSTL planar status during st))
  = Some "No geometry to export"%string /\
  NameTag.group (snd (NameTag.exportSTL planar status during st)) = Some [].
Proof.
  intros Hu Hc Hs Hg Hp. cbv zeta.
  unfold NameTag.exportSTL, NameTag.exportSTL_begin, NameTag.exportSTL_resume,
    NameTag.exportSTL_try, NameTag.rebuildMeshes.
  rewrite Hu, Hc. cbn [negb NameTag.group NameTag.scene NameTag.with_error
                       NameTag.params].
  rewrite Hs, Hg, Hp. cbn. auto.
Qed.

End NameTagPlanarFacts.

Lemma nametag_shapes_come_from_first_root_witness :
  exists mergedShape topMergedShape,
    @NameTagPlanar.planar sampleCollaborators samePoints nameTagParams
    = Some (mergedShape, topMergedShape) /\
    polygonalShape mergedShape.
Proof.
  destruct (@NameTagPlanar.planar sampleCollaborators samePoints
              nameTagParams) as [[ms top]|] eqn:E.
  - exists ms, top. split; [reflexivity|].
    exact (proj1 (proj2 (@nametag_shapes_come_from_first_root
                           sampleCollaborators samePoints nameTagParams
                           ms top E))).
  - vm_compute in E. discriminate.
Defined.

Lemma nametag_without_shape_reports_witness :
  @NameTagPlanar.planar sampleCollaborators noPoints
    (NameTag.params nameTagState) = None /\
  NameTag.exportError
    (snd (@NameTag.exportSTL exportingCollaborators
            (@NameTagPlanar.planar exportingCollaborators noPoints)
            licensedStatus (fun st => st) nameTagState))
  = Some "No geometry to export"%string.
Proof.
  split; [reflexivity|].
  exact (proj1 (proj2 (proj2
           (@nametag_without_shape_reports exportingCollaborators noPoints
              licensedStatus (fun st => st) nameTagState sampleUser []
              eq_refl eq_refl eq_refl eq_refl eq_refl)))).
Defined.

(** ** The settings kept per font and per letter *)

Section OutlineFormFacts.

Context {C : Collaborators}.

Import OutlineForm.

Lemma shown_show (settings : Stored.FontSettings) (st : State) :
  shown (show settings st)
  = Stored.mkFontSettings (Stored.textSize settings)
      (Stored.outlineOffsetPx settings) (Stored.baseDepth settings)
      (Stored.textDepth settings) (Stored.textColor settings)
      (Stored.outlineColor settings)
      (Some (default (Outline.keyringEnabled (params st))
               (Stored.keyringEnabled settings))).
Proof.
  unfold shown, show, params, with_params, with_design. cbn.
  destruct (Stored.keyringEnabled settings); reflexivity.
Qed.

Lemma shown_show_shown (st st' : State) :
  shown (show (shown st) st') = shown st.
Proof. rewrite shown_show. reflexivity. Qed.

Lemma shown_loadSettingsForFont (fontName : string) (st : State) :
  shown (loadSettingsForFont fontName st)
  = shown (show (default Stored.DEFAULT_FONT_SETTINGS_OUTLINE
                   (allFontSettings st !! fontName)) st).
Proof.
  unfold loadSettingsForFont. cbv zeta.
  destruct (allFontSettings (show _ st) !! fontName); reflexivity.
Qed.

Lemma shownKeyring_showKeyring (cs : Stored.CharSettings) (st : State) :
  shownKeyring (showKeyring cs st) = cs.
Proof. destruct cs. reflexivity. Qed.

(** X26. What [saveSettingsForFont] and [loadSettingsForFont] do to the
    table of a font. While the form is not being filled from the
    storage, the settings saved for a font are the ones a later load of
    that font shows again, whatever the form shows by then; the entries
    of other fonts are not touched; the item of [localStorage] holds the
    whole table after the save, unless writing fails, in which case the
    item keeps its old content while the table in memory has the new
    entry. A font without entry is shown with the defaults and gets an
    entry with the defaults. *)
Theorem font_settings_round_trip (fontName : string) (st st' : State) :
  (isUpdatingFromStorage st = false -> fontName <> EmptyString ->
   let saved := saveSettingsForFont fontName st in
   allFontSettings saved !! fontName = Some (shown st) /\
   (allFontSettings st' !! fontName = allFontSettings saved !! fontName ->
    shown (loadSettingsForFont fontName st') = shown st) /\
   (forall other, other <> fontName ->
      allFontSettings saved !! other = allFontSettings st !! other) /\
   (storageFull st = false ->
    Stored.loadFontSettingsFromStorage (storedSettings saved)
    = allFontSettings saved) /\
   (storageFull st = true -> storedSettings saved = storedSettings st)) /\
  (isUpdatingFromStorage st = true -> saveSettingsForFont fontName st = st) /\
  (allFontSettings st !! fontName = None ->
   let loaded := loadSettingsForFont fontName st in
   shown loaded = Stored.DEFAULT_FONT_SETTINGS_OUTLINE /\
   allFontSettings loaded !! fontName
   = Some Stored.DEFAULT_FONT_SETTINGS_OUTLINE /\
   storedSettings loaded = storedSettings st).
Proof.
  split; [|split].
  - intros Hu Hne. cbv zeta. unfold saveSettingsForFont. rewrite Hu.
    destruct fontName as [|c r]; [contradiction|].
    cbn [allFontSettings with_fontTable storedSettings].
    split; [apply lookup_insert_eq|]. split; [|split; [|split]].
    + intros E. rewrite shown_loadSettingsForFont, E, lookup_insert_eq.
      cbn [default]. apply shown_show_shown.
    + intros other Ho. apply lookup_insert_ne. congruence.
    + intros ->. reflexivity.
    + intros ->. reflexivity.
  - intros Hu. unfold saveSettingsForFont. rewrite Hu. reflexivity.
  - intros Hn. cbv zeta. rewrite shown_loadSettingsForFont, Hn.
    cbn [default]. split; [reflexivity|].
    unfold loadSettingsForFont. cbv zeta. rewrite Hn. cbn [default].
    assert (E : allFontSettings (show Stored.DEFAULT_FONT_SETTINGS_OUTLINE st)
                = allFontSettings st) by reflexivity.
    rewrite E, Hn. cbn [allFontSettings with_fontTable storedSettings].
    split; [apply lookup_insert_eq|reflexivity].
Qed.

Lemma keyringOf_insert (t : Stored.CharTable) (f c f' c' : string)
  (cs : Stored.CharSettings) :
  keyringOf (<[f := <[c := cs]> (default ∅ (t !! f))]> t) f' c'
  = if decide (f' = f /\ c' = c) then Some cs else keyringOf t f' c'.
Proof.
  unfold keyringOf. destruct (decide (f' = f)) as [->|Hf].
  - rewrite lookup_insert_eq. cbn [mbind option_bind].
    destruct (decide (c' = c)) as [->|Hc].
    + rewrite lookup_insert_eq.
      destruct (decide _) as [_|N]; [reflexivity|destruct N; auto].
    + rewrite lookup_insert_ne by congruence.
      destruct (decide _) as [[_ E]|_]; [contradiction|].
      destruct (t !! f); reflexivity.
  - rewrite lookup_insert_ne by congruence.
    destruct (decide _) as [[E _]|_]; [contradiction|reflexivity].
Qed.

(** X27. The keyring settings are kept per font and per first letter. While
    the form is not being filled from the storage, the settings saved
    for a font and a letter are the ones a later load for them shows
    again; no other pair of font and letter is touched; the item of
    [localStorage] holds the whole table after the save unless writing
    fails. A pair without entry is shown with the defaults, and no
    entry is made for it. An empty letter (an empty text) neither
    saves nor loads. *)
Theorem keyring_settings_round_trip (fontName char : string)
  (st st' : State) :
  (isUpdatingFromStorage st = false ->
   fontName <> EmptyString -> char <> EmptyString ->
   let saved := saveKeyringForChar fontName char st in
   keyringOf (allCharSettings saved) fontName char
   = Some (shownKeyring st) /\
   (keyringOf (allCharSettings st') fontName char
    = keyringOf (allCharSettings saved) fontName char ->
    shownKeyring (loadKeyringForChar fontName char st') = shownKeyring st) /\
   (forall f c, ~ (f = fontName /\ c = char) ->
      keyringOf (allCharSettings saved) f c
      = keyringOf (allCharSettings st) f c) /\
   (storageFull st = false ->
    Stored.loadCharSettingsFromStorage (storedKeyring saved)
    = allCharSettings saved)) /\
  (fontName <> EmptyString -> char <> EmptyString ->
   keyringOf (allCharSettings st) fontName char = None ->
   shownKeyring (loadKeyringForChar fontName char st)
   = Stored.DEFAULT_CHAR_SETTINGS /\
   allCharSettings (loadKeyringForChar fontName char st)
   = allCharSettings st) /\
  (char = EmptyString ->
   loadKeyringForChar fontName char st = st /\
   saveKeyringForChar fontName char st = st).
Proof.
  split; [|split].
  - intros Hu Hf Hc. cbv zeta. unfold saveKeyringForChar. rewrite Hu.
    destruct char as [|c0 c1]; [contradiction|].
    destruct fontName as [|f0 f1]; [contradiction|].
    cbn [allCharSettings with_charTable storedKeyring].
    split; [|split; [|split]].
    + rewrite keyringOf_insert.
      destruct (decide _) as [_|N]; [reflexivity|destruct N; auto].
    + rewrite keyringOf_insert.
      destruct (decide _) as [_|N]; [|destruct N; auto].
      intros E. unfold loadKeyringForChar. fold (keyringOf (allCharSettings st')
                                                  (String f0 f1) (String c0 c1)).
      rewrite E. cbn [default]. apply shownKeyring_showKeyring.
    + intros f c N. rewrite keyringOf_insert.
      destruct (decide _) as [Y|_]; [contradiction|reflexivity].
    + intros ->. reflexivity.
  - intros Hf Hc Hn. unfold loadKeyringForChar.
    destruct char as [|c0 c1]; [contradiction|].
    destruct fontName as [|f0 f1]; [contradiction|].
    fold (keyringOf (allCharSettings st) (String f0 f1) (String c0 c1)).
    rewrite Hn. cbn [default].
    split; [apply shownKeyring_showKeyring|reflexivity].
  - intros ->. unfold loadKeyringForChar, saveKeyringForChar.
    destruct (isUpdatingFromStorage st); auto.
Qed.

(** [refresh] and the timer leave the form and the tables alone. *)
Lemma refresh_fields (st : State) :
  params (refresh st) = params st /\
  textColor (refresh st) = textColor st /\
  outlineColor (refresh st) = outlineColor st /\
  fontKey (refresh st) = fontKey st /\
  licenseStatus (refresh st) = licenseStatus st /\
  Outline.user (design (refresh st)) = Outline.user (design st) /\
  allFontSettings (refresh st) = allFontSettings st /\
  allCharSettings (refresh st) = allCharSettings st /\
  isUpdatingFromStorage (refresh st) = isUpdatingFromStorage st /\
  lastFont (refresh st) = lastFont st /\
  lastChar (refresh st) = lastChar st /\
  storedSettings (refresh st) = storedSettings st /\
  storedKeyring (refresh st) = storedKeyring st.
Proof.
  unfold refresh, params. destruct (Outline.scene (design st)) eqn:Es;
    [|repeat split].
  destruct (Utils.getFont (fontKey st) (loader st)) as [[f|] l];
    cbn; [|repeat split].
  unfold Outline.rebuildMeshes. cbn.
  destruct (Outline.group (design st)); repeat split.
Qed.

Lemma shown_refresh (st : State) : shown (refresh st) = shown st.
Proof.
  destruct (refresh_fields st) as (E1 & E2 & E3 & _).
  unfold shown. rewrite E1, E2, E3. reflexivity.
Qed.

Lemma shownKeyring_refresh (st : State) :
  shownKeyring (refresh st) = shownKeyring st.
Proof.
  destruct (refresh_fields st) as (E1 & _).
  unfold shownKeyring. rewrite E1. reflexivity.
Qed.

Lemma getCurrentChar_refresh (st : State) :
  getCurrentChar (refresh st) = getCurrentChar st.
Proof.
  destruct (refresh_fields st) as (E1 & _).
  unfold getCurrentChar. rewrite E1. reflexivity.
Qed.

Lemma trial_user_refresh (st : State) :
  trial_user (refresh st) = trial_user st.
Proof.
  destruct (refresh_fields st) as (_ & _ & _ & _ & E1 & E2 & _).
  unfold trial_user. rewrite E1, E2. reflexivity.
Qed.

(** The fields the lemmas below follow through the steps of an
    effect. *)
Lemma leave_fields (st : State) (a0 : ascii) (a1 : string)
  (c0 : ascii) (c1 : string) :
  let A := String a0 a1 in
  let saved :=
    with_updating
      (saveKeyringForChar A (String c0 c1)
         (saveSettingsForFont A (with_updating st false)))
      (isUpdatingFromStorage st) in
  (shown saved = shown st /\ shownKeyring saved = shownKeyring st /\
   getCurrentChar saved = getCurrentChar st /\
   trial_user saved = trial_user st /\ fontKey saved = fontKey st) /\
  allFontSettings saved = <[A := shown st]> (allFontSettings st) /\
  allCharSettings saved
  = <[A := <[String c0 c1 := shownKeyring st]>
             (default ∅ (allCharSettings st !! A))]> (allCharSettings st).
Proof. cbv zeta. repeat split; reflexivity. Qed.

Lemma enter_fields (s : State) (B : string) :
  let loaded :=
    loadSettingsForFont B (with_lastFont (with_updating s true) B) in
  (shown loaded
   = shown (show (default Stored.DEFAULT_FONT_SETTINGS_OUTLINE
                    (allFontSettings s !! B)) s) /\
   shownKeyring loaded = shownKeyring s /\
   getCurrentChar loaded = getCurrentChar s /\
   trial_user loaded = trial_user s /\ fontKey loaded = fontKey s) /\
  (forall f, f <> B -> allFontSettings loaded !! f = allFontSettings s !! f) /\
  allCharSettings loaded = allCharSettings s /\
  isUpdatingFromStorage loaded = true /\ lastFont loaded = B /\
  lastChar loaded = lastChar s.
Proof.
  cbv zeta. unfold loadSettingsForFont. cbv zeta.
  set (entered := with_lastFont (with_updating s true) B).
  change (allFontSettings entered) with (allFontSettings s).
  set (settings := default Stored.DEFAULT_FONT_SETTINGS_OUTLINE
                     (allFontSettings s !! B)).
  change (allFontSettings (show settings entered)) with (allFontSettings s).
  assert (Esh : shown (show settings entered) = shown (show settings s))
    by (rewrite !shown_show; reflexivity).
  destruct (allFontSettings s !! B) eqn:El.
  - split; [split; [exact Esh|repeat split; reflexivity]|].
    repeat split; reflexivity.
  - split; [split; [exact Esh|repeat split; reflexivity]|].
    split; [|repeat split; reflexivity].
    intros f Hf. cbn [allFontSettings with_fontTable].
    change (allFontSettings (show settings entered)) with (allFontSettings s).
    apply lookup_insert_ne. congruence.
Qed.

Lemma letter_fields (s : State) (B : string) (d0 : ascii) (d1 : string) :
  let d := String d0 d1 in
  let r := setTimeout (with_lastChar (loadKeyringForChar B d s) d) in
  (shown r = shown s /\ getCurrentChar r = getCurrentChar s /\
   trial_user r = trial_user s /\ fontKey r = fontKey s) /\
  allFontSettings r = allFontSettings s /\
  allCharSettings r = allCharSettings s /\
  isUpdatingFromStorage r = isUpdatingFromStorage s /\
  lastFont r = lastFont s /\ lastChar r = d /\
  (B <> EmptyString ->
   shownKeyring r
   = default Stored.DEFAULT_CHAR_SETTINGS (keyringOf (allCharSettings s) B d)).
Proof.
  cbv zeta. unfold loadKeyringForChar. destruct B as [|b0 b1].
  - repeat split; try reflexivity. intros H. contradiction.
  - repeat split; try reflexivity. intros _.
    unfold shownKeyring, showKeyring, params, with_params, with_design.
    cbn. destruct (default _ _). reflexivity.
Qed.

(** The state a change of font leads to: [A] is the font left, the
    font entered is [fontKey st]. *)
Lemma fontEffect_switch (st : State) (a0 : ascii) (a1 : string)
  (c0 : ascii) (c1 : string) (d0 : ascii) (d1 : string) :
  trial_user st = false ->
  lastFont st = String a0 a1 ->
  lastChar st = String c0 c1 ->
  getCurrentChar st = String d0 d1 ->
  fontKey st <> String a0 a1 ->
  let A := String a0 a1 in
  let B := fontKey st in
  let tableF := <[A := shown st]> (allFontSettings st) in
  let tableK :=
    <[A := <[String c0 c1 := shownKeyring st]>
             (default ∅ (allCharSettings st !! A))]> (allCharSettings st) in
  let r := fontEffect st in
  fontKey r = B /\ lastFont r = B /\ lastChar r = String d0 d1 /\
  getCurrentChar r = String d0 d1 /\ trial_user r = false /\
  isUpdatingFromStorage r = true /\
  shown r
  = shown (show (default Stored.DEFAULT_FONT_SETTINGS_OUTLINE (tableF !! B))
             st) /\
  (forall f, f <> B -> allFontSettings r !! f = tableF !! f) /\
  allCharSettings r = tableK /\
  (B <> EmptyString ->
   shownKeyring r
   = default Stored.DEFAULT_CHAR_SETTINGS (keyringOf tableK B (String d0 d1))).
Proof.
  intros Ht Hf Hc Hd Hne. cbv zeta.
  unfold fontEffect. rewrite Ht, Hf, Hc, Hd. cbv zeta.
  destruct (String.eqb (fontKey st) (String a0 a1)) eqn:Eq;
    [apply String.eqb_eq in Eq; contradiction|]. cbn [negb].
  destruct (leave_fields st a0 a1 c0 c1)
    as ((A1 & A2 & A3 & A4 & A5) & A6 & A7). cbv zeta in *.
  set (saved := with_updating _ (isUpdatingFromStorage st)) in *.
  clearbody saved.
  destruct (enter_fields saved (fontKey st))
    as ((B1 & B2 & B3 & B4 & B5) & B6 & B7 & B8 & B9 & B10). cbv zeta in *.
  set (loaded := loadSettingsForFont (fontKey st) _) in *.
  clearbody loaded.
  destruct (letter_fields loaded (fontKey st) d0 d1)
    as ((C1 & C2 & C3 & C4) & C5 & C6 & C7 & C8 & C9 & C10). cbv zeta in *.
  set (r := setTimeout _) in *. clearbody r.
  destruct (refresh_fields r)
    as (_ & _ & _ & R4 & _ & _ & R7 & R8 & R9 & R10 & R11 & _).
  rewrite R4, R7, R8, R9, R10, R11, shown_refresh, shownKeyring_refresh,
    getCurrentChar_refresh, trial_user_refresh.
  split; [congruence|]. split; [congruence|]. split; [congruence|].
  split; [congruence|]. split; [congruence|]. split; [congruence|].
  split.
  { rewrite C1, B1, A6. rewrite !shown_show.
    assert (E : Outline.keyringEnabled (params saved)
                = Outline.keyringEnabled (params st)).
    { unfold shown in A1. injection A1. auto. }
    rewrite E. reflexivity. }
  split.
  { intros f Hf'. rewrite C5, (B6 f Hf'), A6. reflexivity. }
  split; [congruence|].
  intros Hb. rewrite (C10 Hb), B7, A7. reflexivity.
Qed.

(** X28. Changing to another font and back restores the form. For a user
    who is not on trial, with the form on font [A] and the first letter
    of the text unchanged: changing to font [B] shows the settings
    stored for [B] (the defaults when there are none), and changing
    back to [A] shows again, field by field, the font settings and the
    keyring settings the form had on [A]; both fonts then have their
    entry in the table. *)
Theorem font_switch_and_back (st : State) (A B letter : string) :
  trial_user st = false ->
  A <> EmptyString -> B <> EmptyString -> letter <> EmptyString ->
  A <> B ->
  fontKey st = A -> lastFont st = A ->
  lastChar st = letter -> getCurrentChar st = letter ->
  let st1 := fontEffect (chooseFont B st) in
  let st2 := fontEffect (chooseFont A st1) in
  shown st1
  = shown (show (default Stored.DEFAULT_FONT_SETTINGS_OUTLINE
                   (allFontSettings st !! B)) st) /\
  shownKeyring st1
  = default Stored.DEFAULT_CHAR_SETTINGS
      (keyringOf (allCharSettings st) B letter) /\
  shown st2 = shown st /\
  shownKeyring st2 = shownKeyring st /\
  fontKey st2 = A /\ lastFont st2 = A /\
  allFontSettings st1 !! A = Some (shown st) /\
  keyringOf (allCharSettings st2) B letter = Some (shownKeyring st1).
Proof.
  intros Ht HA HB HL Hne Hk Hf Hc Hd. cbv zeta.
  destruct A as [|a0 a1]; [contradiction|].
  destruct B as [|b0 b1]; [contradiction|].
  destruct letter as [|l0 l1]; [contradiction|].
  assert (Hne' : fontKey (chooseFont (String b0 b1) st) <> String a0 a1)
    by (cbn; congruence).
  destruct (fontEffect_switch (chooseFont (String b0 b1) st)
              a0 a1 l0 l1 l0 l1 Ht Hf Hc Hd Hne')
    as (F1 & F2 & F3 & F4 & F5 & F6 & F7 & F8 & F9 & F10).
  cbv zeta in *.
  change (fontKey (chooseFont (String b0 b1) st)) with (String b0 b1) in *.
  change (allFontSettings (chooseFont (String b0 b1) st))
    with (allFontSettings st) in *.
  change (allCharSettings (chooseFont (String b0 b1) st))
    with (allCharSettings st) in *.
  change (shown (chooseFont (String b0 b1) st)) with (shown st) in *.
  change (shownKeyring (chooseFont (String b0 b1) st))
    with (shownKeyring st) in *.
  set (st1 := fontEffect (chooseFont (String b0 b1) st)) in *.
  clearbody st1.
  assert (Hne2 : fontKey (chooseFont (String a0 a1) st1) <> String b0 b1)
    by (cbn; congruence).
  destruct (fontEffect_switch (chooseFont (String a0 a1) st1)
              b0 b1 l0 l1 l0 l1 F5 F2 F3 F4 Hne2)
    as (G1 & G2 & G3 & G4 & G5 & G6 & G7 & G8 & G9 & G10).
  cbv zeta in *.
  change (fontKey (chooseFont (String a0 a1) st1)) with (String a0 a1) in *.
  change (allFontSettings (chooseFont (String a0 a1) st1))
    with (allFontSettings st1) in *.
  change (allCharSettings (chooseFont (String a0 a1) st1))
    with (allCharSettings st1) in *.
  change (shown (chooseFont (String a0 a1) st1)) with (shown st1) in *.
  change (shownKeyring (chooseFont (String a0 a1) st1))
    with (shownKeyring st1) in *.
  set (st2 := fontEffect (chooseFont (String a0 a1) st1)) in *.
  clearbody st2.
  assert (HA1 : allFontSettings st1 !! String a0 a1 = Some (shown st)).
  { rewrite F8 by congruence. apply lookup_insert_eq. }
  split.
  { rewrite F7. rewrite lookup_insert_ne by congruence.
    rewrite !shown_show. reflexivity. }
  split.
  { rewrite F10 by discriminate. rewrite keyringOf_insert.
    destruct (decide _) as [[E _]|_]; [congruence|reflexivity]. }
  split.
  { rewrite G7. rewrite lookup_insert_ne by congruence.
    rewrite HA1. cbn [default]. rewrite shown_show. reflexivity. }
  split.
  { rewrite G10 by discriminate. rewrite keyringOf_insert.
    destruct (decide _) as [[E _]|_]; [congruence|].
    rewrite F9, keyringOf_insert.
    destruct (decide _) as [_|N]; [reflexivity|destruct N; auto]. }
  split; [exact G1|]. split; [exact G2|]. split; [exact HA1|].
  rewrite G9, keyringOf_insert.
  destruct (decide _) as [_|N]; [reflexivity|destruct N; auto].
Qed.

Lemma fontKey_loadSettingsForFont (fontName : string) (st : State) :
  fontKey (loadSettingsForFont fontName st) = fontKey st.
Proof.
  unfold loadSettingsForFont. cbv zeta.
  destruct (allFontSettings _ !! fontName); reflexivity.
Qed.

Lemma fontKey_loadKeyringForChar (fontName char : string) (st : State) :
  fontKey (loadKeyringForChar fontName char st) = fontKey st.
Proof.
  unfold loadKeyringForChar. destruct char, fontName; reflexivity.
Qed.

Lemma fontKey_saveSettingsForFont (fontName : string) (st : State) :
  fontKey (saveSettingsForFont fontName st) = fontKey st.
Proof.
  unfold saveSettingsForFont.
  destruct (isUpdatingFromStorage st), fontName; reflexivity.
Qed.

Lemma fontKey_saveKeyringForChar (fontName char : string) (st : State) :
  fontKey (saveKeyringForChar fontName char st) = fontKey st.
Proof.
  unfold saveKeyringForChar.
  destruct (isUpdatingFromStorage st), char, fontName; reflexivity.
Qed.

(** X29. A signed-in user on trial is held on the first font of the list:
    after the effect has run the font is "Titan One_Regular", whatever
    was chosen; and when another font was chosen the effect only puts
    the first font back: nothing is saved, loaded or rebuilt in that
    run. *)
Theorem trial_user_is_held_on_first_font (st : State) :
  trial_user st = true ->
  fontKey (fontEffect st) = "Titan One_Regular"%string /\
  (fontKey st <> "Titan One_Regular"%string ->
   fontEffect st = chooseFont "Titan One_Regular" st).
Proof.
  intros Ht. unfold fontEffect. rewrite Ht. cbv zeta.
  change firstFontKey with (Some "Titan One_Regular"%string).
  cbv iota beta.
  destruct (String.eqb (fontKey st) "Titan One_Regular") eqn:Eq; cbn [negb].
  - apply String.eqb_eq in Eq. split; [|intros N; contradiction].
    destruct (negb (String.eqb (fontKey st) (lastFont st))); [|exact Eq].
    match goal with
    | |- fontKey (refresh ?x) = _ =>
        destruct (refresh_fields x) as (_ & _ & _ & -> & _)
    end.
    cbn [fontKey setTimeout].
    assert (Hs : forall s, fontKey s = fontKey st ->
              fontKey (loadSettingsForFont (fontKey st)
                         (with_lastFont (with_updating s true) (fontKey st)))
              = fontKey st).
    { intros s Hk. rewrite fontKey_loadSettingsForFont. exact Hk. }
    assert (Hl : forall s,
              fontKey s = fontKey st ->
              fontKey match getCurrentChar st with
                      | EmptyString => s
                      | String _ _ =>
                          with_lastChar
                            (loadKeyringForChar (fontKey st)
                               (getCurrentChar st) s) (getCurrentChar st)
                      end = fontKey st).
    { intros s Hk. destruct (getCurrentChar st); [exact Hk|].
      cbn [fontKey with_lastChar]. rewrite fontKey_loadKeyringForChar.
      exact Hk. }
    rewrite Hl; [exact Eq|]. apply Hs.
    destruct (lastFont st); [reflexivity|].
    destruct (lastChar st); [reflexivity|].
    cbn [fontKey with_updating].
    rewrite fontKey_saveKeyringForChar, fontKey_saveSettingsForFont.
    reflexivity.
  - split; [reflexivity|]. intros _. reflexivity.
Qed.

End OutlineFormFacts.

Lemma font_settings_round_trip_witness :
  let saved :=
    OutlineForm.saveSettingsForFont "Titan One_Regular" editedForm in
  let reset := OutlineForm.show Stored.DEFAULT_FONT_SETTINGS_OUTLINE saved in
  OutlineForm.isUpdatingFromStorage editedForm = false /\
  OutlineForm.shown reset = Stored.DEFAULT_FONT_SETTINGS_OUTLINE /\
  OutlineForm.shown
    (OutlineForm.loadSettingsForFont "Titan One_Regular" reset)
  = OutlineForm.shown editedForm.
Proof.
  cbv zeta. split; [reflexivity|]. split; [reflexivity|].
  destruct (font_settings_round_trip "Titan One_Regular" editedForm
              (OutlineForm.show Stored.DEFAULT_FONT_SETTINGS_OUTLINE
                 (OutlineForm.saveSettingsForFont "Titan One_Regular"
                    editedForm))) as [H _].
  destruct (H eq_refl) as (_ & Hload & _); [discriminate|].
  apply Hload. reflexivity.
Defined.

Lemma keyring_settings_round_trip_witness :
  let saved :=
    OutlineForm.saveKeyringForChar "Titan One_Regular" "N" editedForm in
  let reset :=
    OutlineForm.showKeyring Stored.DEFAULT_CHAR_SETTINGS saved in
  OutlineForm.isUpdatingFromStorage editedForm = false /\
  OutlineForm.shownKeyring reset = Stored.DEFAULT_CHAR_SETTINGS /\
  OutlineForm.shownKeyring
    (OutlineForm.loadKeyringForChar "Titan One_Regular" "N" reset)
  = OutlineForm.shownKeyring editedForm.
Proof.
  cbv zeta. split; [reflexivity|]. split; [reflexivity|].
  destruct (keyring_settings_round_trip "Titan One_Regular" "N" editedForm
              (OutlineForm.showKeyring Stored.DEFAULT_CHAR_SETTINGS
                 (OutlineForm.saveKeyringForChar "Titan One_Regular" "N"
                    editedForm))) as [H _].
  destruct (H eq_refl) as (_ & Hload & _); [discriminate|discriminate|].
  apply Hload. reflexivity.
Defined.

Lemma font_switch_and_back_witness :
  let st1 :=
    @OutlineForm.fontEffect sampleCollaborators
      (OutlineForm.chooseFont "Showpop_Regular" editedForm) in
  let st2 :=
    @OutlineForm.fontEffect sampleCollaborators
      (OutlineForm.chooseFont "Titan One_Regular" st1) in
  OutlineForm.trial_user editedForm = false /\
  OutlineForm.shown st1 = Stored.DEFAULT_FONT_SETTINGS_OUTLINE /\
  OutlineForm.shown st2 = OutlineForm.shown editedForm.
Proof.
  cbv zeta. split; [reflexivity|].
  assert (HA : "Titan One_Regular"%string <> EmptyString) by discriminate.
  assert (HB : "Showpop_Regular"%string <> EmptyString) by discriminate.
  assert (HL : "N"%string <> EmptyString) by discriminate.
  assert (HAB : "Titan One_Regular"%string <> "Showpop_Regular"%string)
    by discriminate.
  destruct (@font_switch_and_back sampleCollaborators editedForm
              "Titan One_Regular" "Showpop_Regular" "N"
              eq_refl HA HB HL HAB eq_refl eq_refl eq_refl eq_refl)
    as (H1 & _ & H3 & _).
  split; [rewrite H1; reflexivity|exact H3].
Defined.

Lemma trial_user_is_held_on_first_font_witness :
  OutlineForm.trial_user trialForm = true /\
  OutlineForm.fontKey trialForm = "Showpop_Regular"%string /\
  OutlineForm.fontKey (@OutlineForm.fontEffect sampleCollaborators trialForm)
  = "Titan One_Regular"%string.
Proof.
  split; [reflexivity|]. split; [reflexivity|].
  exact (proj1 (@trial_user_is_held_on_first_font sampleCollaborators
                  trialForm eq_refl)).
Defined.

(** ** The name of the exported file *)

Section FileNameFacts.

Import FileName.

Lemma alnum_not_dash (c : ascii) : is_alnum c = true -> is_dash c = false.
Proof.
  unfold is_alnum, is_dash. intros H. apply Nat.eqb_neq. intros E.
  rewrite E in H. discriminate.
Qed.

Lemma is_dash_dash : is_dash dash = true.
Proof. reflexivity. Qed.

Lemma dashRuns_slugged (s : string) :
  forall inRun,
    all_chars (fun c => is_alnum c || is_dash c) (dashRuns inRun s) = true /\
    no_double_dash (dashRuns inRun s) = true /\
    (inRun = true -> no_dash_first (dashRuns inRun s) = true).
Proof.
  induction s as [|c r IH]; intros inRun; [repeat split|].
  cbn [dashRuns]. destruct (is_alnum c) eqn:Ea.
  - destruct (IH false) as (H1 & H2 & _).
    cbn [all_chars no_double_dash no_dash_first].
    rewrite Ea, H1, H2, (alnum_not_dash c Ea). repeat split.
  - destruct (IH true) as (H1 & H2 & H3). specialize (H3 eq_refl).
    destruct inRun.
    + repeat split; auto.
    + cbn [all_chars no_double_dash no_dash_first].
      rewrite is_dash_dash, H1, H2, H3. cbn.
      repeat split. intros N. discriminate.
Qed.

Lemma dropFirstDash_slugged (s : string) :
  all_chars (fun c => is_alnum c || is_dash c) s = true ->
  no_double_dash s = true ->
  all_chars (fun c => is_alnum c || is_dash c) (dropFirstDash s) = true /\
  no_double_dash (dropFirstDash s) = true /\
  no_dash_first (dropFirstDash s) = true.
Proof.
  destruct s as [|c r]; [repeat split|].
  cbn [all_chars no_double_dash dropFirstDash].
  intros H1 H2. apply andb_prop in H1. destruct H1 as [H1 H1'].
  apply andb_prop in H2. destruct H2 as [H2 H2'].
  destruct (is_dash c) eqn:Ed.
  - cbn [negb orb] in H2. auto.
  - cbn [all_chars no_double_dash no_dash_first].
    rewrite !Ed, H1', H2'. rewrite orb_false_r in H1.
    rewrite orb_false_r, H1. repeat split.
Qed.

Lemma dropLastDash_first (s : string) :
  no_dash_first s = true -> no_dash_first (dropLastDash s) = true.
Proof.
  destruct s as [|c r]; [reflexivity|]. cbn [no_dash_first dropLastDash].
  intros H. destruct r; [|exact H].
  destruct (is_dash c) eqn:E; [reflexivity|].
  cbn [no_dash_first]. rewrite E. reflexivity.
Qed.

Lemma dropLastDash_slugged (s : string) :
  all_chars (fun c => is_alnum c || is_dash c) s = true ->
  no_double_dash s = true ->
  all_chars (fun c => is_alnum c || is_dash c) (dropLastDash s) = true /\
  no_double_dash (dropLastDash s) = true /\
  no_dash_last (dropLastDash s) = true.
Proof.
  induction s as [|c r IH]; [repeat split|].
  intros H1 H2. cbn [all_chars no_double_dash] in H1, H2.
  apply andb_prop in H1. destruct H1 as [H1 H1'].
  apply andb_prop in H2. destruct H2 as [H2 H2'].
  destruct (IH H1' H2') as (I1 & I2 & I3).
  destruct r as [|c' r'].
  - cbn [dropLastDash]. destruct (is_dash c) eqn:Ed; [repeat split|].
    cbn [all_chars no_double_dash no_dash_last no_dash_first].
    rewrite orb_false_r in H1. rewrite !Ed, orb_false_r, H1. repeat split.
  - change (dropLastDash (String c (String c' r')))
      with (String c (dropLastDash (String c' r'))).
    cbn [all_chars no_double_dash].
    rewrite H1, I1, I2. cbn [andb].
    split; [reflexivity|]. split.
    + rewrite andb_true_r. destruct (is_dash c) eqn:Ed; [|reflexivity].
      cbn [negb orb] in H2 |- *. apply dropLastDash_first. exact H2.
    + destruct (dropLastDash (String c' r')) as [|d rest] eqn:E.
      * (* the rest was a single dash: it followed [c] *)
        cbn [no_dash_last].
        destruct r' as [|c'' r'']; cbn [dropLastDash] in E.
        { destruct (is_dash c') eqn:Ed'; [|discriminate].
          cbn [no_dash_first] in H2. rewrite Ed' in H2.
          cbn [negb] in H2. rewrite orb_false_r in H2. exact H2. }
        { discriminate. }
      * cbn [no_dash_last]. exact I3.
Qed.

(** X30. The stem of the file name the outline and the initial designer
    download to is never empty and is made of lower-case letters,
    digits and single dashes only, with no dash at the start or at the
    end; it is "model" when the text has no letter or digit (for texts
    of ASCII characters, on which the model of [trim] and
    [toLowerCase] is exact). *)
Theorem file_stem_is_a_slug (text : string) :
  ascii_only text = true ->
  let stem := JS.or_else (safe text) "model" in
  stem <> EmptyString /\
  slug stem = true /\
  slug (safe text) = true /\
  (all_chars (fun c => negb (is_alnum (lower_ascii c))) text = true ->
   stem = "model"%string).
Proof.
  intros _. cbv zeta.
  assert (Hs : slug (safe text) = true).
  { unfold safe, slug.
    set (s0 := toLowerCase _).
    destruct (dashRuns_slugged s0 false) as (A1 & A2 & _).
    destruct (dropFirstDash_slugged _ A1 A2) as (B1 & B2 & B3).
    destruct (dropLastDash_slugged _ B1 B2) as (C1 & C2 & C3).
    rewrite C1, C2, C3, (dropLastDash_first _ B3). reflexivity. }
  split; [destruct (safe text); discriminate|].
  split; [destruct (safe text); [reflexivity|exact Hs]|].
  split; [exact Hs|].
  intros Hno.
  assert (Hrun : forall s inRun,
            all_chars (fun c => negb (is_alnum c)) s = true ->
            dashRuns inRun s = EmptyString \/
            dashRuns inRun s = String dash EmptyString).
  { induction s as [|c r IH]; intros inRun H; [left; reflexivity|].
    cbn [all_chars] in H. apply andb_prop in H. destruct H as [H H'].
    cbn [dashRuns]. apply negb_true_iff in H. rewrite H.
    destruct inRun.
    - apply IH, H'.
    - destruct (IH true H') as [-> | E]; [right; reflexivity|].
      exfalso. destruct (dashRuns_slugged r true) as (_ & _ & N).
      specialize (N eq_refl). rewrite E in N. discriminate. }
  assert (Hlow : forall s,
            all_chars (fun c => negb (is_alnum (lower_ascii c))) s = true ->
            all_chars (fun c => negb (is_alnum c)) (toLowerCase s) = true).
  { induction s as [|c r IH]; [reflexivity|]. cbn [all_chars toLowerCase].
    intros H. apply andb_prop in H. destruct H as [H H'].
    rewrite H, (IH H'). reflexivity. }
  assert (Hstart : forall s,
            all_chars (fun c => negb (is_alnum (lower_ascii c))) s = true ->
            all_chars (fun c => negb (is_alnum (lower_ascii c)))
              (JS.trimStart s) = true).
  { induction s as [|c r IH]; [reflexivity|]. cbn [JS.trimStart].
    intros H. destruct (JS.is_space c); [|exact H].
    cbn [all_chars] in H. apply andb_prop in H. apply IH, H. }
  assert (Hend : forall s,
            all_chars (fun c => negb (is_alnum (lower_ascii c))) s = true ->
            all_chars (fun c => negb (is_alnum (lower_ascii c)))
              (JS.trimEnd s) = true).
  { induction s as [|c r IH]; [reflexivity|]. cbn [JS.trimEnd all_chars].
    intros H. apply andb_prop in H. destruct H as [H H'].
    specialize (IH H'). destruct (JS.trimEnd r) as [|c' r'].
    - destruct (JS.is_space c); [reflexivity|].
      cbn [all_chars]. rewrite H. reflexivity.
    - cbn [all_chars] in IH |- *. rewrite H, IH. reflexivity. }
  destruct text as [|t0 t1].
  - reflexivity.
  - cbn [JS.or_else] in *. unfold safe. cbn [JS.or_else].
    unfold JS.trim.
    destruct (Hrun _ false (Hlow _ (Hend _ (Hstart _ Hno)))) as [-> | ->];
      reflexivity.
Qed.

End FileNameFacts.

Lemma file_stem_is_a_slug_witness :
  FileName.ascii_only " Anna-Lena & Co. " = true /\
  FileName.safe " Anna-Lena & Co. " = "anna-lena-co"%string /\
  FileName.slug (FileName.safe " Anna-Lena & Co. ") = true.
Proof.
  split; [reflexivity|]. split; [reflexivity|].
  exact (proj1 (proj2 (proj2 (file_stem_is_a_slug " Anna-Lena & Co. "
                                eq_refl)))).
Defined.
